(** * Neon Jelly Jump: the simulation core of [game/GameEngine.ts]

    A shallow embedding of the game engine (classes [Platform], [Player] and
    [GameEngine], the constants of [game/constants.ts] and the types of
    [types.ts]) together with the properties of its tick, scoring and
    platform recycling, and of the audio controller of [utils/audio.ts]
    that it calls.

    Conventions of the embedding.
    - A JavaScript [number] that holds a coordinate, a size or a velocity is
      an exact rational in lowest terms ([Qc], so that [===] is [=]): no
      NaN, and sums and products are exact where the program rounds them
      to the nearest double.  The counters ([score], [perfectStreak],
      [jumps], [shakeTimer]) only ever hold integers and are in [Z].
    - [Platform] objects are mutable and shared between the array
      [platforms] and [player.currentPlatform]; they live in a store
      ([heap]) and both places hold addresses, so that [===] on platforms is
      equality of addresses.  [allocated] is the next free address.
    - [Math.random()] is an oracle [random : nat -> Qc]: [random n] is the
      number that the call of the engine after [n] others returns, and the
      engine state counts the calls it has made ([randomCalls]).  The calls
      that [audioController.playShatter] makes in between are not the
      engine's and are not counted.
    - The four callbacks handed to the constructor and the calls to
      [audioController] append to [trace], most recent event first.
    - An uncaught [TypeError] (reading a field of [undefined]) is [None].
    - The canvas, the 2d context, [rafId] and the four scale fields of
      [Player] (written from [Math.sin(Date.now())], read only by [draw])
      are left out: nothing of the simulation reads them. *)

From Stdlib Require Import ZArith QArith Qcanon Qcabs Qround String List Bool Lia Lqa.
Import ListNotations.

Open Scope Q_scope.
Open Scope Qc_scope.

(** ** Numbers *)

(** Literals are written as in the source, in [Q], and read in [Qc]. *)
#[warning="-ambiguous-paths"]
Coercion Q2Qc : Q >-> Qc.

(** [a < b], [a <= b] and [a !== b] *)
Definition Qcltb (a b : Qc) : bool := negb (Qle_bool b a).
Definition Qcleb (a b : Qc) : bool := Qle_bool a b.
Definition Qcneqb (a b : Qc) : bool := negb (Qeq_bool a b).

Definition Qcfloor (a : Qc) : Z := Qfloor a.

(** ** [game/constants.ts] *)

(** The colour strings of [COLORS]; [undefined_color] is what indexing
    [PLATFORM_COLORS] out of range yields. *)
Inductive Color : Set :=
  | BACKGROUND | NEON_CYAN | NEON_MAGENTA | NEON_LIME | NEON_YELLOW
  | WHITE | SHADOW | undefined_color.

Definition PLATFORM_COLORS : list Color :=
  [NEON_CYAN; NEON_MAGENTA; NEON_LIME; NEON_YELLOW].

Definition GRAVITY : Qc := 0.5.
Definition JUMP_FORCE : Qc := -15.
Definition DOUBLE_JUMP_FORCE : Qc := -12.
Definition MOVE_SPEED_INITIAL : Qc := 3.
Definition MOVE_SPEED_MAX : Qc := 12.
Definition PLATFORM_SPACING : Qc := 150.
Definition PLATFORM_WIDTH_MIN : Qc := 80.
Definition PLATFORM_WIDTH_MAX : Qc := 180.
Definition PLATFORM_HEIGHT : Qc := 20.
Definition PLAYER_SIZE : Qc := 40.
Definition PERFECT_TOLERANCE : Qc := 15.
Definition FEVER_THRESHOLD : Z := 3.
Definition FEVER_MULTIPLIER : Z := 2.

(** Records are read field by field, as objects are. *)
#[global] Set Primitive Projections.

(** ** [types.ts] *)

Inductive GameState : Set := start | playing | gameover.

Inductive ParticleType : Set := confetti | trail | shatter.

Record Particle : Set := mkParticle {
  pt_x : Qc; pt_y : Qc; pt_vx : Qc; pt_vy : Qc;
  pt_life : Qc; pt_maxLife : Qc;
  pt_color : Color; pt_size : Qc; pt_type : ParticleType }.

Record FloatingText : Set := mkFloatingText {
  ft_x : Qc; ft_y : Qc; ft_text : string;
  ft_life : Qc; ft_color : Color; ft_scale : Qc }.

(** ** [class Platform] *)

Module Platform.

Record t : Set := mk {
  x : Qc; y : Qc; width : Qc; height : Qc; color : Color;
  vx : Qc; passed : bool; landedOn : bool }.

Definition set_x v (p : t) : t :=
  mk v (y p) (width p) (height p) (color p) (vx p) (passed p) (landedOn p).
Definition set_y v (p : t) : t :=
  mk (x p) v (width p) (height p) (color p) (vx p) (passed p) (landedOn p).
Definition set_width v (p : t) : t :=
  mk (x p) (y p) v (height p) (color p) (vx p) (passed p) (landedOn p).
Definition set_height v (p : t) : t :=
  mk (x p) (y p) (width p) v (color p) (vx p) (passed p) (landedOn p).
Definition set_color v (p : t) : t :=
  mk (x p) (y p) (width p) (height p) v (vx p) (passed p) (landedOn p).
Definition set_vx v (p : t) : t :=
  mk (x p) (y p) (width p) (height p) (color p) v (passed p) (landedOn p).
Definition set_passed v (p : t) : t :=
  mk (x p) (y p) (width p) (height p) (color p) (vx p) v (landedOn p).
Definition set_landedOn v (p : t) : t :=
  mk (x p) (y p) (width p) (height p) (color p) (vx p) (passed p) v.

Definition new (x0 y0 width0 : Qc) (color0 : Color) : t :=
  mk x0 y0 width0 PLATFORM_HEIGHT color0 0 false false.

End Platform.

(** The store of platform objects. *)
Definition Heap : Set := nat -> Platform.t.

Definition store (a : nat) (p : Platform.t) (h : Heap) : Heap :=
  fun b => if Nat.eqb b a then p else h b.

(** ** [class Player] *)

Module Player.

Record t : Set := mk {
  x : Qc; y : Qc; vx : Qc; vy : Qc; width : Qc; height : Qc; color : Color;
  jumps : Z; currentPlatform : option nat }.

Definition set_x v (pl : t) : t :=
  mk v (y pl) (vx pl) (vy pl) (width pl) (height pl) (color pl) (jumps pl) (currentPlatform pl).
Definition set_y v (pl : t) : t :=
  mk (x pl) v (vx pl) (vy pl) (width pl) (height pl) (color pl) (jumps pl) (currentPlatform pl).
Definition set_vx v (pl : t) : t :=
  mk (x pl) (y pl) v (vy pl) (width pl) (height pl) (color pl) (jumps pl) (currentPlatform pl).
Definition set_vy v (pl : t) : t :=
  mk (x pl) (y pl) (vx pl) v (width pl) (height pl) (color pl) (jumps pl) (currentPlatform pl).
Definition set_width v (pl : t) : t :=
  mk (x pl) (y pl) (vx pl) (vy pl) v (height pl) (color pl) (jumps pl) (currentPlatform pl).
Definition set_height v (pl : t) : t :=
  mk (x pl) (y pl) (vx pl) (vy pl) (width pl) v (color pl) (jumps pl) (currentPlatform pl).
Definition set_color v (pl : t) : t :=
  mk (x pl) (y pl) (vx pl) (vy pl) (width pl) (height pl) v (jumps pl) (currentPlatform pl).
Definition set_jumps v (pl : t) : t :=
  mk (x pl) (y pl) (vx pl) (vy pl) (width pl) (height pl) (color pl) v (currentPlatform pl).
Definition set_currentPlatform v (pl : t) : t :=
  mk (x pl) (y pl) (vx pl) (vy pl) (width pl) (height pl) (color pl) (jumps pl) v.

Definition new (startX startY : Qc) : t :=
  mk startX startY 0 0 PLAYER_SIZE PLAYER_SIZE WHITE 0 None.

(** [update()]: stick to the platform (and leave it when past its edge by
    more than the tolerance), or fall. *)
Definition update (h : Heap) (pl : t) : t :=
  match currentPlatform pl with
  | Some a =>
      let pl1 := set_y (Platform.y (h a) - height pl / 2) (set_vy 0 pl) in
      let edgeTolerance := 5 in
      if Qcltb (x pl1) (Platform.x (h a) - edgeTolerance)
         || Qcltb (Platform.x (h a) + Platform.width (h a) + edgeTolerance) (x pl1)
      then set_currentPlatform None pl1
      else pl1
  | None =>
      let pl1 := set_vy (vy pl + GRAVITY) pl in
      set_y (y pl1 + vy pl1) pl1
  end.

(** [jump(force)]; the call to [audioController.playJump] is logged by the
    engine ([playerJump] below). *)
Definition jump (force : Qc) (pl : t) : t :=
  set_jumps (jumps pl + 1)%Z (set_vy force (set_currentPlatform None pl)).

(** [land(platform)], [platform] being the object at address [a]. *)
Definition land (a : nat) (platform : Platform.t) (pl : t) : t :=
  set_y (Platform.y platform - height pl / 2)
    (set_jumps 0%Z (set_vy 0 (set_currentPlatform (Some a) pl))).

End Player.

(** ** [class GameEngine] *)

(** What the engine tells the outside: the four callbacks and the calls to
    [audioController]. *)
Inductive Event : Set :=
  | ScoreUpdate (displayed : Z)
  | GameStateChange (st : GameState)
  | FeverChange (fever : bool)
  | ComboChange (combo : Z)
  | AudioInit | PlayJump | PlayLand | PlayPerfect | PlayShatter.

Record Engine : Set := mkEngine {
  player : Player.t;
  heap : Heap;
  allocated : nat;
  platforms : list nat;
  particles : list Particle;
  floatingTexts : list FloatingText;
  state : GameState;
  score : Z;
  gameSpeed : Qc;
  shakeTimer : Z;
  perfectStreak : Z;
  isFever : bool;
  viewportWidth : Qc;
  viewportHeight : Qc;
  lastTime : Qc;
  randomCalls : nat;
  trace : list Event }.

Definition set_player v (s : Engine) : Engine :=
  mkEngine v (heap s) (allocated s) (platforms s) (particles s) (floatingTexts s) (state s) (score s) (gameSpeed s) (shakeTimer s) (perfectStreak s) (isFever s) (viewportWidth s) (viewportHeight s) (lastTime s) (randomCalls s) (trace s).
Definition set_heap v (s : Engine) : Engine :=
  mkEngine (player s) v (allocated s) (platforms s) (particles s) (floatingTexts s) (state s) (score s) (gameSpeed s) (shakeTimer s) (perfectStreak s) (isFever s) (viewportWidth s) (viewportHeight s) (lastTime s) (randomCalls s) (trace s).
Definition set_allocated v (s : Engine) : Engine :=
  mkEngine (player s) (heap s) v (platforms s) (particles s) (floatingTexts s) (state s) (score s) (gameSpeed s) (shakeTimer s) (perfectStreak s) (isFever s) (viewportWidth s) (viewportHeight s) (lastTime s) (randomCalls s) (trace s).
Definition set_platforms v (s : Engine) : Engine :=
  mkEngine (player s) (heap s) (allocated s) v (particles s) (floatingTexts s) (state s) (score s) (gameSpeed s) (shakeTimer s) (perfectStreak s) (isFever s) (viewportWidth s) (viewportHeight s) (lastTime s) (randomCalls s) (trace s).
Definition set_particles v (s : Engine) : Engine :=
  mkEngine (player s) (heap s) (allocated s) (platforms s) v (floatingTexts s) (state s) (score s) (gameSpeed s) (shakeTimer s) (perfectStreak s) (isFever s) (viewportWidth s) (viewportHeight s) (lastTime s) (randomCalls s) (trace s).
Definition set_floatingTexts v (s : Engine) : Engine :=
  mkEngine (player s) (heap s) (allocated s) (platforms s) (particles s) v (state s) (score s) (gameSpeed s) (shakeTimer s) (perfectStreak s) (isFever s) (viewportWidth s) (viewportHeight s) (lastTime s) (randomCalls s) (trace s).
Definition set_state v (s : Engine) : Engine :=
  mkEngine (player s) (heap s) (allocated s) (platforms s) (particles s) (floatingTexts s) v (score s) (gameSpeed s) (shakeTimer s) (perfectStreak s) (isFever s) (viewportWidth s) (viewportHeight s) (lastTime s) (randomCalls s) (trace s).
Definition set_score v (s : Engine) : Engine :=
  mkEngine (player s) (heap s) (allocated s) (platforms s) (particles s) (floatingTexts s) (state s) v (gameSpeed s) (shakeTimer s) (perfectStreak s) (isFever s) (viewportWidth s) (viewportHeight s) (lastTime s) (randomCalls s) (trace s).
Definition set_gameSpeed v (s : Engine) : Engine :=
  mkEngine (player s) (heap s) (allocated s) (platforms s) (particles s) (floatingTexts s) (state s) (score s) v (shakeTimer s) (perfectStreak s) (isFever s) (viewportWidth s) (viewportHeight s) (lastTime s) (randomCalls s) (trace s).
Definition set_shakeTimer v (s : Engine) : Engine :=
  mkEngine (player s) (heap s) (allocated s) (platforms s) (particles s) (floatingTexts s) (state s) (score s) (gameSpeed s) v (perfectStreak s) (isFever s) (viewportWidth s) (viewportHeight s) (lastTime s) (randomCalls s) (trace s).
Definition set_perfectStreak v (s : Engine) : Engine :=
  mkEngine (player s) (heap s) (allocated s) (platforms s) (particles s) (floatingTexts s) (state s) (score s) (gameSpeed s) (shakeTimer s) v (isFever s) (viewportWidth s) (viewportHeight s) (lastTime s) (randomCalls s) (trace s).
Definition set_isFever v (s : Engine) : Engine :=
  mkEngine (player s) (heap s) (allocated s) (platforms s) (particles s) (floatingTexts s) (state s) (score s) (gameSpeed s) (shakeTimer s) (perfectStreak s) v (viewportWidth s) (viewportHeight s) (lastTime s) (randomCalls s) (trace s).
Definition set_viewportWidth v (s : Engine) : Engine :=
  mkEngine (player s) (heap s) (allocated s) (platforms s) (particles s) (floatingTexts s) (state s) (score s) (gameSpeed s) (shakeTimer s) (perfectStreak s) (isFever s) v (viewportHeight s) (lastTime s) (randomCalls s) (trace s).
Definition set_viewportHeight v (s : Engine) : Engine :=
  mkEngine (player s) (heap s) (allocated s) (platforms s) (particles s) (floatingTexts s) (state s) (score s) (gameSpeed s) (shakeTimer s) (perfectStreak s) (isFever s) (viewportWidth s) v (lastTime s) (randomCalls s) (trace s).
Definition set_lastTime v (s : Engine) : Engine :=
  mkEngine (player s) (heap s) (allocated s) (platforms s) (particles s) (floatingTexts s) (state s) (score s) (gameSpeed s) (shakeTimer s) (perfectStreak s) (isFever s) (viewportWidth s) (viewportHeight s) v (randomCalls s) (trace s).
Definition set_randomCalls v (s : Engine) : Engine :=
  mkEngine (player s) (heap s) (allocated s) (platforms s) (particles s) (floatingTexts s) (state s) (score s) (gameSpeed s) (shakeTimer s) (perfectStreak s) (isFever s) (viewportWidth s) (viewportHeight s) (lastTime s) v (trace s).
Definition set_trace v (s : Engine) : Engine :=
  mkEngine (player s) (heap s) (allocated s) (platforms s) (particles s) (floatingTexts s) (state s) (score s) (gameSpeed s) (shakeTimer s) (perfectStreak s) (isFever s) (viewportWidth s) (viewportHeight s) (lastTime s) (randomCalls s) v.

Definition emit (e : Event) (s : Engine) : Engine := set_trace (e :: trace s) s.

(** [platform.field = v] on the object at address [a]. *)
Definition modify (a : nat) (f : Platform.t -> Platform.t) (s : Engine) : Engine :=
  set_heap (store a (f (heap s a)) (heap s)) s.

(** [new GameEngine(...)] with [window.innerWidth], [window.innerHeight]. *)
Definition constructor (innerWidth innerHeight : Qc) : Engine :=
  mkEngine (Player.new 0 0) (fun _ => Platform.new 0 0 0 undefined_color) O
    [] [] [] start 0%Z MOVE_SPEED_INITIAL 0%Z 0%Z false
    innerWidth innerHeight 0 O [].

Definition resize (innerWidth innerHeight : Qc) (s : Engine) : Engine :=
  set_viewportHeight innerHeight (set_viewportWidth innerWidth s).

Definition playerJump (force : Qc) (s : Engine) : Engine :=
  emit PlayJump (set_player (Player.jump force (player s)) s).

Definition playerLand (a : nat) (s : Engine) : Engine :=
  emit PlayLand (set_player (Player.land a (heap s a) (player s)) s).

Section Engine.

(** The successive results of [Math.random()]. *)
Variable random : nat -> Qc.

Fixpoint createParticles (x y : Qc) (count : nat) (color : Color) (s : Engine)
  : Engine :=
  match count with
  | O => s
  | S count' =>
      let n := randomCalls s in
      let p := mkParticle x y
                 ((random n - 0.5) * 10)
                 ((random (1 + n)%nat - 0.5) * 10 - 5)
                 1 1 color
                 (random (2 + n)%nat * 6 + 2)
                 confetti in
      createParticles x y count' color
        (set_randomCalls (3 + n)%nat (set_particles (particles s ++ [p]) s))
  end.

(** [PLATFORM_COLORS[i]] *)
Definition palette (i : Z) : Color :=
  if (i <? 0)%Z then undefined_color
  else nth (Z.to_nat i) PLATFORM_COLORS undefined_color.

Definition spawnPlatform (y : Qc) (s : Engine) : Engine :=
  let n := randomCalls s in
  let width := PLATFORM_WIDTH_MIN
               + random n * (PLATFORM_WIDTH_MAX - PLATFORM_WIDTH_MIN) in
  let x := random (1 + n)%nat * (viewportWidth s - width) in
  let color :=
    palette (Qcfloor (random (2 + n)%nat
                     * inject_Z (Z.of_nat (List.length PLATFORM_COLORS)))) in
  let p := Platform.new x y width color in
  let p := Platform.set_vx
             ((if Qcltb 0.5 (random (3 + n)%nat) then 1 else -1)
              * (2 + random (4 + n)%nat * 3)) p in
  let a := allocated s in
  set_platforms (platforms s ++ [a])
    (set_allocated (S a)
       (set_heap (store a p (heap s))
          (set_randomCalls (5 + n)%nat s))).

Definition resetGame (s : Engine) : Engine :=
  let s := set_score 0%Z s in
  let s := emit (ScoreUpdate 0) s in
  let s := set_gameSpeed MOVE_SPEED_INITIAL s in
  let s := set_perfectStreak 0%Z s in
  let s := emit (ComboChange 0) s in
  let s := set_isFever false s in
  let s := emit (FeverChange false) s in
  let s := set_particles [] s in
  let s := set_floatingTexts [] s in
  let s := set_player
             (Player.set_color NEON_CYAN
                (Player.new (viewportWidth s / 2) (viewportHeight s * 0.8))) s in
  let s := set_platforms [] s in
  let basePlatformY := viewportHeight s * 0.8 + 40 in
  let basePlat :=
    Platform.new (viewportWidth s / 2 - 100) basePlatformY 200 NEON_MAGENTA in
  let a := allocated s in
  let s := set_allocated (S a) (set_heap (store a basePlat (heap s)) s) in
  let s := set_platforms (platforms s ++ [a]) s in
  let s := set_player (Player.set_currentPlatform (Some a) (player s)) s in
  let s := set_player
             (Player.set_y (Platform.y (heap s a) - Player.height (player s) / 2)
                (player s)) s in
  fold_left
    (fun s i => spawnPlatform (basePlatformY - inject_Z i * PLATFORM_SPACING) s)
    [1; 2; 3; 4; 5]%Z s.

Definition startGame (s : Engine) : Engine :=
  let s := resetGame s in
  let s := set_state playing s in
  let s := emit (GameStateChange playing) s in
  emit AudioInit s.

(** [handleInput(e)]: the type of the event only decides [preventDefault]. *)
Definition handleInput (s : Engine) : Engine :=
  match state s with
  | start => s
  | playing =>
      if (Player.jumps (player s) <? 2)%Z then
        let force := if (Player.jumps (player s) =? 0)%Z
                     then JUMP_FORCE else DOUBLE_JUMP_FORCE in
        let s := playerJump force s in
        createParticles (Player.x (player s))
          (Player.y (player s) + Player.height (player s) / 2) 5 WHITE s
      else s
  | gameover => s
  end.

Definition triggerPerfect (a : nat) (s : Engine) : Engine :=
  let s := set_perfectStreak (perfectStreak s + 1)%Z s in
  let s := emit (ComboChange (perfectStreak s)) s in
  let s := emit PlayPerfect s in
  let platform := heap s a in
  let s := set_player (Player.set_color (Platform.color platform) (player s)) s in
  let s := set_shakeTimer 10%Z s in
  let s := createParticles (Player.x (player s))
             (Player.y (player s) + Player.height (player s) / 2) 20
             (Platform.color platform) s in
  let s := set_floatingTexts
             (floatingTexts s ++
              [mkFloatingText (Player.x (player s)) (Player.y (player s) - 50)
                 "PERFECT!"%string 1 (Platform.color platform) 1]) s in
  if (FEVER_THRESHOLD <=? perfectStreak s)%Z
  then emit (FeverChange true) (set_isFever true s)
  else s.

Definition gameOver (s : Engine) : Engine :=
  let s := set_state gameover s in
  let s := emit (GameStateChange gameover) s in
  let s := emit PlayShatter s in
  createParticles (Player.x (player s)) (Player.y (player s)) 50
    (Player.color (player s)) s.

(** *** The stages of [update(dt)], in the order of the source *)

(** "Update Platforms (Horizontal Movement)": the body of the [forEach]. *)
Definition movePlatform (speedMultiplier : Qc) (s : Engine) (a : nat) : Engine :=
  if Qcneqb (Platform.vx (heap s a)) 0 then
    let moveX := Platform.vx (heap s a) * speedMultiplier in
    let s := modify a (fun p => Platform.set_x (Platform.x p + moveX) p) s in
    let s := match Player.currentPlatform (player s) with
             | Some b =>
                 if Nat.eqb b a
                 then set_player
                        (Player.set_x (Player.x (player s) + moveX) (player s)) s
                 else s
             | None => s
             end in
    if Qcleb (Platform.x (heap s a)) 0 then
      let s := modify a (Platform.set_x 0) s in
      modify a (fun p => Platform.set_vx (Platform.vx p * -1) p) s
    else if Qcleb (viewportWidth s)
                 (Platform.x (heap s a) + Platform.width (heap s a)) then
      let s := modify a
                 (fun p => Platform.set_x (viewportWidth s - Platform.width p) p)
                 s in
      modify a (fun p => Platform.set_vx (Platform.vx p * -1) p) s
    else s
  else s.

Definition movePlatforms (speedMultiplier : Qc) (s : Engine) : Engine :=
  fold_left (movePlatform speedMultiplier) (platforms s) s.

Definition playerUpdate (s : Engine) : Engine :=
  set_player (Player.update (heap s) (player s)) s.

(** "World Scrolling" with "Cleanup and Spawn".  [platforms[0]] of an empty
    array and [lastP] after shifting the only platform are [undefined]. *)
Definition worldScroll (s : Engine) : option Engine :=
  let threshold := viewportHeight s * 0.6 in
  if Qcltb (Player.y (player s)) threshold then
    let diff := threshold - Player.y (player s) in
    let s := set_player (Player.set_y threshold (player s)) s in
    let s := fold_left
               (fun s a => modify a
                             (fun p => Platform.set_y (Platform.y p + diff) p) s)
               (platforms s) s in
    match platforms s with
    | [] => None
    | first :: rest =>
        if Qcltb (viewportHeight s + 100) (Platform.y (heap s first)) then
          let s := set_platforms rest s in
          match rev (platforms s) with
          | [] => None
          | lastP :: _ =>
              Some (spawnPlatform
                      (Platform.y (heap s lastP) - PLATFORM_SPACING) s)
          end
        else Some s
    end
  else Some s.

(** The condition of the collision loop for the platform at [a]. *)
Definition hits (s : Engine) (a : nat) : bool :=
  let p := heap s a in
  let pLeft := Platform.x p in
  let pRight := Platform.x p + Platform.width p in
  let playerBottom := Player.y (player s) + Player.height (player s) / 2 in
  let playerLeft := Player.x (player s) - Player.width (player s) / 4 in
  let playerRight := Player.x (player s) + Player.width (player s) / 4 in
  let prevY := Player.y (player s) - Player.vy (player s) in
  let crossedPlatform :=
    Qcleb (prevY + Player.height (player s) / 2) (Platform.y p + 15)
    && Qcleb (Platform.y p) playerBottom in
  crossedPlatform && Qcltb pLeft playerRight && Qcltb playerLeft pRight.

(** The distance of "Check Perfect". *)
Definition dist (s : Engine) (a : nat) : Qc :=
  let pCenter := Platform.x (heap s a) + Platform.width (heap s a) / 2 in
  Qcabs (Player.x (player s) - pCenter).

(** "Landed": the body of the [if] of the collision loop. *)
Definition landed (a : nat) (s : Engine) : Engine :=
  let s := playerLand a s in
  if negb (Platform.landedOn (heap s a)) then
    let s := modify a (Platform.set_landedOn true) s in
    let s := set_score (score s + 1)%Z s in
    let s := emit (ScoreUpdate
                     (score s * (if isFever s then FEVER_MULTIPLIER else 1))%Z) s in
    if Qcltb (dist s a) PERFECT_TOLERANCE then triggerPerfect a s
    else
      let s := if (0 <? perfectStreak s)%Z
               then emit (ComboChange 0) (set_perfectStreak 0%Z s)
               else s in
      if isFever s
      then emit (FeverChange false) (set_isFever false s)
      else s
  else s.

(** "Collision Detection": the [for ... of] stops at the first platform
    that [hits]. *)
Definition collisionDetection (s : Engine) : Engine :=
  if Qcltb 0 (Player.vy (player s))
     && match Player.currentPlatform (player s) with
        | None => true
        | Some _ => false
        end
  then match find (hits s) (platforms s) with
       | Some a => landed a s
       | None => s
       end
  else s.

(** "Fall off screen" *)
Definition fallOff (s : Engine) : Engine :=
  if Qcltb (viewportHeight s + 100) (Player.y (player s)) then gameOver s else s.

(** "Update Particles" and "Update Text": the backward loops with [splice]
    keep, in order, the entries whose life is still positive. *)
Definition updateParticle (p : Particle) : Particle :=
  mkParticle (pt_x p + pt_vx p) (pt_y p + pt_vy p) (pt_vx p) (pt_vy p + 0.2)
    (pt_life p - 0.02) (pt_maxLife p) (pt_color p) (pt_size p) (pt_type p).

Definition updateText (t : FloatingText) : FloatingText :=
  mkFloatingText (ft_x t) (ft_y t - 1) (ft_text t) (ft_life t - 0.02)
    (ft_color t) (ft_scale t + 0.01).

Definition updateCosmetics (s : Engine) : Engine :=
  let s := set_particles
             (filter (fun p => Qcltb 0 (pt_life p))
                (map updateParticle (particles s))) s in
  let s := set_floatingTexts
             (filter (fun t => Qcltb 0 (ft_life t))
                (map updateText (floatingTexts s))) s in
  if (0 <? shakeTimer s)%Z then set_shakeTimer (shakeTimer s - 1)%Z s else s.

(** Everything of [update] before the collision loop. *)
Definition preCollision (s : Engine) : option Engine :=
  let speedMultiplier := 1 + inject_Z (score s) * 0.05 in
  worldScroll (playerUpdate (movePlatforms speedMultiplier s)).

(** [update(dt)]; [dt] is not read. *)
Definition update (dt : Qc) (s : Engine) : option Engine :=
  match preCollision s with
  | None => None
  | Some s => Some (updateCosmetics (fallOff (collisionDetection s)))
  end.

(** [draw()] only reads the state, but for the two calls of [Math.random]
    of the screen shake. *)
Definition draw (s : Engine) : Engine :=
  if (0 <? shakeTimer s)%Z then set_randomCalls (2 + randomCalls s)%nat s else s.

(** [loop(time)]: an exception of [update] leaves the callback. *)
Definition loop (time : Qc) (s : Engine) : option Engine :=
  let deltaTime := (time - lastTime s) / 16.67 in
  let s := set_lastTime time s in
  match state s with
  | playing =>
      match update deltaTime s with
      | None => None
      | Some s => Some (draw s)
      end
  | _ => Some (draw s)
  end.

(** *** What the page does to the engine *)

Inductive Input : Set :=
  | StartGame
  | HandleInput
  | Frame (time : Qc)
  | Resize (innerWidth innerHeight : Qc).

Definition step (i : Input) (s : Engine) : option Engine :=
  match i with
  | StartGame => Some (startGame s)
  | HandleInput => Some (handleInput s)
  | Frame time => loop time s
  | Resize w h => Some (resize w h s)
  end.

Fixpoint run (inputs : list Input) (s : Engine) : option Engine :=
  match inputs with
  | [] => Some s
  | i :: inputs' =>
      match step i s with
      | None => None
      | Some s' => run inputs' s'
      end
  end.

End Engine.

(** * The sounds: [utils/audio.ts]

    [AudioController] is embedded with the calls it makes on the Web Audio
    API (and on the console) written to a log, most recent call first.  The
    nodes and buffers it makes are numbered in the order of their making.
    [ctx] only says whether [this.ctx] holds an [AudioContext] or [null].
    Every method reads [ctx.currentTime] as one value, [now].  The calls on
    an existing context are taken to succeed.  The numbers [Math.random]
    returns to [playShatter] are an oracle of their own, with the count of
    the draws in [draws]: the oracle of the engine is the sequence of the
    numbers that the engine itself draws.  The samples of the noise are
    written to a [Float32Array], which keeps of each number the nearest
    number of single precision. *)

(** ** A [Float32Array] element *)

(** [2 ** k] *)
Definition pow2 (k : Z) : Qc :=
  if (0 <=? k)%Z then inject_Z (2 ^ k) else 1 / inject_Z (2 ^ (- k)).

(** [Math.floor(Math.log2(Math.abs(v)))] for [v] other than 0: the bit
    length of the numerator less that of the denominator, or one less. *)
Definition exponent (v : Qc) : Z :=
  let e := (Z.log2 (Z.abs (Qnum v)) - Z.log2 (Zpos (Qden v)))%Z in
  if Qcleb (pow2 e) (Qcabs v) then e else (e - 1)%Z.

(** The integer nearest to [x], the even one when two are as near. *)
Definition nearestEven (x : Qc) : Z :=
  let f := Qcfloor x in
  let r := x - inject_Z f in
  if Qcltb r 0.5 then f
  else if Qcltb 0.5 r then (f + 1)%Z
  else if Z.even f then f else (f + 1)%Z.

(** What [data[i] = v] stores, which is [Math.fround(v)]: the multiple of
    the spacing of single precision around [v] (24 significant bits, and
    [2 ** -149] below [2 ** -126]) that is nearest to [v], ties going to
    the even multiple.  Numbers beyond the range of single precision,
    which would be stored as an infinity, are not written here. *)
Definition fround (v : Qc) : Qc :=
  if Qcneqb v 0 then
    let q := pow2 (Z.max (exponent v) (-126) - 23) in
    inject_Z (nearestEven (v / q)) * q
  else 0.

Module AudioController.

Inductive OscillatorType : Set := sine | triangle | square.

(** [node.frequency] and [node.gain] *)
Inductive Param : Set := frequency (n : nat) | gain (n : nat).

Inductive Target : Set := node (n : nat) | destination.

Inductive Call : Set :=
  | NewAudioContext
  | CreateGain (n : nat)
  | CreateOscillator (n : nat)
  | CreateBuffer (n : nat) (numberOfChannels length sampleRate : Qc)
  | CreateBufferSource (n : nat)
  | SetType (n : nat) (type : OscillatorType)
  | SetBuffer (n buffer : nat)
  | SetValue (p : Param) (value : Qc)
  | SetValueAtTime (p : Param) (value startTime : Qc)
  | LinearRampToValueAtTime (p : Param) (value endTime : Qc)
  | ExponentialRampToValueAtTime (p : Param) (value endTime : Qc)
  | Connect (n : nat) (to : Target)
  | Start (n : nat) (when : option Qc)
  | Stop (n : nat) (when : Qc)
  | SetSample (buffer i : nat) (value : Qc)
  | ConsoleError (message : string).

Record t : Set := mk {
  ctx : bool;
  masterGain : option nat;
  initialized : bool;
  nodes : nat;
  draws : nat;
  calls : list Call }.

Definition set_ctx v (a : t) : t :=
  mk v (masterGain a) (initialized a) (nodes a) (draws a) (calls a).
Definition set_masterGain v (a : t) : t :=
  mk (ctx a) v (initialized a) (nodes a) (draws a) (calls a).
Definition set_initialized v (a : t) : t :=
  mk (ctx a) (masterGain a) v (nodes a) (draws a) (calls a).
Definition set_nodes v (a : t) : t :=
  mk (ctx a) (masterGain a) (initialized a) v (draws a) (calls a).
Definition set_draws v (a : t) : t :=
  mk (ctx a) (masterGain a) (initialized a) (nodes a) v (calls a).
Definition set_calls v (a : t) : t :=
  mk (ctx a) (masterGain a) (initialized a) (nodes a) (draws a) v.

(** [new AudioController()] *)
Definition new : t := mk false None false 0 0 [].

Definition call (c : Call) (a : t) : t := set_calls (c :: calls a) a.

(** A node or a buffer is made; its number is [nodes a]. *)
Definition make (c : nat -> Call) (a : t) : t :=
  call (c (nodes a)) (set_nodes (S (nodes a)) a).

(** [!this.ctx || !this.masterGain] *)
Definition unready (a : t) : bool :=
  negb (ctx a)
  || match masterGain a with
     | Some _ => false
     | None => true
     end.

(** [notes.forEach((freq, i) => ...)] *)
Fixpoint forEach (f : Qc -> nat -> t -> t) (l : list Qc) (i : nat) (a : t)
  : t :=
  match l with
  | [] => a
  | x :: l' => forEach f l' (S i) (f x i a)
  end.

Section Page.

(** [window.AudioContext || window.webkitAudioContext] is a constructor;
    [new] of [undefined] throws. *)
Variable supported : bool.

(** [ctx.sampleRate] *)
Variable sampleRate : Qc.

(** The successive results of [Math.random()] in [playShatter]. *)
Variable random : nat -> Qc.

Definition init (a : t) : t :=
  if initialized a then a
  else if supported then
    let a := call NewAudioContext (set_ctx true a) in
    let master := nodes a in
    let a := set_masterGain (Some master) (make CreateGain a) in
    let a := call (SetValue (gain master) 0.3) a in
    let a := call (Connect master destination) a in
    set_initialized true a
  else call (ConsoleError "AudioContext not supported") a.

Definition jumpSound (now : Qc) (master : nat) (a : t) : t :=
  let osc := nodes a in
  let a := make CreateOscillator a in
  let gn := nodes a in
  let a := make CreateGain a in
  let a := call (SetType osc sine) a in
  let a := call (SetValueAtTime (frequency osc) 150 now) a in
  let a := call (ExponentialRampToValueAtTime (frequency osc) 600 (now + 0.2))
             a in
  let a := call (SetValueAtTime (gain gn) 0.5 now) a in
  let a := call (ExponentialRampToValueAtTime (gain gn) 0.01 (now + 0.2)) a in
  let a := call (Connect osc (node gn)) a in
  let a := call (Connect gn (node master)) a in
  let a := call (Start osc None) a in
  call (Stop osc (now + 0.25)) a.

Definition playJump (now : Qc) (a : t) : t :=
  let sound a :=
    match masterGain a with
    | Some master => jumpSound now master a
    | None => a
    end in
  if unready a then
    let a := init a in
    if unready a then a else sound a
  else sound a.

Definition playLand (now : Qc) (a : t) : t :=
  if unready a then a
  else
    match masterGain a with
    | None => a
    | Some master =>
        let osc := nodes a in
        let a := make CreateOscillator a in
        let gn := nodes a in
        let a := make CreateGain a in
        let a := call (SetType osc triangle) a in
        let a := call (SetValueAtTime (frequency osc) 100 now) a in
        let a := call (ExponentialRampToValueAtTime (frequency osc) 40
                         (now + 0.1)) a in
        let a := call (SetValueAtTime (gain gn) 0.5 now) a in
        let a := call (ExponentialRampToValueAtTime (gain gn) 0.01
                         (now + 0.1)) a in
        let a := call (Connect osc (node gn)) a in
        let a := call (Connect gn (node master)) a in
        let a := call (Start osc None) a in
        call (Stop osc (now + 0.15)) a
    end.

(** C major arpeggio: C5, E5, G5, C6 *)
Definition notes : list Qc :=
  [523.25 : Qc; 659.25 : Qc; 783.99 : Qc; 1046.50 : Qc].

Definition perfectNote (now : Qc) (master : nat) (freq : Qc) (i : nat)
  (a : t) : t :=
  let osc := nodes a in
  let a := make CreateOscillator a in
  let gn := nodes a in
  let a := make CreateGain a in
  let a := call (SetType osc square) a in
  let a := call (SetValue (frequency osc) freq) a in
  let startTime := now + inject_Z (Z.of_nat i) * 0.05 in
  let a := call (SetValueAtTime (gain gn) 0 startTime) a in
  let a := call (LinearRampToValueAtTime (gain gn) 0.1 (startTime + 0.02)) a in
  let a := call (ExponentialRampToValueAtTime (gain gn) 0.001
                   (startTime + 0.3)) a in
  let a := call (Connect osc (node gn)) a in
  let a := call (Connect gn (node master)) a in
  let a := call (Start osc (Some startTime)) a in
  call (Stop osc (startTime + 0.4)) a.

Definition playPerfect (now : Qc) (a : t) : t :=
  if unready a then a
  else
    match masterGain a with
    | None => a
    | Some master => forEach (perfectNote now master) notes 0 a
    end.

(** [for (let i = 0; i < bufferSize; i++) data[i] = Math.random() * 2 - 1],
    [count] being the number of turns left. *)
Fixpoint fill (buffer : nat) (count i : nat) (a : t) : t :=
  match count with
  | O => a
  | S count' =>
      let a := call (SetSample buffer i (fround (random (draws a) * 2 - 1)))
                 (set_draws (S (draws a)) a) in
      fill buffer count' (S i) a
  end.

Definition playShatter (now : Qc) (a : t) : t :=
  if unready a then a
  else
    match masterGain a with
    | None => a
    | Some master =>
        let bufferSize := sampleRate * 0.5 in
        let buffer := nodes a in
        let a := make (fun n => CreateBuffer n 1 bufferSize sampleRate) a in
        let a := fill buffer (Z.to_nat (Qceiling bufferSize)) 0 a in
        let noise := nodes a in
        let a := make CreateBufferSource a in
        let a := call (SetBuffer noise buffer) a in
        let gn := nodes a in
        let a := make CreateGain a in
        let a := call (SetValueAtTime (gain gn) 0.5 now) a in
        let a := call (ExponentialRampToValueAtTime (gain gn) 0.01
                         (now + 0.5)) a in
        let a := call (Connect noise (node gn)) a in
        let a := call (Connect gn (node master)) a in
        call (Start noise None) a
    end.

(** *** What the game does to the controller *)

Inductive Method : Set :=
  | Init
  | Jump (now : Qc)
  | Land (now : Qc)
  | Perfect (now : Qc)
  | Shatter (now : Qc).

Definition invoke (m : Method) (a : t) : t :=
  match m with
  | Init => init a
  | Jump now => playJump now a
  | Land now => playLand now a
  | Perfect now => playPerfect now a
  | Shatter now => playShatter now a
  end.

Definition session (methods : list Method) (a : t) : t :=
  fold_left (fun a m => invoke m a) methods a.

End Page.

End AudioController.

(** * Vocabulary of the properties *)

(** ** Notifications *)

Definition asScore (e : Event) : option Z :=
  match e with ScoreUpdate v => Some v | _ => None end.

Definition asPhase (e : Event) : option GameState :=
  match e with GameStateChange st => Some st | _ => None end.

Definition asFever (e : Event) : option bool :=
  match e with FeverChange b => Some b | _ => None end.

Definition asCombo (e : Event) : option Z :=
  match e with ComboChange c => Some c | _ => None end.

(** The values one callback was called with, most recent first. *)
Fixpoint reports {A : Type} (channel : Event -> option A) (tr : list Event)
  : list A :=
  match tr with
  | [] => []
  | e :: tr' =>
      match channel e with
      | Some v => v :: reports channel tr'
      | None => reports channel tr'
      end
  end.

(** Each report of [new], which come after those of [old], differs from the
    report made just before it. *)
Fixpoint changesOnly {A : Type} (new old : list A) : Prop :=
  match new with
  | [] => True
  | v :: rest => hd_error (rest ++ old) <> Some v /\ changesOnly rest old
  end.

(** No callback is ever called with the value it was last called with. *)
Definition firesOnChange (tr : list Event) : Prop :=
  changesOnly (reports asScore tr) []
  /\ changesOnly (reports asPhase tr) []
  /\ changesOnly (reports asFever tr) []
  /\ changesOnly (reports asCombo tr) [].

(** ** Landings *)

(** The platform the collision loop of a tick lands on, [m] being the state
    the loop starts from. *)
Definition landing (m : Engine) : option nat :=
  if Qcltb 0 (Player.vy (player m))
     && match Player.currentPlatform (player m) with
        | None => true
        | Some _ => false
        end
  then find (hits m) (platforms m)
  else None.

(** The frame at [time] takes the playing engine from [s] to [s'] and on
    the way, from [m], lands on the platform at [a] for the first time. *)
Definition firstLanding (random : nat -> Qc) (time : Qc)
  (s m : Engine) (a : nat) (s' : Engine) : Prop :=
  state s = playing
  /\ loop random time s = Some s'
  /\ preCollision random (set_lastTime time s) = Some m
  /\ landing m = Some a
  /\ Platform.landedOn (heap m a) = false.

Definition perfect (m : Engine) (a : nat) : Prop :=
  dist m a < PERFECT_TOLERANCE.

(** A jump, a resize or a frame in which no platform is landed on for the
    first time. *)
Definition quiet (random : nat -> Qc) (s s' : Engine) : Prop :=
  exists i, i <> StartGame /\ step random i s = Some s'
    /\ forall time m a,
         i = Frame time -> state s = playing ->
         preCollision random (set_lastTime time s) = Some m ->
         landing m = Some a ->
         Platform.landedOn (heap m a) = true.

Inductive quietly (random : nat -> Qc) : Engine -> Engine -> Prop :=
  | quietly_refl s : quietly random s s
  | quietly_step s s' s'' :
      quiet random s s' -> quietly random s' s'' -> quietly random s s''.

(** What [update] and [draw] do once the collision loop is over. *)
Definition finish (random : nat -> Qc) (m : Engine) : Engine :=
  draw (updateCosmetics (fallOff random m)).

(** ** The environment *)

(** [window.innerHeight] is never negative. *)
Definition viewportOk (i : Input) : Prop :=
  match i with
  | Resize _ innerHeight => 0 <= innerHeight
  | _ => True
  end.

(** [Math.random()] is in [0, 1). *)
Definition unitInterval (random : nat -> Qc) : Prop :=
  forall n, 0 <= random n /\ random n < 1.

(** ** A concrete game *)

Definition coin (n : nat) : Qc := 0.5.

Definition frames (k : nat) : list Input := repeat (Frame 0) k.

Definition succeeds (o : option Engine) : bool :=
  match o with
  | Some _ => true
  | None => false
  end.

Definition the (o : option Engine) : Engine :=
  match o with
  | Some s => s
  | None => constructor 0 0
  end.

(** ** The jump command as the specification words it *)

(** "A jump command is consumed exactly when the actor's jump-count is less
    than 2, and is silently ignored otherwise", whatever the phase. *)
Definition jumpConsumedBelowTwo (random : nat -> Qc) : Prop :=
  forall w h inputs s,
    run random inputs (constructor w h) = Some s ->
    let s' := handleInput random s in
    ((Player.jumps (player s) < 2)%Z ->
     Player.jumps (player s') = (Player.jumps (player s) + 1)%Z)
    /\ ((2 <= Player.jumps (player s))%Z -> s' = s).

(** ** Scoring *)

(** What a landing tells the outside, most recent event first: [again]
    says that the platform had been landed on before, [perfect] that the
    landing is within [PERFECT_TOLERANCE] of its centre; [score], [streak]
    and [fever] are the values before the landing. *)
Definition landingEvents (again perfect : bool) (score streak : Z)
  (fever : bool) : list Event :=
  if again then [PlayLand]
  else
    (if perfect
     then (if (FEVER_THRESHOLD <=? streak + 1)%Z then [FeverChange true] else [])
          ++ [PlayPerfect; ComboChange (streak + 1)]
     else (if fever then [FeverChange false] else [])
          ++ (if (0 <? streak)%Z then [ComboChange 0] else []))
    ++ [ScoreUpdate ((score + 1) * (if fever then FEVER_MULTIPLIER else 1));
        PlayLand].

(** ** The perfect landing as the specification words it *)

(** "... and the actor's cosmetic color is applied to the platform's color
    (the platform takes the actor's color, not the reverse)". *)
Definition perfectLandingPaintsPlatform (random : nat -> Qc) : Prop :=
  forall time s m a s',
    firstLanding random time s m a s' -> perfect m a ->
    perfectStreak s' = (perfectStreak s + 1)%Z
    /\ reports asCombo (trace s')
       = (perfectStreak s + 1)%Z :: reports asCombo (trace s)
    /\ Platform.color (heap s' a) = Player.color (player m).

(** A jump from the base platform in a 400 x 800 window, every random
    draw being 0.5: after 58 frames the actor is about to come down on the
    base platform again. *)
Definition falling : Engine :=
  the (run coin (StartGame :: HandleInput :: frames 58) (constructor 400 800)).

Definition touching : Engine :=
  the (preCollision coin (set_lastTime 0 falling)).

Definition landedBack : Engine := the (loop coin 0 falling).

(** The window shrinks to 400 x 100 while the actor of the same game is in
    the air after its first jump; the next frame ends the game. *)
Definition shrunk : Engine :=
  the (run coin [StartGame; HandleInput; Resize 400 100] (constructor 400 800)).

Definition fallen : Engine := the (loop coin 0 shrunk).

(** ** Platforms in a tick *)

(** What "Update Platforms" makes of one platform: [speedMultiplier] and
    the viewport width are those of the tick. *)
Definition movedPlatform (speedMultiplier viewportWidth : Qc)
  (p : Platform.t) : Platform.t :=
  if Qcneqb (Platform.vx p) 0 then
    let x1 := Platform.x p + Platform.vx p * speedMultiplier in
    if Qcleb x1 0 then
      Platform.set_vx (Platform.vx p * -1) (Platform.set_x 0 p)
    else if Qcleb viewportWidth (x1 + Platform.width p) then
      Platform.set_vx (Platform.vx p * -1)
        (Platform.set_x (viewportWidth - Platform.width p) p)
    else Platform.set_x x1 p
  else p.

(** The actor stands on the platform at [a]. *)
Definition rides (s : Engine) (a : nat) : bool :=
  match Player.currentPlatform (player s) with
  | Some b => Nat.eqb b a
  | None => false
  end.

(** "World Scrolling" is due. *)
Definition scrolls (s : Engine) : bool :=
  Qcltb (Player.y (player s)) (viewportHeight s * 0.6).

(** The engine once the actor is back on the threshold and the platforms
    are moved down. *)
Definition shifted (s : Engine) : Engine :=
  let threshold := viewportHeight s * 0.6 in
  let diff := threshold - Player.y (player s) in
  fold_left
    (fun s a => modify a (fun p => Platform.set_y (Platform.y p + diff) p) s)
    (platforms s)
    (set_player (Player.set_y threshold (player s)) s).

(** Addresses are handed out once, and the array holds each platform
    once. *)
Definition wellFormed (s : Engine) : Prop :=
  NoDup (platforms s)
  /\ forall a, In a (platforms s) -> (a < allocated s)%nat.

(** ** Runs of landings *)

(** [quiet], decided. *)
Definition quietInput (random : nat -> Qc) (i : Input) (s : Engine) : bool :=
  match i with
  | StartGame => false
  | Frame time =>
      match state s with
      | playing =>
          match preCollision random (set_lastTime time s) with
          | Some m =>
              match landing m with
              | Some a => Platform.landedOn (heap m a)
              | None => true
              end
          | None => true
          end
      | _ => true
      end
  | _ => true
  end.

Fixpoint quietRun (random : nat -> Qc) (inputs : list Input) (s : Engine)
  : option Engine :=
  match inputs with
  | [] => Some s
  | i :: inputs' =>
      if quietInput random i s then
        match step random i s with
        | Some s' => quietRun random inputs' s'
        | None => None
        end
      else None
  end.

(** From [s0], where the streak is 0 and fever is off, three perfect first
    landings with nothing but jumps, resizes and frames without a first
    landing around them; the third takes the engine from [s3'] to [s3]. *)
Definition threePerfectLandings (random : nat -> Qc) (s0 s3' s3 : Engine)
  : Prop :=
  exists t1 s1' m1 a1 s1 t2 s2' m2 a2 s2 t3 m3 a3,
    perfectStreak s0 = 0%Z /\ isFever s0 = false
    /\ quietly random s0 s1'
    /\ firstLanding random t1 s1' m1 a1 s1 /\ perfect m1 a1
    /\ quietly random s1 s2'
    /\ firstLanding random t2 s2' m2 a2 s2 /\ perfect m2 a2
    /\ quietly random s2 s3'
    /\ firstLanding random t3 s3' m3 a3 s3 /\ perfect m3 a3.

(** "... the displayed score reported by the score notification equals raw
    score multiplied by the fever multiplier from that third landing onward
    (i.e. already for the score notification emitted for the third landing
    itself)". *)
Definition feverScoreAtThirdLanding (random : nat -> Qc) : Prop :=
  forall s0 s3' s3,
    threePerfectLandings random s0 s3' s3 ->
    isFever s3 = true
    /\ reports asScore (trace s3)
       = (score s3 * FEVER_MULTIPLIER)%Z :: reports asScore (trace s3').

(** "Every outbound notification ... fires only when the corresponding
    value actually changes", for every sequence of operations. *)
Definition notifiesOnChangeOnly (random : nat -> Qc) : Prop :=
  forall w h inputs s,
    run random inputs (constructor w h) = Some s -> firesOnChange (trace s).

(** A climb in a 100 x 4000 window, every random draw being 0.2: the
    spawned platforms are as wide as the window and stay where they are,
    under the actor.  Each leg is a jump, 45 frames in the air and the frame
    of the landing on the next platform. *)
Definition fifth (n : nat) : Qc := 0.2.

Definition leg : list Input := HandleInput :: frames 45.

Definition climb0 : Engine := the (run fifth [StartGame] (constructor 100 4000)).

Definition over1 : Engine := the (run fifth leg climb0).
Definition above1 : Engine := the (preCollision fifth (set_lastTime 0 over1)).
Definition climb1 : Engine := the (loop fifth 0 over1).

Definition over2 : Engine := the (run fifth leg climb1).
Definition above2 : Engine := the (preCollision fifth (set_lastTime 0 over2)).
Definition climb2 : Engine := the (loop fifth 0 over2).

Definition over3 : Engine := the (run fifth leg climb2).
Definition above3 : Engine := the (preCollision fifth (set_lastTime 0 over3)).
Definition climb3 : Engine := the (loop fifth 0 over3).

Definition over4 : Engine := the (run fifth leg climb3).
Definition above4 : Engine := the (preCollision fifth (set_lastTime 0 over4)).
Definition climb4 : Engine := the (loop fifth 0 over4).

(** ** What the callbacks were last told *)

(** What a frame of the playing engine tells the outside: [ld] is [None]
    when no platform is landed on, and otherwise says whether the platform
    had been landed on before and whether the landing is perfect; [fell]
    says that the frame ends the game. *)
Definition frameEvents (ld : option (bool * bool)) (fell : bool)
  (score streak : Z) (fever : bool) : list Event :=
  (if fell then [PlayShatter; GameStateChange gameover] else [])
  ++ match ld with
     | Some (again, perfect) => landingEvents again perfect score streak fever
     | None => []
     end.

(** The state agrees with what each callback was told last, but for the
    displayed score, told before the fever flag changes. *)
Definition consistent (s : Engine) : Prop :=
  (0 <= perfectStreak s <= score s)%Z
  /\ (isFever s = true -> (FEVER_THRESHOLD <= perfectStreak s)%Z)
  /\ (forall v, hd_error (reports asScore (trace s)) = Some v ->
        v = score s \/ (v = (score s * FEVER_MULTIPLIER)%Z /\ (2 <= score s)%Z))
  /\ (forall c, hd_error (reports asCombo (trace s)) = Some c ->
        c = perfectStreak s)
  /\ (forall f, hd_error (reports asFever (trace s)) = Some f -> f = isFever s)
  /\ (forall g, hd_error (reports asPhase (trace s)) = Some g -> g = state s).

(** What one input tells the fever callback, [told], after [old]: nothing
    while the flag stays as it is; false, once, when the flag, on until
    then, goes off, which is not what the callback was told last; true,
    once, in a frame with a perfect first landing that leaves the flag on
    and the streak at [FEVER_THRESHOLD] or beyond. *)
Definition feverTold (random : nat -> Qc) (i : Input) (s s' : Engine)
  (told old : list bool) : Prop :=
  (told = nil /\ isFever s' = isFever s)
  \/ (told = (false :: nil) /\ isFever s = true /\ isFever s' = false
      /\ changesOnly told old)
  \/ (told = (true :: nil) /\ isFever s' = true
      /\ (FEVER_THRESHOLD <= perfectStreak s')%Z
      /\ exists time m a,
           i = Frame time /\ firstLanding random time s m a s'
           /\ perfect m a).

(** The climb up to the frame of the third landing, and that frame. *)
Definition climbToThird : list Input :=
  StartGame :: leg ++ [Frame 0] ++ leg ++ [Frame 0] ++ leg.

Definition beforeThird : Engine :=
  the (run fifth climbToThird (constructor 100 4000)).

Definition afterThird : Engine := the (loop fifth 0 beforeThird).

(** The climb, in one list of inputs. *)
Definition climb : list Input :=
  StartGame :: leg ++ [Frame 0] ++ leg ++ [Frame 0] ++ leg ++ [Frame 0]
            ++ leg ++ [Frame 0].

(** A game of [coin] in a 400 x 800 window that is lost: a jump and a
    second jump in the air take the actor onto the third platform of the
    array, which scores 1; a jump from there misses every platform and the
    actor falls out of the window.  The game is then started again. *)
Definition lostGame : list Input :=
  StartGame :: frames 2 ++ HandleInput :: frames 19 ++ HandleInput
    :: frames 36 ++ HandleInput :: frames 71.

Definition restarted : Engine :=
  the (run coin (lostGame ++ StartGame :: nil) (constructor 400 800)).

(** ** Recycling *)

(** The engine of a frame when it comes to "World Scrolling". *)
Definition beforeScroll (time : Qc) (s : Engine) : Engine :=
  playerUpdate
    (movePlatforms (1 + inject_Z (score s) * 0.05) (set_lastTime time s)).

(** "... whenever the bottom-most platform's y exceeds viewport height plus
    the margin it is removed and exactly one replacement is spawned above
    the current topmost platform", at any frame of a game. *)
Definition recycledWheneverBelow (random : nat -> Qc) : Prop :=
  forall w h inputs s time s' first rest,
    run random inputs (constructor w h) = Some s ->
    state s = playing -> loop random time s = Some s' ->
    platforms s = first :: rest ->
    viewportHeight s + 100 < Platform.y (heap s' first) ->
    platforms s' = rest ++ [allocated s].

(** The window of the first game shrinks to 400 x 570 before the first
    frame: the base platform is below the margin, the actor stands on it
    and nothing scrolls. *)
Definition lowered : Engine :=
  the (run coin [StartGame; Resize 400 570] (constructor 400 800)).

Definition loweredNext : Engine := the (loop coin 0 lowered).

(** ** Velocities *)

(** The magnitude of the horizontal velocity is from 2 to 5: it is
    [2 + Math.random() * 3], which the rounding of the sum can bring to 5
    itself when the random number is just below 1. *)
Definition moving (p : Platform.t) : Prop :=
  2 <= Qcabs (Platform.vx p) /\ Qcabs (Platform.vx p) <= 5.

(** The platform does not move and is 200 wide. *)
Definition stationaryBase (p : Platform.t) : Prop :=
  Platform.vx p = 0 /\ Platform.width p = 200.

(** [q] has the speed and the width of [p], and rests if [p] does. *)
Definition kept (p q : Platform.t) : Prop :=
  Qcabs (Platform.vx q) = Qcabs (Platform.vx p)
  /\ Platform.width q = Platform.width p
  /\ (Platform.vx p = 0 -> Platform.vx q = 0).

(** Only the first platform of the array may be stationary, and then it
    is a base platform. *)
Definition oneStationary (s : Engine) : Prop :=
  match platforms s with
  | [] => True
  | first :: rest =>
      (stationaryBase (heap s first) \/ moving (heap s first))
      /\ Forall (fun a => moving (heap s a)) rest
  end.

(** ** The actor on its platform *)

(** The actor at rest is on a platform of the array, does not fall and
    stands on its top. *)
Definition attached (s : Engine) : Prop :=
  forall a,
    Player.currentPlatform (player s) = Some a ->
    In a (platforms s)
    /\ Player.vy (player s) = 0
    /\ Player.y (player s)
       = Platform.y (heap s a) - Player.height (player s) / 2.

Definition pinned (s : Engine) : Prop :=
  wellFormed s
  /\ Player.height (player s) = PLAYER_SIZE
  /\ 0 <= viewportHeight s
  /\ attached s.

(** ** The ladder of platforms *)

(** Each platform of the list after the first is [PLATFORM_SPACING] above
    the one before it ([y] grows downwards). *)
Fixpoint spaced (h : Heap) (l : list nat) : Prop :=
  match l with
  | [] => True
  | a :: rest =>
      match rest with
      | [] => True
      | b :: _ => Platform.y (h b) = Platform.y (h a) - PLATFORM_SPACING
      end
      /\ spaced h rest
  end.

(** The platform at [b] lies wholly above the platform at [a]: its lower
    edge is above the other's top ([y] grows downwards). *)
Definition liesAbove (h : Heap) (b a : nat) : Prop :=
  Platform.y (h b) + PLATFORM_HEIGHT < Platform.y (h a).

(** ** The actor put on a platform *)

(** The input ends with the actor's [y] as the code assigns it from a
    platform's: a start, or a frame of a playing game in which the actor
    lands or the world is not scrolled.  (A scroll under a standing actor
    moves the actor to the line and the platform by the distance, each by
    an assignment of its own.) *)
Definition settles (i : Input) (s : Engine) : Prop :=
  match i with
  | StartGame => True
  | Frame time =>
      state s = playing
      /\ (Player.currentPlatform (player s) = None
          \/ scrolls (beforeScroll time s) = false)
  | _ => False
  end.

(** ** Counters *)

(** Fever is on exactly from the threshold on, the streak counts some of
    the scored landings, the shake lasts at most 10 frames. *)
Definition counted (s : Engine) : Prop :=
  isFever s = (FEVER_THRESHOLD <=? perfectStreak s)%Z
  /\ (0 <= perfectStreak s <= score s)%Z
  /\ (0 <= shakeTimer s <= 10)%Z.

(** ** The actor *)

(** The actor keeps its size, has no horizontal velocity of its own, has
    jumped at most twice since it last stood, and not at all while it
    stands. *)
Definition nimble (pl : Player.t) : Prop :=
  Player.vx pl = 0
  /\ Player.width pl = PLAYER_SIZE
  /\ Player.height pl = PLAYER_SIZE
  /\ (0 <= Player.jumps pl <= 2)%Z
  /\ (Player.currentPlatform pl <> None -> Player.jumps pl = 0%Z).

(** ** Before the first game *)

(** The engine as the constructor leaves it, but for the window size and
    the time of the last frame. *)
Definition untouched (s : Engine) : Prop :=
  state s = start /\ trace s = nil /\ platforms s = nil
  /\ particles s = nil /\ floatingTexts s = nil
  /\ randomCalls s = 0%nat /\ allocated s = 0%nat
  /\ score s = 0%Z /\ shakeTimer s = 0%Z
  /\ player s = Player.new 0 0.

(** ** Sounds *)

(** A call of one of the four [play] methods of [audioController]. *)
Definition isSound (e : Event) : bool :=
  match e with
  | PlayJump | PlayLand | PlayPerfect | PlayShatter => true
  | _ => false
  end.

(** Every sound of the trace (most recent event first) was asked for after
    a call of [audioController.init]. *)
Fixpoint soundsAfterInit (tr : list Event) : Prop :=
  match tr with
  | [] => True
  | e :: older =>
      (isSound e = true -> In AudioInit older) /\ soundsAfterInit older
  end.

(** ** The platforms as they are made *)

(** The platform [spawnPlatform(y)] makes when [n] random numbers have
    been drawn and the viewport is [viewportWidth] wide. *)
Definition spawned (random : nat -> Qc) (n : nat) (viewportWidth y : Qc)
  : Platform.t :=
  let width := PLATFORM_WIDTH_MIN
               + random n * (PLATFORM_WIDTH_MAX - PLATFORM_WIDTH_MIN) in
  let x := random (1 + n)%nat * (viewportWidth - width) in
  let color :=
    palette (Qcfloor (random (2 + n)%nat
                     * inject_Z (Z.of_nat (List.length PLATFORM_COLORS)))) in
  Platform.set_vx
    ((if Qcltb 0.5 (random (3 + n)%nat) then 1 else -1)
     * (2 + random (4 + n)%nat * 3))
    (Platform.new x y width color).

(** The base platform [resetGame] makes. *)
Definition basePlatform (viewportWidth viewportHeight : Qc) : Platform.t :=
  Platform.new (viewportWidth / 2 - 100) (viewportHeight * 0.8 + 40) 200
    NEON_MAGENTA.

(** What a platform keeps for life: its height of [PLATFORM_HEIGHT], one of
    the four colours of [PLATFORM_COLORS], a width between
    [PLATFORM_WIDTH_MIN] and the 200 of a base platform, and a [passed]
    flag that is never set. *)
Definition shaped (p : Platform.t) : Prop :=
  Platform.height p = PLATFORM_HEIGHT
  /\ In (Platform.color p) PLATFORM_COLORS
  /\ PLATFORM_WIDTH_MIN <= Platform.width p
  /\ Platform.width p <= 200
  /\ Platform.passed p = false.

(** The platform is inside a viewport of that width. *)
Definition inView (viewportWidth : Qc) (p : Platform.t) : Prop :=
  0 <= Platform.x p /\ Platform.x p + Platform.width p <= viewportWidth.

(** ** The actor in the air *)

(** [n] calls of [update()]. *)
Definition updates (h : Heap) (n : nat) (pl : Player.t) : Player.t :=
  Nat.iter n (Player.update h) pl.

(** A count as a number. *)
Definition count (n : nat) : Qc := inject_Z (Z.of_nat n).

(** ** Particles and texts *)

(** A particle that [draw] shows: its [life], which is its opacity, is in
    (0, 1]. *)
Definition alive (p : Particle) : Prop :=
  0 < pt_life p /\ pt_life p <= 1
  /\ pt_maxLife p = 1 /\ pt_type p = confetti.

Definition legible (t : FloatingText) : Prop :=
  0 < ft_life t /\ ft_life t <= 1
  /\ ft_text t = "PERFECT!"%string /\ 1 <= ft_scale t.

Definition cosmeticsOk (s : Engine) : Prop :=
  Forall alive (particles s) /\ Forall legible (floatingTexts s).

(** ** What the audio controller did *)

Definition isNewContext (c : AudioController.Call) : bool :=
  match c with
  | AudioController.NewAudioContext => true
  | _ => false
  end.

Definition isStart (c : AudioController.Call) : bool :=
  match c with
  | AudioController.Start _ _ => true
  | _ => false
  end.

(** The audio contexts made and the sources started in a log. *)
Definition contexts (cs : list AudioController.Call) : nat :=
  List.length (filter isNewContext cs).

Definition starts (cs : list AudioController.Call) : nat :=
  List.length (filter isStart cs).

Definition notSupported : AudioController.Call :=
  AudioController.ConsoleError "AudioContext not supported".

(** The methods that make the audio context when there is none. *)
Definition lazy (m : AudioController.Method) : bool :=
  match m with
  | AudioController.Init | AudioController.Jump _ => true
  | _ => false
  end.

(** The sources a method starts when the controller is ready: one
    oscillator, the four notes of the arpeggio or the burst of noise. *)
Definition sources (m : AudioController.Method) : nat :=
  match m with
  | AudioController.Init => 0
  | AudioController.Perfect _ => 4
  | _ => 1
  end.

(** A call the Web Audio API accepts: an exponential ramp goes to a
    positive value, a stored sample is from -1 to 1. *)
Definition wellScheduled (c : AudioController.Call) : Prop :=
  match c with
  | AudioController.ExponentialRampToValueAtTime _ value _ => 0 < value
  | AudioController.SetSample _ _ value => -1 <= value /\ value <= 1
  | _ => True
  end.

(** Every oscillator made in the log is told when to stop. *)
Definition oscillatorsStop (cs : list AudioController.Call) : Prop :=
  forall n,
    In (AudioController.CreateOscillator n) cs ->
    exists when, In (AudioController.Stop n when) cs.

(** The fields agree: the context and the master gain are there exactly
    when the controller is initialised. *)
Definition tidy (a : AudioController.t) : Prop :=
  if AudioController.initialized a
  then AudioController.ctx a = true
       /\ exists g, AudioController.masterGain a = Some g
  else AudioController.ctx a = false
       /\ AudioController.masterGain a = None.

(** ** The engine and the audio controller *)

(** The method of [audioController] an event of the trace is a call of,
    [now] being the time of the audio context at the call. *)
Definition soundOf (now : Qc) (e : Event) : option AudioController.Method :=
  match e with
  | AudioInit => Some AudioController.Init
  | PlayJump => Some (AudioController.Jump now)
  | PlayLand => Some (AudioController.Land now)
  | PlayPerfect => Some (AudioController.Perfect now)
  | PlayShatter => Some (AudioController.Shatter now)
  | _ => None
  end.

(** The controller after the calls of a trace (most recent event first);
    [clock k] is the time of the audio context at the [k]-th event. *)
Fixpoint heard (supported : bool) (sampleRate : Qc) (noise : nat -> Qc)
  (clock : nat -> Qc) (tr : list Event) : AudioController.t :=
  match tr with
  | [] => AudioController.new
  | e :: older =>
      let a := heard supported sampleRate noise clock older in
      match soundOf (clock (List.length older)) e with
      | Some m => AudioController.invoke supported sampleRate noise m a
      | None => a
      end
  end.

(** The sources the sounds of a trace ask for. *)
Fixpoint voices (tr : list Event) : nat :=
  match tr with
  | [] => 0
  | e :: older =>
      match soundOf 0 e with
      | Some m => sources m
      | None => 0
      end + voices older
  end.

(** ** More of the concrete game *)

(** The game of [coin] just started, and after its first frame. *)
Definition begun : Engine := the (run coin [StartGame] (constructor 400 800)).

Definition next : Engine := the (loop coin 0 begun).

(** The actor has jumped: five particles fly. *)
Definition jumped : Engine :=
  the (run coin [StartGame; HandleInput] (constructor 400 800)).

(** Seventeen frames into the first jump the actor is about to pass the
    line at 0.6 of the viewport height. *)
Definition rising : Engine :=
  the (run coin (StartGame :: HandleInput :: frames 17) (constructor 400 800)).

Definition scrolled : Engine :=
  the (worldScroll coin (beforeScroll 0 rising)).

(** Inputs and frames before any game. *)
Definition waiting : Engine :=
  the (run coin [Frame 0; HandleInput; Resize 300 500] (constructor 400 800)).

(** ** A burst of particles *)

(** A particle as [createParticles(x, y, count, color)] makes it: at
    ([x], [y]), of that colour, with a full life, thrown upwards. *)
Definition thrown (x y : Qc) (color : Color) (p : Particle) : Prop :=
  pt_x p = x /\ pt_y p = y /\ pt_color p = color
  /\ pt_life p = 1 /\ pt_maxLife p = 1 /\ pt_type p = confetti
  /\ -5 <= pt_vx p /\ pt_vx p < 5
  /\ -10 <= pt_vy p /\ pt_vy p < 0
  /\ 2 <= pt_size p /\ pt_size p < 8.

(** * Properties *)

#[local] Arguments Qcplus : simpl never.
#[local] Arguments Qcmult : simpl never.
#[local] Arguments Qcminus : simpl never.
#[local] Arguments Qcopp : simpl never.
#[local] Arguments Qcdiv : simpl never.
#[local] Arguments Qcinv : simpl never.
#[local] Arguments Q2Qc : simpl never.
#[local] Arguments Qcabs : simpl never.

(** ** Comparisons and linear arithmetic in [Qc] *)

Lemma Qcltb_lt (a b : Qc) : Qcltb a b = true <-> a < b.
Proof.
  unfold Qcltb, Qclt. rewrite negb_true_iff. split; intro H.
  - apply Qnot_le_lt. intro H1. apply Qle_bool_iff in H1. congruence.
  - destruct (Qle_bool b a) eqn:E; auto.
    apply Qle_bool_iff in E. apply Qle_not_lt in E. contradiction.
Qed.

Lemma Qcltb_nlt (a b : Qc) : Qcltb a b = false <-> b <= a.
Proof.
  unfold Qcltb, Qcle. rewrite negb_false_iff. apply Qle_bool_iff.
Qed.

Lemma Qcleb_le (a b : Qc) : Qcleb a b = true <-> a <= b.
Proof. unfold Qcleb, Qcle. apply Qle_bool_iff. Qed.

Lemma Qcleb_nle (a b : Qc) : Qcleb a b = false <-> b < a.
Proof.
  rewrite <- Qcltb_lt. unfold Qcltb, Qcleb.
  destruct (Qle_bool a b); simpl; intuition congruence.
Qed.

Lemma Qcneqb_neq (a b : Qc) : Qcneqb a b = true <-> a <> b.
Proof.
  unfold Qcneqb. rewrite negb_true_iff. split; intro H.
  - intro E. subst b.
    rewrite (proj2 (Qeq_bool_iff a a)) in H by reflexivity. discriminate.
  - destruct (Qeq_bool a b) eqn:E; auto.
    apply Qeq_bool_iff in E. apply Qc_is_canon in E. contradiction.
Qed.

Lemma Qcneqb_eq (a b : Qc) : Qcneqb a b = false <-> a = b.
Proof.
  unfold Qcneqb. rewrite negb_false_iff. split; intro H.
  - apply Qeq_bool_iff in H. apply Qc_is_canon; assumption.
  - subst. apply Qeq_bool_iff. reflexivity.
Qed.

Lemma this_add (a b : Qc) : (this (a + b) == this a + this b)%Q.
Proof. unfold Qcplus, Q2Qc. cbn [this]. apply Qred_correct. Qed.

Lemma this_mul (a b : Qc) : (this (a * b) == this a * this b)%Q.
Proof. unfold Qcmult, Q2Qc. cbn [this]. apply Qred_correct. Qed.

Lemma this_opp (a : Qc) : (this (- a) == - this a)%Q.
Proof. unfold Qcopp, Q2Qc. cbn [this]. apply Qred_correct. Qed.

Lemma this_sub (a b : Qc) : (this (a - b) == this a - this b)%Q.
Proof. unfold Qcminus. rewrite this_add, this_opp. reflexivity. Qed.

Lemma this_Q2Qc (q : Q) : (this (Q2Qc q) == q)%Q.
Proof. apply Qred_correct. Qed.

Lemma this_div (a b : Qc) : (this (a / b) == this a / this b)%Q.
Proof. unfold Qcdiv, Qcinv. rewrite this_mul, this_Q2Qc. reflexivity. Qed.

Lemma Qdiv_2 (a : Q) : (a / 2 == a * (1 # 2))%Q.
Proof. reflexivity. Qed.

Lemma Qdiv_4 (a : Q) : (a / 4 == a * (1 # 4))%Q.
Proof. reflexivity. Qed.

Lemma Qc_eq_this (a b : Qc) : a = b <-> (this a == this b)%Q.
Proof.
  split; intro H; [subst; reflexivity | apply Qc_is_canon; assumption].
Qed.

(** From the boolean tests of the code to propositions. *)
Ltac qc_prop :=
  repeat match goal with
  | H : Qcltb _ _ = true |- _ => apply Qcltb_lt in H
  | H : Qcltb _ _ = false |- _ => apply Qcltb_nlt in H
  | H : Qcleb _ _ = true |- _ => apply Qcleb_le in H
  | H : Qcleb _ _ = false |- _ => apply Qcleb_nle in H
  | H : Qcneqb _ _ = true |- _ => apply Qcneqb_neq in H
  | H : Qcneqb _ _ = false |- _ => apply Qcneqb_eq in H
  | |- Qcltb _ _ = true => apply Qcltb_lt
  | |- Qcltb _ _ = false => apply Qcltb_nlt
  | |- Qcleb _ _ = true => apply Qcleb_le
  | |- Qcleb _ _ = false => apply Qcleb_nle
  | |- Qcneqb _ _ = true => apply Qcneqb_neq
  | |- Qcneqb _ _ = false => apply Qcneqb_eq
  end.

Ltac qc_push_in H :=
  first [ rewrite this_add in H | rewrite this_sub in H | rewrite this_mul in H
        | rewrite this_opp in H | rewrite this_div in H | rewrite this_Q2Qc in H
        | rewrite Qdiv_2 in H | rewrite Qdiv_4 in H ].

Ltac qc_push_goal :=
  first [ rewrite this_add | rewrite this_sub | rewrite this_mul
        | rewrite this_opp | rewrite this_div | rewrite this_Q2Qc
        | rewrite Qdiv_2 | rewrite Qdiv_4 ].

(** Linear arithmetic over [Qc], through [Q]. *)
Ltac qc_lra :=
  qc_prop;
  repeat match goal with
  | H : @eq Qc _ _ |- _ => apply Qc_eq_this in H
  | H : ~ @eq Qc _ _ |- _ => rewrite Qc_eq_this in H
  | |- @eq Qc _ _ => apply Qc_eq_this
  | |- ~ @eq Qc _ _ => rewrite Qc_eq_this
  end;
  unfold Qclt, Qcle in *;
  repeat match goal with
  | H : (_ == _)%Q |- _ => qc_push_in H
  | H : (_ < _)%Q |- _ => qc_push_in H
  | H : (_ <= _)%Q |- _ => qc_push_in H
  | H : ~ (_ == _)%Q |- _ => qc_push_in H
  end;
  repeat qc_push_goal;
  lra.

(** A closed comparison. *)
Ltac qc_compute :=
  qc_prop; unfold Qclt, Qcle; vm_compute; congruence.

(** ** Reading the state through the operations *)

(** Projections and assignments compute; arithmetic, the store and the
    loops stay folded. *)
Ltac eng :=
  cbn [player heap allocated platforms particles floatingTexts state score
       gameSpeed shakeTimer perfectStreak isFever viewportWidth
       viewportHeight lastTime randomCalls trace
       set_player set_heap set_allocated set_platforms set_particles
       set_floatingTexts set_state set_score set_gameSpeed set_shakeTimer
       set_perfectStreak set_isFever set_viewportWidth set_viewportHeight
       set_lastTime set_randomCalls set_trace emit modify
       playerJump playerLand resize
       Player.x Player.y Player.vx Player.vy Player.width Player.height
       Player.color Player.jumps Player.currentPlatform
       Player.set_x Player.set_y Player.set_vx Player.set_vy
       Player.set_width Player.set_height Player.set_color Player.set_jumps
       Player.set_currentPlatform Player.jump Player.land Player.new
       Platform.x Platform.y Platform.width Platform.height Platform.color
       Platform.vx Platform.passed Platform.landedOn
       Platform.set_x Platform.set_y Platform.set_width Platform.set_height
       Platform.set_color Platform.set_vx Platform.set_passed
       Platform.set_landedOn Platform.new] in *.

Lemma store_same (a : nat) (p : Platform.t) (h : Heap) : store a p h a = p.
Proof. unfold store. rewrite Nat.eqb_refl. reflexivity. Qed.

Lemma store_other (a b : nat) (p : Platform.t) (h : Heap) :
  b <> a -> store a p h b = h b.
Proof.
  intro H. unfold store. apply Nat.eqb_neq in H. rewrite H. reflexivity.
Qed.

Section Properties.

Variable random : nat -> Qc.

(** [createParticles] only touches [particles] and [randomCalls]. *)
Lemma createParticles_frame (A : Type) (f : Engine -> A) :
  (forall v s, f (set_particles v s) = f s) ->
  (forall v s, f (set_randomCalls v s) = f s) ->
  forall x y count color s,
    f (createParticles random x y count color s) = f s.
Proof.
  intros Hp Hr x y count color.
  induction count as [|count IH]; intro s; simpl.
  - reflexivity.
  - rewrite IH, Hr, Hp. reflexivity.
Qed.

Ltac confetti :=
  repeat match goal with
  | |- context [?f (createParticles ?r ?x ?y ?n ?c ?s)] =>
      rewrite (createParticles_frame _ f) by reflexivity
  | H : context [?f (createParticles ?r ?x ?y ?n ?c ?s)] |- _ =>
      rewrite (createParticles_frame _ f) in H by reflexivity
  end.

Lemma GameState_playing_dec (st : GameState) : {st = playing} + {st <> playing}.
Proof. destruct st; [right|left|right]; congruence. Defined.

(** *** The stages of a frame *)

Lemma loop_playing (time : Qc) (s : Engine) :
  state s = playing ->
  loop random time s
  = match preCollision random (set_lastTime time s) with
    | None => None
    | Some m => Some (finish random (collisionDetection random m))
    end.
Proof.
  intro H. unfold loop, update, finish. eng. rewrite H.
  destruct (preCollision random (set_lastTime time s)); reflexivity.
Qed.

Lemma loop_idle (time : Qc) (s : Engine) :
  state s <> playing -> loop random time s = Some (draw (set_lastTime time s)).
Proof.
  intro H. unfold loop. eng. destruct (state s); congruence.
Qed.

Lemma collisionDetection_landing (m : Engine) :
  collisionDetection random m
  = match landing m with
    | Some a => landed random a m
    | None => m
    end.
Proof.
  unfold collisionDetection, landing.
  destruct (Qcltb 0 (Player.vy (player m))
            && match Player.currentPlatform (player m) with
               | None => true
               | Some _ => false
               end); reflexivity.
Qed.

Lemma landing_spec (m : Engine) (a : nat) :
  landing m = Some a ->
  In a (platforms m) /\ hits m a = true
  /\ 0 < Player.vy (player m) /\ Player.currentPlatform (player m) = None.
Proof.
  unfold landing. intro H.
  destruct (Qcltb 0 (Player.vy (player m))) eqn:Hv; [|discriminate].
  destruct (Player.currentPlatform (player m)); [discriminate|].
  cbn [andb] in H. apply find_some in H. destruct H as [Hin Hh].
  qc_prop. auto.
Qed.

(** What each stage leaves alone: [f] is any observation that does not
    depend on the fields the stage assigns. *)
Lemma draw_frame (A : Type) (f : Engine -> A) :
  (forall v s, f (set_randomCalls v s) = f s) ->
  forall m, f (draw m) = f m.
Proof.
  intros Hr m. unfold draw.
  destruct (0 <? shakeTimer m)%Z; [rewrite Hr|]; reflexivity.
Qed.

Lemma updateCosmetics_frame (A : Type) (f : Engine -> A) :
  (forall v s, f (set_particles v s) = f s) ->
  (forall v s, f (set_floatingTexts v s) = f s) ->
  (forall v s, f (set_shakeTimer v s) = f s) ->
  forall m, f (updateCosmetics m) = f m.
Proof.
  intros Hp Ht Hk m. unfold updateCosmetics. cbv zeta.
  match goal with
  | |- context [if ?c then _ else _] => destruct c
  end; rewrite ?Hk, Ht, Hp; reflexivity.
Qed.

Lemma gameOver_frame (A : Type) (f : Engine -> A) :
  (forall v s, f (set_particles v s) = f s) ->
  (forall v s, f (set_randomCalls v s) = f s) ->
  (forall v s, f (set_state v s) = f s) ->
  (forall v s, f (set_trace v s) = f s) ->
  forall m, f (gameOver random m) = f m.
Proof.
  intros Hp Hr Hs He m. unfold gameOver, emit. cbv zeta.
  rewrite createParticles_frame by assumption.
  rewrite He, He, Hs. reflexivity.
Qed.

Lemma fallOff_frame (A : Type) (f : Engine -> A) :
  (forall v s, f (set_particles v s) = f s) ->
  (forall v s, f (set_randomCalls v s) = f s) ->
  (forall v s, f (set_state v s) = f s) ->
  (forall v s, f (set_trace v s) = f s) ->
  forall m, f (fallOff random m) = f m.
Proof.
  intros Hp Hr Hs He m. unfold fallOff.
  destruct (Qcltb (viewportHeight m + 100) (Player.y (player m)));
    [apply gameOver_frame; assumption | reflexivity].
Qed.

Lemma finish_frame (A : Type) (f : Engine -> A) :
  (forall v s, f (set_particles v s) = f s) ->
  (forall v s, f (set_randomCalls v s) = f s) ->
  (forall v s, f (set_floatingTexts v s) = f s) ->
  (forall v s, f (set_shakeTimer v s) = f s) ->
  (forall v s, f (set_state v s) = f s) ->
  (forall v s, f (set_trace v s) = f s) ->
  forall m, f (finish random m) = f m.
Proof.
  intros Hp Hr Ht Hk Hs He m. unfold finish.
  rewrite draw_frame, updateCosmetics_frame, fallOff_frame by assumption.
  reflexivity.
Qed.

Lemma finish_state (m : Engine) :
  state (finish random m)
  = if Qcltb (viewportHeight m + 100) (Player.y (player m))
    then gameover else state m.
Proof.
  unfold finish.
  rewrite draw_frame, updateCosmetics_frame by reflexivity.
  unfold fallOff, gameOver.
  destruct (Qcltb (viewportHeight m + 100) (Player.y (player m)));
    [cbv zeta; rewrite createParticles_frame by reflexivity|]; reflexivity.
Qed.

Lemma finish_trace (m : Engine) :
  trace (finish random m)
  = if Qcltb (viewportHeight m + 100) (Player.y (player m))
    then PlayShatter :: GameStateChange gameover :: trace m else trace m.
Proof.
  unfold finish.
  rewrite draw_frame, updateCosmetics_frame by reflexivity.
  unfold fallOff, gameOver.
  destruct (Qcltb (viewportHeight m + 100) (Player.y (player m)));
    [cbv zeta; rewrite createParticles_frame by reflexivity|]; reflexivity.
Qed.

Lemma triggerPerfect_frame (A : Type) (f : Engine -> A) :
  (forall v s, f (set_player v s) = f s) ->
  (forall v s, f (set_particles v s) = f s) ->
  (forall v s, f (set_floatingTexts v s) = f s) ->
  (forall v s, f (set_shakeTimer v s) = f s) ->
  (forall v s, f (set_perfectStreak v s) = f s) ->
  (forall v s, f (set_isFever v s) = f s) ->
  (forall v s, f (set_randomCalls v s) = f s) ->
  (forall v s, f (set_trace v s) = f s) ->
  forall a m, f (triggerPerfect random a m) = f m.
Proof.
  intros Hpl Hp Ht Hk Hc Hf Hr He a m. unfold triggerPerfect, emit. cbv zeta.
  match goal with
  | |- context [if ?c then _ else _] => destruct c
  end;
  repeat first [ rewrite He | rewrite Hf | rewrite Ht | rewrite Hk
               | rewrite Hpl | rewrite Hc
               | rewrite createParticles_frame by assumption ];
  reflexivity.
Qed.

Lemma landed_frame (A : Type) (f : Engine -> A) :
  (forall v s, f (set_player v s) = f s) ->
  (forall v s, f (set_heap v s) = f s) ->
  (forall v s, f (set_particles v s) = f s) ->
  (forall v s, f (set_floatingTexts v s) = f s) ->
  (forall v s, f (set_score v s) = f s) ->
  (forall v s, f (set_shakeTimer v s) = f s) ->
  (forall v s, f (set_perfectStreak v s) = f s) ->
  (forall v s, f (set_isFever v s) = f s) ->
  (forall v s, f (set_randomCalls v s) = f s) ->
  (forall v s, f (set_trace v s) = f s) ->
  forall a m, f (landed random a m) = f m.
Proof.
  intros Hpl Hh Hp Ht Hs Hk Hc Hf Hr He a m.
  unfold landed, playerLand, modify, emit. cbv zeta.
  repeat match goal with
  | |- context [if ?c then _ else _] => destruct c
  end;
  rewrite ?triggerPerfect_frame by assumption;
  repeat first [ rewrite He | rewrite Hf | rewrite Hs | rewrite Hh
               | rewrite Hpl | rewrite Hc ];
  reflexivity.
Qed.

Lemma collisionDetection_frame (A : Type) (f : Engine -> A) :
  (forall v s, f (set_player v s) = f s) ->
  (forall v s, f (set_heap v s) = f s) ->
  (forall v s, f (set_particles v s) = f s) ->
  (forall v s, f (set_floatingTexts v s) = f s) ->
  (forall v s, f (set_score v s) = f s) ->
  (forall v s, f (set_shakeTimer v s) = f s) ->
  (forall v s, f (set_perfectStreak v s) = f s) ->
  (forall v s, f (set_isFever v s) = f s) ->
  (forall v s, f (set_randomCalls v s) = f s) ->
  (forall v s, f (set_trace v s) = f s) ->
  forall m, f (collisionDetection random m) = f m.
Proof.
  intros. rewrite collisionDetection_landing.
  destruct (landing m); [apply landed_frame; assumption | reflexivity].
Qed.

Lemma movePlatform_frame (A : Type) (f : Engine -> A) :
  (forall v s, f (set_player v s) = f s) ->
  (forall v s, f (set_heap v s) = f s) ->
  forall sm s a, f (movePlatform sm s a) = f s.
Proof.
  intros Hpl Hh sm s a. unfold movePlatform, modify. cbv zeta.
  repeat match goal with
  | |- context [if ?c then _ else _] => destruct c
  | |- context [match ?c with Some _ => _ | None => _ end] => destruct c
  end;
  repeat first [ rewrite Hh | rewrite Hpl ]; reflexivity.
Qed.

Lemma movePlatforms_frame (A : Type) (f : Engine -> A) :
  (forall v s, f (set_player v s) = f s) ->
  (forall v s, f (set_heap v s) = f s) ->
  forall sm s, f (movePlatforms sm s) = f s.
Proof.
  intros Hpl Hh sm s. unfold movePlatforms.
  generalize (platforms s) as l. intro l. revert s.
  induction l as [|a l IH]; intro s; cbn [fold_left].
  - reflexivity.
  - rewrite IH. apply movePlatform_frame; assumption.
Qed.

Lemma spawnPlatform_frame (A : Type) (f : Engine -> A) :
  (forall v s, f (set_heap v s) = f s) ->
  (forall v s, f (set_platforms v s) = f s) ->
  (forall v s, f (set_allocated v s) = f s) ->
  (forall v s, f (set_randomCalls v s) = f s) ->
  forall y s, f (spawnPlatform random y s) = f s.
Proof.
  intros Hh Hl Ha Hr y s. unfold spawnPlatform. cbv zeta.
  rewrite Hl, Ha, Hh, Hr. reflexivity.
Qed.

Lemma scroll_frame (A : Type) (f : Engine -> A) :
  (forall v s, f (set_heap v s) = f s) ->
  forall (g : Platform.t -> Platform.t) l s,
    f (fold_left (fun s a => modify a g s) l s) = f s.
Proof.
  intros Hh g l. induction l as [|a l IH]; intro s; cbn [fold_left].
  - reflexivity.
  - rewrite IH. unfold modify. apply Hh.
Qed.

Lemma worldScroll_frame (A : Type) (f : Engine -> A) :
  (forall v s, f (set_player v s) = f s) ->
  (forall v s, f (set_heap v s) = f s) ->
  (forall v s, f (set_platforms v s) = f s) ->
  (forall v s, f (set_allocated v s) = f s) ->
  (forall v s, f (set_randomCalls v s) = f s) ->
  forall s m, worldScroll random s = Some m -> f m = f s.
Proof.
  intros Hpl Hh Hl Ha Hr s m. unfold worldScroll. cbv zeta.
  destruct (Qcltb (Player.y (player s)) (viewportHeight s * 0.6));
    [|intro E; injection E as <-; reflexivity].
  match goal with
  | |- match platforms ?s0 with _ => _ end = _ -> _ =>
      assert (Hs1 : f s0 = f s) by (rewrite scroll_frame, Hpl by assumption;
                                    reflexivity);
      generalize dependent s0
  end.
  intros s1 Hs1.
  destruct (platforms s1) as [|first rest]; [discriminate|].
  destruct (Qcltb (viewportHeight s1 + 100) (Platform.y (heap s1 first))).
  - cbn [platforms set_platforms].
    destruct (rev rest) as [|lastP ?]; [discriminate|].
    intro E; injection E as <-.
    rewrite spawnPlatform_frame, Hl by assumption. exact Hs1.
  - intro E; injection E as <-. exact Hs1.
Qed.

Lemma preCollision_frame (A : Type) (f : Engine -> A) :
  (forall v s, f (set_player v s) = f s) ->
  (forall v s, f (set_heap v s) = f s) ->
  (forall v s, f (set_platforms v s) = f s) ->
  (forall v s, f (set_allocated v s) = f s) ->
  (forall v s, f (set_randomCalls v s) = f s) ->
  forall s m, preCollision random s = Some m -> f m = f s.
Proof.
  intros Hpl Hh Hl Ha Hr s m. unfold preCollision. cbv zeta. intro E.
  rewrite (worldScroll_frame _ f Hpl Hh Hl Ha Hr _ _ E).
  unfold playerUpdate. rewrite Hpl.
  apply movePlatforms_frame; assumption.
Qed.

(** *** Landing *)

Lemma reports_app (A : Type) (channel : Event -> option A) (l1 l2 : list Event) :
  reports channel (l1 ++ l2) = reports channel l1 ++ reports channel l2.
Proof.
  induction l1 as [|e l1 IH]; cbn [reports app]; [reflexivity|].
  destruct (channel e); rewrite IH; reflexivity.
Qed.

Lemma landed_scoring (a : nat) (m : Engine) :
  trace (landed random a m)
  = landingEvents (Platform.landedOn (heap m a))
      (Qcltb (dist m a) PERFECT_TOLERANCE)
      (score m) (perfectStreak m) (isFever m) ++ trace m
  /\ score (landed random a m)
     = (if Platform.landedOn (heap m a) then score m else score m + 1)%Z
  /\ perfectStreak (landed random a m)
     = (if Platform.landedOn (heap m a) then perfectStreak m
        else if Qcltb (dist m a) PERFECT_TOLERANCE then perfectStreak m + 1
        else if 0 <? perfectStreak m then 0 else perfectStreak m)%Z
  /\ isFever (landed random a m)
     = (if Platform.landedOn (heap m a) then isFever m
        else if Qcltb (dist m a) PERFECT_TOLERANCE
        then (if (FEVER_THRESHOLD <=? perfectStreak m + 1)%Z
              then true else isFever m)
        else false).
Proof.
  unfold landed, landingEvents. cbv zeta. eng.
  destruct (Platform.landedOn (heap m a)) eqn:Hl; cbn [negb]; eng.
  - cbn [app]; repeat apply conj; reflexivity.
  - match goal with
    | |- context [Qcltb (dist ?s1 a) _] =>
        replace (dist s1 a) with (dist m a)
          by (unfold dist; eng; rewrite store_same; eng; reflexivity)
    end.
    destruct (Qcltb (dist m a) PERFECT_TOLERANCE).
    + unfold triggerPerfect. cbv zeta. eng. confetti. eng.
      destruct (FEVER_THRESHOLD <=? perfectStreak m + 1)%Z; eng; confetti;
        eng; cbn [app]; repeat apply conj; reflexivity.
    + destruct (0 <? perfectStreak m)%Z; eng;
        destruct (isFever m) eqn:Hf; eng; rewrite ?Hf;
        cbn [app]; repeat apply conj; reflexivity.
Qed.

(** *** Platforms and actor through "Update Platforms" *)

Lemma movePlatform_heap sm s a b :
  heap (movePlatform sm s a) b
  = if Nat.eqb b a
    then movedPlatform sm (viewportWidth s) (heap s a)
    else heap s b.
Proof.
  unfold movePlatform, movedPlatform. cbv zeta.
  destruct (Qcneqb (Platform.vx (heap s a)) 0).
  - eng. destruct (Player.currentPlatform (player s)) as [c|];
      [destruct (Nat.eqb c a)|]; eng; rewrite ?store_same; eng;
      repeat match goal with
      | |- context [if Qcleb ?u ?v then _ else _] => destruct (Qcleb u v)
      end; eng; rewrite ?store_same; unfold store;
      destruct (Nat.eqb b a); reflexivity.
  - destruct (Nat.eqb b a) eqn:E; [|reflexivity].
    apply Nat.eqb_eq in E. subst b. reflexivity.
Qed.

Lemma movePlatform_player sm s a :
  player (movePlatform sm s a)
  = if Qcneqb (Platform.vx (heap s a)) 0 && rides s a
    then Player.set_x
           (Player.x (player s) + Platform.vx (heap s a) * sm) (player s)
    else player s.
Proof.
  unfold movePlatform, rides. cbv zeta.
  destruct (Qcneqb (Platform.vx (heap s a)) 0); cbn [andb]; [|reflexivity].
  eng. destruct (Player.currentPlatform (player s)) as [c|];
    [destruct (Nat.eqb c a)|]; eng; rewrite ?store_same; eng;
    repeat match goal with
    | |- context [if Qcleb ?u ?v then _ else _] => destruct (Qcleb u v)
    end; reflexivity.
Qed.

(** What holds of every step of a platform holds of the whole loop. *)
Lemma movePlatforms_heap_rel (R : Platform.t -> Platform.t -> Prop) :
  (forall p, R p p) ->
  (forall p q r, R p q -> R q r -> R p r) ->
  (forall sm vw p, R p (movedPlatform sm vw p)) ->
  forall sm s b, R (heap s b) (heap (movePlatforms sm s) b).
Proof.
  intros Hrefl Htrans Hstep sm s b. unfold movePlatforms.
  generalize (platforms s) as l. intro l. revert s.
  induction l as [|a l IH]; intro s; cbn [fold_left].
  - apply Hrefl.
  - eapply Htrans; [|apply IH].
    rewrite movePlatform_heap.
    destruct (Nat.eqb b a) eqn:E; [|apply Hrefl].
    apply Nat.eqb_eq in E. subst b. apply Hstep.
Qed.

Lemma movePlatforms_player_rel (R : Player.t -> Player.t -> Prop) :
  (forall p, R p p) ->
  (forall p q r, R p q -> R q r -> R p r) ->
  (forall v p, R p (Player.set_x v p)) ->
  forall sm s, R (player s) (player (movePlatforms sm s)).
Proof.
  intros Hrefl Htrans Hstep sm s. unfold movePlatforms.
  generalize (platforms s) as l. intro l. revert s.
  induction l as [|a l IH]; intro s; cbn [fold_left].
  - apply Hrefl.
  - eapply Htrans; [|apply IH].
    rewrite movePlatform_player.
    destruct (_ && _); [apply Hstep | apply Hrefl].
Qed.

(** The same for the loop of "World Scrolling". *)
Lemma scroll_heap_rel (R : Platform.t -> Platform.t -> Prop)
  (g : Platform.t -> Platform.t) :
  (forall p, R p p) ->
  (forall p q r, R p q -> R q r -> R p r) ->
  (forall p, R p (g p)) ->
  forall l s b,
    R (heap s b) (heap (fold_left (fun s a => modify a g s) l s) b).
Proof.
  intros Hrefl Htrans Hstep l.
  induction l as [|a l IH]; intros s b; cbn [fold_left].
  - apply Hrefl.
  - eapply Htrans; [|apply IH].
    unfold modify. eng. unfold store.
    destruct (Nat.eqb b a) eqn:E; [|apply Hrefl].
    apply Nat.eqb_eq in E. subst b. apply Hstep.
Qed.

(** What the loops leave alone in every platform: [obs] is any
    observation of a platform that does not depend on the fields the loop
    assigns. *)
Lemma movePlatforms_heap_obs (A : Type) (obs : Platform.t -> A) :
  (forall v p, obs (Platform.set_x v p) = obs p) ->
  (forall v p, obs (Platform.set_vx v p) = obs p) ->
  forall sm s b, obs (heap (movePlatforms sm s) b) = obs (heap s b).
Proof.
  intros Hx Hv sm s b.
  apply (movePlatforms_heap_rel (fun p q => obs q = obs p)).
  - reflexivity.
  - intros p q r H1 H2. congruence.
  - intros sm' vw p. unfold movedPlatform. cbv zeta.
    repeat match goal with
    | |- context [if ?c then _ else _] => destruct c
    end; rewrite ?Hv, ?Hx; reflexivity.
Qed.

Lemma shifted_heap_obs (A : Type) (obs : Platform.t -> A) :
  (forall v p, obs (Platform.set_y v p) = obs p) ->
  forall s b, obs (heap (shifted s) b) = obs (heap s b).
Proof.
  intros Hy s b. unfold shifted. cbv zeta.
  match goal with
  | |- obs (heap (fold_left ?F ?l ?s0) b) = _ =>
      change (obs (heap s b)) with (obs (heap s0 b))
  end.
  apply (scroll_heap_rel (fun p q => obs q = obs p)).
  - reflexivity.
  - intros p q r H1 H2. congruence.
  - intro p. apply Hy.
Qed.

Lemma shifted_frame (A : Type) (f : Engine -> A) :
  (forall v s, f (set_player v s) = f s) ->
  (forall v s, f (set_heap v s) = f s) ->
  forall s, f (shifted s) = f s.
Proof.
  intros Hpl Hh s. unfold shifted. cbv zeta.
  rewrite scroll_frame by assumption. apply Hpl.
Qed.

Lemma spawnPlatform_heap_old y s b :
  (b < allocated s)%nat -> heap (spawnPlatform random y s) b = heap s b.
Proof.
  intro H. unfold spawnPlatform. cbv zeta. eng.
  apply store_other. lia.
Qed.

Lemma worldScroll_unfold s :
  worldScroll random s
  = if scrolls s then
      match platforms (shifted s) with
      | [] => None
      | first :: rest =>
          if Qcltb (viewportHeight (shifted s) + 100)
               (Platform.y (heap (shifted s) first))
          then
            match rev rest with
            | [] => None
            | lastP :: _ =>
                Some (spawnPlatform random
                        (Platform.y (heap (shifted s) lastP)
                         - PLATFORM_SPACING)
                        (set_platforms rest (shifted s)))
            end
          else Some (shifted s)
      end
    else Some s.
Proof. reflexivity. Qed.

(** The cases of "World Scrolling". *)
Lemma worldScroll_cases s m :
  worldScroll random s = Some m ->
  (scrolls s = false /\ m = s)
  \/ (scrolls s = true
      /\ exists first rest,
           platforms s = first :: rest
           /\ ((Qcltb (viewportHeight s + 100)
                  (Platform.y (heap (shifted s) first)) = false
                /\ m = shifted s)
               \/ (Qcltb (viewportHeight s + 100)
                     (Platform.y (heap (shifted s) first)) = true
                   /\ exists lastP front,
                        rest = front ++ [lastP]
                        /\ m = spawnPlatform random
                                 (Platform.y (heap (shifted s) lastP)
                                  - PLATFORM_SPACING)
                                 (set_platforms rest (shifted s))))).
Proof.
  rewrite worldScroll_unfold.
  destruct (scrolls s); [|intro E; injection E as <-; left; auto].
  intro E. right. split; [reflexivity|].
  rewrite (shifted_frame _ (fun s => platforms s)) in E by reflexivity.
  destruct (platforms s) as [|first rest]; [discriminate|].
  exists first, rest. split; [reflexivity|].
  rewrite (shifted_frame _ (fun s => viewportHeight s)) in E by reflexivity.
  destruct (Qcltb (viewportHeight s + 100)
              (Platform.y (heap (shifted s) first))).
  - right. split; [reflexivity|]. eng.
    destruct (rev rest) as [|lastP front] eqn:Hrev; [discriminate|].
    injection E as <-. exists lastP, (rev front). split; [|reflexivity].
    rewrite <- (rev_involutive rest), Hrev. reflexivity.
  - left. injection E as <-. auto.
Qed.

Lemma worldScroll_heap_obs (A : Type) (obs : Platform.t -> A) :
  (forall v p, obs (Platform.set_y v p) = obs p) ->
  forall s m b,
    worldScroll random s = Some m -> (b < allocated s)%nat ->
    obs (heap m b) = obs (heap s b).
Proof.
  intros Hy s m b E Hb.
  destruct (worldScroll_cases _ _ E)
    as [(_ & ->) | (_ & first & rest & _ & [(_ & ->) | (_ & l & f & _ & ->)])].
  - reflexivity.
  - apply shifted_heap_obs, Hy.
  - rewrite spawnPlatform_heap_old.
    + eng. apply shifted_heap_obs, Hy.
    + eng. rewrite (shifted_frame _ (fun s => allocated s)) by reflexivity.
      exact Hb.
Qed.

Lemma preCollision_heap_obs (A : Type) (obs : Platform.t -> A) :
  (forall v p, obs (Platform.set_x v p) = obs p) ->
  (forall v p, obs (Platform.set_vx v p) = obs p) ->
  (forall v p, obs (Platform.set_y v p) = obs p) ->
  forall s m b,
    preCollision random s = Some m -> (b < allocated s)%nat ->
    obs (heap m b) = obs (heap s b).
Proof.
  intros Hx Hv Hy s m b E Hb. unfold preCollision in E. cbv zeta in E.
  rewrite (worldScroll_heap_obs _ obs Hy _ _ _ E).
  - unfold playerUpdate. eng. apply movePlatforms_heap_obs; assumption.
  - unfold playerUpdate. eng.
    rewrite (movePlatforms_frame _ (fun s => allocated s)) by reflexivity.
    exact Hb.
Qed.

(** *** Reset *)

Lemma resetGame_platforms s :
  platforms (resetGame random s)
  = let a := allocated s in
    [a; S a; S (S a); S (S (S a)); S (S (S (S a))); S (S (S (S (S a))))].
Proof. reflexivity. Qed.

Lemma resetGame_allocated s :
  allocated (resetGame random s) = (6 + allocated s)%nat.
Proof. reflexivity. Qed.

Lemma resetGame_heap_old s b :
  (b < allocated s)%nat -> heap (resetGame random s) b = heap s b.
Proof.
  intro H. unfold resetGame. cbv zeta. cbn [fold_left].
  repeat (rewrite spawnPlatform_heap_old; [|cbn; lia]).
  eng. apply store_other. lia.
Qed.

Lemma resetGame_player s :
  player (resetGame random s)
  = Player.mk (viewportWidth s / 2)
      (viewportHeight s * 0.8 + 40 - PLAYER_SIZE / 2) 0 0
      PLAYER_SIZE PLAYER_SIZE NEON_CYAN 0 (Some (allocated s)).
Proof.
  unfold resetGame. cbv zeta. cbn [fold_left].
  repeat rewrite (spawnPlatform_frame _ (fun s => player s)) by reflexivity.
  eng. rewrite store_same. reflexivity.
Qed.

Lemma resetGame_base s :
  heap (resetGame random s) (allocated s)
  = Platform.new (viewportWidth s / 2 - 100) (viewportHeight s * 0.8 + 40)
      200 NEON_MAGENTA.
Proof.
  unfold resetGame. cbv zeta. cbn [fold_left].
  repeat (rewrite spawnPlatform_heap_old; [|cbn; lia]).
  eng. apply store_same.
Qed.

(** ** The jump command (C7) *)

(** C7, as the code has it: while the phase is Playing, an input is a jump
    exactly when the jump-count is below 2: from 0 it sets the vertical
    velocity to [JUMP_FORCE] (-15) and the count to 1, from 1 to
    [DOUBLE_JUMP_FORCE] (-12) and 2, and it detaches the actor and plays
    the jump sound; from 2 on the engine is left as it is.  In the phases
    Start and GameOver the input changes nothing, whatever the count. *)
Theorem jump_consumed_while_playing (s : Engine) :
  (state s = playing ->
   ((Player.jumps (player s) = 0)%Z ->
    Player.vy (player (handleInput random s)) = JUMP_FORCE
    /\ Player.jumps (player (handleInput random s)) = 1%Z)
   /\ ((Player.jumps (player s) = 1)%Z ->
       Player.vy (player (handleInput random s)) = DOUBLE_JUMP_FORCE
       /\ Player.jumps (player (handleInput random s)) = 2%Z)
   /\ ((Player.jumps (player s) < 2)%Z ->
       trace (handleInput random s) = PlayJump :: trace s
       /\ Player.currentPlatform (player (handleInput random s)) = None
       /\ Player.jumps (player (handleInput random s))
          = (Player.jumps (player s) + 1)%Z)
   /\ ((2 <= Player.jumps (player s))%Z -> handleInput random s = s))
  /\ (state s <> playing -> handleInput random s = s).
Proof.
  unfold handleInput. split.
  - intro Hst. rewrite Hst.
    split; [|split; [|split]]; intro Hj.
    + rewrite Hj. cbn [Z.ltb Z.eqb Z.compare]. confetti. eng. rewrite Hj. split; reflexivity.
    + rewrite Hj. cbn [Z.ltb Z.eqb Z.compare Pos.compare Pos.compare_cont].
      confetti. eng. rewrite Hj. split; reflexivity.
    + rewrite (proj2 (Z.ltb_lt _ _) Hj). confetti. eng. repeat split; reflexivity.
    + rewrite (proj2 (Z.ltb_ge _ _) Hj). reflexivity.
  - intro Hst. destruct (state s); congruence.
Qed.


Lemma firstLanding_result time s m a s' :
  firstLanding random time s m a s' ->
  s' = finish random (landed random a m).
Proof.
  intros (Hst & Hloop & Hpre & Hland & _).
  rewrite loop_playing, Hpre, collisionDetection_landing, Hland in Hloop
    by assumption.
  congruence.
Qed.

Lemma landed_heap (a : nat) (m : Engine) :
  heap (landed random a m)
  = if Platform.landedOn (heap m a) then heap m
    else store a (Platform.set_landedOn true (heap m a)) (heap m).
Proof.
  unfold landed. cbv zeta. eng.
  destruct (Platform.landedOn (heap m a)); cbn [negb]; [reflexivity|].
  repeat match goal with
  | |- context [if ?c then _ else _] => destruct c
  end; rewrite ?triggerPerfect_frame by reflexivity; reflexivity.
Qed.

Lemma landed_player (a : nat) (m : Engine) :
  Platform.landedOn (heap m a) = false ->
  Qcltb (dist m a) PERFECT_TOLERANCE = true ->
  player (landed random a m)
  = Player.set_color (Platform.color (heap m a))
      (Player.land a (heap m a) (player m)).
Proof.
  intros Hl Hp. unfold landed. cbv zeta. eng. rewrite Hl. cbn [negb].
  match goal with
  | |- context [Qcltb (dist ?s1 a) _] =>
      replace (dist s1 a) with (dist m a)
        by (unfold dist; eng; rewrite store_same; eng; reflexivity)
  end.
  rewrite Hp. unfold triggerPerfect. cbv zeta. eng.
  match goal with
  | |- context [if ?c then _ else _] => destruct c
  end; eng; confetti; eng; rewrite store_same; reflexivity.
Qed.

(** ** The perfect landing (C1) *)

(** C1, as the code has it: on a first landing on a platform whose centre
    is less than [PERFECT_TOLERANCE] (15) away from the actor's, the streak
    goes up by one, the streak callback is called with the new value, and
    the colour of the platform becomes the colour of the actor; the platform
    keeps its colour. *)
Theorem perfect_landing_paints_actor time s m a s' :
  firstLanding random time s m a s' -> perfect m a ->
  perfectStreak s' = (perfectStreak s + 1)%Z
  /\ reports asCombo (trace s')
     = (perfectStreak s + 1)%Z :: reports asCombo (trace s)
  /\ Player.color (player s') = Platform.color (heap m a)
  /\ Platform.color (heap s' a) = Platform.color (heap m a).
Proof.
  intros Hfl Hperf. pose proof (firstLanding_result _ _ _ _ _ Hfl) as ->.
  destruct Hfl as (Hst & _ & Hpre & _ & Hl).
  apply Qcltb_lt in Hperf.
  destruct (landed_scoring a m) as (Htr & _ & Hstreak & _).
  rewrite Hl, Hperf in Htr, Hstreak. unfold landingEvents in Htr.
  pose proof (preCollision_frame _ (fun s => perfectStreak s)
                ltac:(reflexivity) ltac:(reflexivity) ltac:(reflexivity)
                ltac:(reflexivity) ltac:(reflexivity) _ _ Hpre) as Hs.
  pose proof (preCollision_frame _ (fun s => trace s)
                ltac:(reflexivity) ltac:(reflexivity) ltac:(reflexivity)
                ltac:(reflexivity) ltac:(reflexivity) _ _ Hpre) as Ht.
  eng. repeat apply conj.
  - rewrite finish_frame by reflexivity. congruence.
  - rewrite finish_trace, Htr, <- Ht, <- Hs.
    repeat match goal with
    | |- context [if ?b then _ else _] => destruct b
    end; reflexivity.
  - rewrite (finish_frame _ (fun s => Player.color (player s)))
      by reflexivity.
    rewrite landed_player by assumption. reflexivity.
  - rewrite (finish_frame _ (fun s => Platform.color (heap s a)))
      by reflexivity.
    rewrite landed_heap, Hl, store_same. reflexivity.
Qed.

(** ** The fall (C8) *)

(** C8: a frame of the playing engine ends in the phase GameOver, with
    one call of the phase callback, exactly when the actor's vertical
    position is then beyond the viewport height plus 100, and in the phase
    Playing without such a call otherwise; and whatever frames follow while
    the phase is GameOver change nothing but [lastTime] and the count of
    random draws: no physics, collision, scoring or platform update, no
    further notification. *)
Theorem fall_ends_the_game :
  (forall time s s',
     state s = playing -> loop random time s = Some s' ->
     (viewportHeight s' + 100 < Player.y (player s') ->
      state s' = gameover
      /\ reports asPhase (trace s') = gameover :: reports asPhase (trace s))
     /\ (Player.y (player s') <= viewportHeight s' + 100 ->
         state s' = playing
         /\ reports asPhase (trace s') = reports asPhase (trace s)))
  /\ (forall times s,
        state s = gameover ->
        exists s',
          run random (map Frame times) s = Some s'
          /\ s' = set_randomCalls (randomCalls s')
                    (set_lastTime (lastTime s') s)).
Proof.
  split.
  - intros time s s' Hst Hloop.
    rewrite loop_playing in Hloop by assumption.
    destruct (preCollision random (set_lastTime time s)) as [m|] eqn:Hpre;
      [|discriminate].
    injection Hloop as <-.
    pose proof (preCollision_frame _ (fun s => state s)
                  ltac:(reflexivity) ltac:(reflexivity) ltac:(reflexivity)
                  ltac:(reflexivity) ltac:(reflexivity) _ _ Hpre) as Hs.
    pose proof (preCollision_frame _ (fun s => trace s)
                  ltac:(reflexivity) ltac:(reflexivity) ltac:(reflexivity)
                  ltac:(reflexivity) ltac:(reflexivity) _ _ Hpre) as Ht.
    eng.
    set (c := collisionDetection random m).
    assert (Hcs : state c = playing).
    { unfold c. rewrite collisionDetection_frame by reflexivity. congruence. }
    assert (Hct : reports asPhase (trace c) = reports asPhase (trace s)).
    { unfold c. rewrite collisionDetection_landing.
      destruct (landing m) as [a|]; [|congruence].
      destruct (landed_scoring a m) as (-> & _).
      rewrite reports_app, Ht.
      unfold landingEvents.
      repeat match goal with
      | |- context [if ?b then _ else _] => destruct b
      end; reflexivity. }
    rewrite (finish_frame _ (fun s => viewportHeight s)) by reflexivity.
    rewrite (finish_frame _ (fun s => Player.y (player s))) by reflexivity.
    rewrite finish_state, finish_trace.
    split; intro H.
    + apply Qcltb_lt in H. rewrite H. cbn [reports asPhase]. rewrite Hct. auto.
    + apply Qcltb_nlt in H. rewrite H. auto.
  - intros times. induction times as [|time times IH]; intros s Hst.
    + exists s. split; reflexivity.
    + cbn [map run step]. rewrite loop_idle by congruence.
      destruct (IH (draw (set_lastTime time s))) as (s' & Hrun & Hs').
      { rewrite draw_frame by reflexivity. exact Hst. }
      exists s'. split; [exact Hrun|].
      rewrite Hs' at 1. unfold draw.
      destruct (0 <? shakeTimer (set_lastTime time s))%Z; reflexivity.
Qed.

(** ** Landing flags and the raw score (C6) *)

Lemma handleInput_frame (A : Type) (f : Engine -> A) :
  (forall v s, f (set_player v s) = f s) ->
  (forall v s, f (set_particles v s) = f s) ->
  (forall v s, f (set_randomCalls v s) = f s) ->
  (forall v s, f (set_trace v s) = f s) ->
  forall s, f (handleInput random s) = f s.
Proof.
  intros Hpl Hp Hr He s. unfold handleInput.
  destruct (state s); try reflexivity.
  destruct (Player.jumps (player s) <? 2)%Z; [|reflexivity].
  cbv zeta. rewrite createParticles_frame by assumption.
  unfold playerJump, emit. rewrite He, Hpl. reflexivity.
Qed.

(** C6: through any operation, a platform that has been landed on stays
    so; and a jump, a resize or a frame either leaves the raw score and the
    flag of every platform as they are, or adds exactly 1 to the score and
    sets the flag of exactly one platform, which was not set: landing on a
    platform whose flag is set changes neither. *)
Theorem landedOn_once_scores_once i s s' :
  step random i s = Some s' ->
  (forall b, (b < allocated s)%nat ->
     Platform.landedOn (heap s b) = true ->
     Platform.landedOn (heap s' b) = true)
  /\ (i <> StartGame ->
      (score s' = score s
       /\ forall b, (b < allocated s)%nat ->
            Platform.landedOn (heap s' b) = Platform.landedOn (heap s b))
      \/ (score s' = (score s + 1)%Z
          /\ exists a,
               Platform.landedOn (heap s' a) = true
               /\ ((a < allocated s)%nat ->
                   Platform.landedOn (heap s a) = false)
               /\ forall b, (b < allocated s)%nat -> b <> a ->
                    Platform.landedOn (heap s' b)
                    = Platform.landedOn (heap s b))).
Proof.
  intro Hstep.
  assert (Hmain :
    (i = StartGame
     /\ forall b, (b < allocated s)%nat -> heap s' b = heap s b)
    \/ (score s' = score s
        /\ forall b, (b < allocated s)%nat ->
             Platform.landedOn (heap s' b) = Platform.landedOn (heap s b))
    \/ (score s' = (score s + 1)%Z
        /\ exists a,
             Platform.landedOn (heap s' a) = true
             /\ ((a < allocated s)%nat ->
                 Platform.landedOn (heap s a) = false)
             /\ forall b, (b < allocated s)%nat -> b <> a ->
                  Platform.landedOn (heap s' b)
                  = Platform.landedOn (heap s b))).
  { destruct i as [| |time|w h]; cbn [step] in Hstep.
    - injection Hstep as <-. left. split; [reflexivity|].
      intros b Hb. unfold startGame. cbv zeta. eng.
      apply resetGame_heap_old, Hb.
    - injection Hstep as <-. right. left.
      rewrite (handleInput_frame _ (fun s => score s)) by reflexivity.
      rewrite (handleInput_frame _ (fun s => heap s)) by reflexivity. auto.
    - destruct (GameState_playing_dec (state s)) as [Hst|Hst].
      + rewrite loop_playing in Hstep by assumption.
        destruct (preCollision random (set_lastTime time s)) as [m|] eqn:Hpre;
          [|discriminate].
        injection Hstep as <-.
        pose proof (preCollision_frame _ (fun s => score s)
                      ltac:(reflexivity) ltac:(reflexivity) ltac:(reflexivity)
                      ltac:(reflexivity) ltac:(reflexivity) _ _ Hpre) as Hsc.
        assert (Hold : forall b, (b < allocated s)%nat ->
                  Platform.landedOn (heap m b) = Platform.landedOn (heap s b)).
        { intros b Hb.
          apply (preCollision_heap_obs _ (fun p => Platform.landedOn p)
                   ltac:(reflexivity) ltac:(reflexivity) ltac:(reflexivity)
                   _ _ _ Hpre Hb). }
        eng.
        rewrite (finish_frame _ (fun s => score s)) by reflexivity.
        rewrite (finish_frame _ (fun s => heap s)) by reflexivity.
        rewrite collisionDetection_landing.
        destruct (landing m) as [a|]; [|right; left; split; [congruence|auto]].
        destruct (landed_scoring a m) as (_ & -> & _).
        rewrite landed_heap.
        destruct (Platform.landedOn (heap m a)) eqn:Hl.
        * right. left. split; [congruence|auto].
        * right. right. split; [congruence|].
          exists a. rewrite store_same. eng.
          split; [reflexivity|]. split.
          -- intro Ha. rewrite <- Hold by assumption. exact Hl.
          -- intros b Hb Hne. rewrite store_other by assumption. auto.
      + rewrite loop_idle in Hstep by assumption. injection Hstep as <-.
        right. left.
        rewrite (draw_frame _ (fun s => score s)) by reflexivity.
        rewrite (draw_frame _ (fun s => heap s)) by reflexivity. auto.
    - injection Hstep as <-. right. left. auto. }
  split.
  - intros b Hb Ht.
    destruct Hmain as [(_ & H) | [(_ & H) | (_ & a & Ha & _ & H)]].
    + rewrite H; assumption.
    + rewrite H; assumption.
    + destruct (Nat.eq_dec b a) as [->|Hne]; [exact Ha|].
      rewrite H; assumption.
  - intro Hi. destruct Hmain as [(H & _) | [H | H]]; [contradiction|auto|auto].
Qed.

(** ** Streak and fever (C2) *)

Lemma handleInput_reports (A : Type) (channel : Event -> option A) s :
  channel PlayJump = None ->
  reports channel (trace (handleInput random s)) = reports channel (trace s).
Proof.
  intro H. unfold handleInput.
  destruct (state s); try reflexivity.
  destruct (Player.jumps (player s) <? 2)%Z; [|reflexivity].
  cbv zeta. confetti. unfold playerJump. eng. cbn [reports]. rewrite H.
  reflexivity.
Qed.

Lemma finish_reports (A : Type) (channel : Event -> option A) m :
  channel PlayShatter = None -> channel (GameStateChange gameover) = None ->
  reports channel (trace (finish random m)) = reports channel (trace m).
Proof.
  intros H1 H2. rewrite finish_trace.
  destruct (Qcltb _ _); cbn [reports]; rewrite ?H1, ?H2; reflexivity.
Qed.

Lemma quiet_scoring s s' :
  quiet random s s' ->
  score s' = score s /\ perfectStreak s' = perfectStreak s
  /\ isFever s' = isFever s
  /\ reports asScore (trace s') = reports asScore (trace s).
Proof.
  intros (i & Hi & Hstep & Hq).
  destruct i as [| |time|w h]; cbn [step] in Hstep.
  - congruence.
  - injection Hstep as <-.
    rewrite (handleInput_frame _ (fun s => score s)) by reflexivity.
    rewrite (handleInput_frame _ (fun s => perfectStreak s)) by reflexivity.
    rewrite (handleInput_frame _ (fun s => isFever s)) by reflexivity.
    rewrite handleInput_reports by reflexivity. auto.
  - destruct (GameState_playing_dec (state s)) as [Hst|Hst].
    + rewrite loop_playing in Hstep by assumption.
      destruct (preCollision random (set_lastTime time s)) as [m|] eqn:Hpre;
        [|discriminate].
      injection Hstep as <-.
      pose proof (preCollision_frame _ (fun s => score s)
                    ltac:(reflexivity) ltac:(reflexivity) ltac:(reflexivity)
                    ltac:(reflexivity) ltac:(reflexivity) _ _ Hpre) as Hsc.
      pose proof (preCollision_frame _ (fun s => perfectStreak s)
                    ltac:(reflexivity) ltac:(reflexivity) ltac:(reflexivity)
                    ltac:(reflexivity) ltac:(reflexivity) _ _ Hpre) as Hps.
      pose proof (preCollision_frame _ (fun s => isFever s)
                    ltac:(reflexivity) ltac:(reflexivity) ltac:(reflexivity)
                    ltac:(reflexivity) ltac:(reflexivity) _ _ Hpre) as Hfv.
      pose proof (preCollision_frame _ (fun s => trace s)
                    ltac:(reflexivity) ltac:(reflexivity) ltac:(reflexivity)
                    ltac:(reflexivity) ltac:(reflexivity) _ _ Hpre) as Htr.
      eng.
      rewrite (finish_frame _ (fun s => score s)) by reflexivity.
      rewrite (finish_frame _ (fun s => perfectStreak s)) by reflexivity.
      rewrite (finish_frame _ (fun s => isFever s)) by reflexivity.
      rewrite finish_reports by reflexivity.
      rewrite collisionDetection_landing.
      destruct (landing m) as [a|] eqn:Hland;
        [|repeat apply conj; congruence].
      destruct (landed_scoring a m) as (-> & -> & -> & ->).
      rewrite (Hq time m a eq_refl Hst Hpre Hland).
      cbn [landingEvents app reports asScore].
      repeat apply conj; congruence.
    + rewrite loop_idle in Hstep by assumption. injection Hstep as <-.
      rewrite (draw_frame _ (fun s => score s)) by reflexivity.
      rewrite (draw_frame _ (fun s => perfectStreak s)) by reflexivity.
      rewrite (draw_frame _ (fun s => isFever s)) by reflexivity.
      rewrite (draw_frame _ (fun s => trace s)) by reflexivity. auto.
  - injection Hstep as <-. auto.
Qed.

Lemma quietly_scoring s s' :
  quietly random s s' ->
  score s' = score s /\ perfectStreak s' = perfectStreak s
  /\ isFever s' = isFever s
  /\ reports asScore (trace s') = reports asScore (trace s).
Proof.
  induction 1 as [s|s s' s'' Hq _ (IH1 & IH2 & IH3 & IH4)]; [auto|].
  destruct (quiet_scoring _ _ Hq) as (H1 & H2 & H3 & H4).
  repeat apply conj; congruence.
Qed.

Lemma firstLanding_scoring time s m a s' :
  firstLanding random time s m a s' ->
  score s' = (score s + 1)%Z
  /\ reports asScore (trace s')
     = ((score s + 1) * (if isFever s then FEVER_MULTIPLIER else 1))%Z
       :: reports asScore (trace s)
  /\ perfectStreak s'
     = (if Qcltb (dist m a) PERFECT_TOLERANCE then perfectStreak s + 1
        else if 0 <? perfectStreak s then 0 else perfectStreak s)%Z
  /\ isFever s'
     = (if Qcltb (dist m a) PERFECT_TOLERANCE
        then (if (FEVER_THRESHOLD <=? perfectStreak s + 1)%Z
              then true else isFever s)
        else false).
Proof.
  intro Hfl. pose proof (firstLanding_result _ _ _ _ _ Hfl) as ->.
  destruct Hfl as (Hst & _ & Hpre & _ & Hl).
  pose proof (preCollision_frame _ (fun s => score s)
                ltac:(reflexivity) ltac:(reflexivity) ltac:(reflexivity)
                ltac:(reflexivity) ltac:(reflexivity) _ _ Hpre) as Hsc.
  pose proof (preCollision_frame _ (fun s => perfectStreak s)
                ltac:(reflexivity) ltac:(reflexivity) ltac:(reflexivity)
                ltac:(reflexivity) ltac:(reflexivity) _ _ Hpre) as Hps.
  pose proof (preCollision_frame _ (fun s => isFever s)
                ltac:(reflexivity) ltac:(reflexivity) ltac:(reflexivity)
                ltac:(reflexivity) ltac:(reflexivity) _ _ Hpre) as Hfv.
  pose proof (preCollision_frame _ (fun s => trace s)
                ltac:(reflexivity) ltac:(reflexivity) ltac:(reflexivity)
                ltac:(reflexivity) ltac:(reflexivity) _ _ Hpre) as Htr.
  eng.
  rewrite (finish_frame _ (fun s => score s)) by reflexivity.
  rewrite (finish_frame _ (fun s => perfectStreak s)) by reflexivity.
  rewrite (finish_frame _ (fun s => isFever s)) by reflexivity.
  rewrite finish_reports by reflexivity.
  destruct (landed_scoring a m) as (-> & -> & -> & ->).
  rewrite Hl, Hsc, Hps, Hfv, Htr, reports_app.
  unfold landingEvents.
  repeat apply conj; try reflexivity.
  repeat match goal with
  | |- context [if ?b then _ else _] => destruct b
  end; reflexivity.
Qed.

(** C2, as the code has it: after three perfect first landings in a row
    from streak 0 and fever off, the fever flag, off until then, is on; the
    score callback of the third landing was called before the flag was set
    and reports the raw score as it is (times 1); the score callback of any
    first landing reports the raw score times the multiplier of the fever
    flag as it was before that landing, so that the first landing after the
    third reports the raw score times [FEVER_MULTIPLIER]. *)
Theorem fever_after_three_perfect_landings s0 s3' s3 :
  threePerfectLandings random s0 s3' s3 ->
  isFever s3' = false
  /\ isFever s3 = true
  /\ score s3 = (score s0 + 3)%Z
  /\ reports asScore (trace s3) = score s3 :: reports asScore (trace s3')
  /\ (forall time s4' m a s4,
        quietly random s3 s4' -> firstLanding random time s4' m a s4 ->
        reports asScore (trace s4)
        = (score s4 * FEVER_MULTIPLIER)%Z :: reports asScore (trace s4'))
  /\ (forall time s m a s',
        firstLanding random time s m a s' ->
        reports asScore (trace s')
        = (score s' * (if isFever s then FEVER_MULTIPLIER else 1))%Z
          :: reports asScore (trace s)).
Proof.
  intros (t1 & s1' & m1 & a1 & s1 & t2 & s2' & m2 & a2 & s2 & t3 & m3 & a3
          & Hstreak & Hfever & Hq1 & Hl1 & Hp1 & Hq2 & Hl2 & Hp2
          & Hq3 & Hl3 & Hp3).
  apply Qcltb_lt in Hp1, Hp2, Hp3.
  destruct (quietly_scoring _ _ Hq1) as (Ea1 & Eb1 & Ec1 & _).
  destruct (firstLanding_scoring _ _ _ _ _ Hl1) as (Fa1 & _ & Fb1 & Fc1).
  destruct (quietly_scoring _ _ Hq2) as (Ea2 & Eb2 & Ec2 & _).
  destruct (firstLanding_scoring _ _ _ _ _ Hl2) as (Fa2 & _ & Fb2 & Fc2).
  destruct (quietly_scoring _ _ Hq3) as (Ea3 & Eb3 & Ec3 & _).
  destruct (firstLanding_scoring _ _ _ _ _ Hl3) as (Fa3 & Fd3 & Fb3 & Fc3).
  rewrite Hp1 in Fb1, Fc1. rewrite Hp2 in Fb2, Fc2. rewrite Hp3 in Fb3, Fc3.
  assert (G1 : perfectStreak s1 = 1%Z) by lia.
  assert (G2 : perfectStreak s2 = 2%Z) by lia.
  assert (H1 : isFever s1 = false).
  { rewrite Fc1, Eb1, Hstreak, Ec1. exact Hfever. }
  assert (H2 : isFever s2 = false).
  { rewrite Fc2, Eb2, G1, Ec2. exact H1. }
  assert (H3' : isFever s3' = false) by congruence.
  assert (H3 : isFever s3 = true).
  { rewrite Fc3, Eb3, G2. reflexivity. }
  assert (Hgen : forall time s m a s',
            firstLanding random time s m a s' ->
            reports asScore (trace s')
            = (score s' * (if isFever s then FEVER_MULTIPLIER else 1))%Z
              :: reports asScore (trace s)).
  { intros time s m a s' Hl.
    destruct (firstLanding_scoring _ _ _ _ _ Hl) as (-> & -> & _).
    reflexivity. }
  repeat apply conj.
  - exact H3'.
  - exact H3.
  - lia.
  - rewrite Fd3, H3', Fa3. f_equal. lia.
  - intros time s4' m a s4 Hq4 Hl4.
    destruct (quietly_scoring _ _ Hq4) as (_ & _ & Ec4 & _).
    rewrite (Hgen _ _ _ _ _ Hl4), Ec4, H3. reflexivity.
  - exact Hgen.
Qed.

(** The decision procedure of [quiet] is sound. *)
Lemma quietRun_quietly inputs s :
  succeeds (quietRun random inputs s) = true ->
  quietly random s (the (run random inputs s)).
Proof.
  revert s. induction inputs as [|i inputs IH]; intros s H;
    cbn [quietRun run] in *.
  - apply quietly_refl.
  - destruct (quietInput random i s) eqn:Hq; [|discriminate H].
    destruct (step random i s) as [s1|] eqn:Hstep; [|discriminate H].
    apply quietly_step with s1; [|apply IH; exact H].
    exists i. split; [|split; [exact Hstep|]].
    + intros ->. discriminate Hq.
    + intros time m a -> Hst Hpre Hland. cbn [quietInput] in Hq.
      rewrite Hst, Hpre, Hland in Hq. exact Hq.
Qed.

(** ** Notifications (C3) *)

Lemma frame_effect_at time s m s' :
  state s = playing -> loop random time s = Some s' ->
  preCollision random (set_lastTime time s) = Some m ->
  exists fell,
    let ld := match landing m with
              | Some a => Some (Platform.landedOn (heap m a),
                                Qcltb (dist m a) PERFECT_TOLERANCE)
              | None => None
              end in
    trace s'
    = frameEvents ld fell (score s) (perfectStreak s) (isFever s) ++ trace s
    /\ state s' = (if fell then gameover else playing)
    /\ score s'
       = match ld with
         | Some (false, _) => (score s + 1)%Z
         | _ => score s
         end
    /\ perfectStreak s'
       = match ld with
         | Some (false, true) => (perfectStreak s + 1)%Z
         | Some (false, false) =>
             if (0 <? perfectStreak s)%Z then 0%Z else perfectStreak s
         | _ => perfectStreak s
         end
    /\ isFever s'
       = match ld with
         | Some (false, true) =>
             if (FEVER_THRESHOLD <=? perfectStreak s + 1)%Z
             then true else isFever s
         | Some (false, false) => false
         | _ => isFever s
         end.
Proof.
  intros Hst Hloop Hpre. rewrite loop_playing in Hloop by assumption.
  rewrite Hpre in Hloop. injection Hloop as <-.
  pose proof (preCollision_frame _ (fun s => score s)
                ltac:(reflexivity) ltac:(reflexivity) ltac:(reflexivity)
                ltac:(reflexivity) ltac:(reflexivity) _ _ Hpre) as Hsc.
  pose proof (preCollision_frame _ (fun s => perfectStreak s)
                ltac:(reflexivity) ltac:(reflexivity) ltac:(reflexivity)
                ltac:(reflexivity) ltac:(reflexivity) _ _ Hpre) as Hps.
  pose proof (preCollision_frame _ (fun s => isFever s)
                ltac:(reflexivity) ltac:(reflexivity) ltac:(reflexivity)
                ltac:(reflexivity) ltac:(reflexivity) _ _ Hpre) as Hfv.
  pose proof (preCollision_frame _ (fun s => trace s)
                ltac:(reflexivity) ltac:(reflexivity) ltac:(reflexivity)
                ltac:(reflexivity) ltac:(reflexivity) _ _ Hpre) as Htr.
  pose proof (preCollision_frame _ (fun s => state s)
                ltac:(reflexivity) ltac:(reflexivity) ltac:(reflexivity)
                ltac:(reflexivity) ltac:(reflexivity) _ _ Hpre) as Hsm.
  eng.
  set (c := collisionDetection random m).
  exists (Qcltb (viewportHeight c + 100) (Player.y (player c))).
  cbv zeta.
  rewrite finish_trace, finish_state.
  rewrite (finish_frame _ (fun s => score s)) by reflexivity.
  rewrite (finish_frame _ (fun s => perfectStreak s)) by reflexivity.
  rewrite (finish_frame _ (fun s => isFever s)) by reflexivity.
  assert (Hcs : state c = playing).
  { unfold c. rewrite collisionDetection_frame by reflexivity. congruence. }
  rewrite Hcs. unfold frameEvents.
  destruct (Qcltb (viewportHeight c + 100) (Player.y (player c)));
    unfold c; rewrite collisionDetection_landing;
    (destruct (landing m) as [a|];
     [ destruct (landed_scoring a m) as (-> & -> & -> & ->);
       rewrite Hsc, Hps, Hfv, Htr;
       destruct (Platform.landedOn (heap m a));
       destruct (Qcltb (dist m a) PERFECT_TOLERANCE);
       repeat apply conj; reflexivity
     | rewrite Hsc, Hps, Hfv, Htr; repeat apply conj; reflexivity ]).
Qed.

Lemma frame_effect time s s' :
  state s = playing -> loop random time s = Some s' ->
  exists ld fell,
    trace s'
    = frameEvents ld fell (score s) (perfectStreak s) (isFever s) ++ trace s
    /\ state s' = (if fell then gameover else playing)
    /\ score s'
       = match ld with
         | Some (false, _) => (score s + 1)%Z
         | _ => score s
         end
    /\ perfectStreak s'
       = match ld with
         | Some (false, true) => (perfectStreak s + 1)%Z
         | Some (false, false) =>
             if (0 <? perfectStreak s)%Z then 0%Z else perfectStreak s
         | _ => perfectStreak s
         end
    /\ isFever s'
       = match ld with
         | Some (false, true) =>
             if (FEVER_THRESHOLD <=? perfectStreak s + 1)%Z
             then true else isFever s
         | Some (false, false) => false
         | _ => isFever s
         end.
Proof.
  intros Hst Hloop. pose proof Hloop as Hpre.
  rewrite loop_playing in Hpre by assumption.
  destruct (preCollision random (set_lastTime time s)) as [m|] eqn:Hm;
    [clear Hpre|discriminate].
  destruct (frame_effect_at _ _ _ _ Hst Hloop Hm) as (fell & H).
  eexists _, fell. exact H.
Qed.

Lemma startGame_scoring s :
  trace (startGame random s)
  = AudioInit :: GameStateChange playing :: FeverChange false
    :: ComboChange 0 :: ScoreUpdate 0 :: trace s
  /\ state (startGame random s) = playing
  /\ score (startGame random s) = 0%Z
  /\ perfectStreak (startGame random s) = 0%Z
  /\ isFever (startGame random s) = false.
Proof. repeat apply conj; reflexivity. Qed.

Lemma consistent_constructor w h : consistent (constructor w h).
Proof.
  unfold consistent, constructor. eng. cbn [reports hd_error].
  repeat apply conj; try discriminate; lia.
Qed.

Lemma consistent_step i s s' :
  consistent s -> step random i s = Some s' -> consistent s'.
Proof.
  intros (Hb & Hf & Hs & Hc & Hv & Hp) Hstep.
  destruct i as [| |time|w h]; cbn [step] in Hstep.
  - injection Hstep as <-.
    destruct (startGame_scoring s) as (Ht & Hst & Hsc & Hps & Hfv).
    unfold consistent. rewrite Ht, Hst, Hsc, Hps, Hfv.
    cbn [reports asScore asCombo asFever asPhase hd_error].
    repeat apply conj; try discriminate; try lia;
      intros x Hx; injection Hx as <-; auto.
  - injection Hstep as <-. unfold consistent.
    rewrite (handleInput_frame _ (fun s => score s)) by reflexivity.
    rewrite (handleInput_frame _ (fun s => perfectStreak s)) by reflexivity.
    rewrite (handleInput_frame _ (fun s => isFever s)) by reflexivity.
    rewrite (handleInput_frame _ (fun s => state s)) by reflexivity.
    rewrite !handleInput_reports by reflexivity. auto 10.
  - destruct (GameState_playing_dec (state s)) as [Hst|Hst].
    + destruct (frame_effect _ _ _ Hst Hstep)
        as (ld & fell & Ht & Hst' & Hsc & Hps & Hfv).
      unfold consistent. rewrite Ht, Hst', Hsc, Hps, Hfv, !reports_app.
      unfold frameEvents, landingEvents, FEVER_THRESHOLD, FEVER_MULTIPLIER in *.
      rewrite Hst in Hp.
      destruct (hd_error (reports asScore (trace s))) as [v0|] eqn:Ev0;
        [specialize (Hs v0 eq_refl)|clear Hs];
        (destruct (hd_error (reports asCombo (trace s))) as [c0|] eqn:Ec0;
         [specialize (Hc c0 eq_refl)|clear Hc]);
        (destruct (hd_error (reports asFever (trace s))) as [f0|] eqn:Ef0;
         [specialize (Hv f0 eq_refl)|clear Hv]);
        (destruct (hd_error (reports asPhase (trace s))) as [g0|] eqn:Eg0;
         [specialize (Hp g0 eq_refl)|clear Hp]);
        destruct ld as [[[|] [|]]|]; destruct fell;
        destruct (isFever s) eqn:Efv;
        try specialize (Hf eq_refl);
        destruct (3 <=? perfectStreak s + 1)%Z eqn:E3;
        destruct (0 <? perfectStreak s)%Z eqn:E0;
        try apply Z.leb_le in E3; try apply Z.leb_gt in E3;
        try apply Z.ltb_lt in E0; try apply Z.ltb_ge in E0;
        cbn [app reports asScore asCombo asFever asPhase hd_error];
        rewrite ?Ev0, ?Ec0, ?Ef0, ?Eg0;
        try lia;
        (repeat apply conj;
         [ lia | lia
         | intro; try discriminate; lia
         | intros x Hx; try discriminate; injection Hx as <-; lia
         | intros x Hx; try discriminate; injection Hx as <-; try lia; auto
         | intros x Hx; try discriminate; injection Hx as <-; congruence
         | intros x Hx; try discriminate; injection Hx as <-; congruence ]).
    + rewrite loop_idle in Hstep by assumption. injection Hstep as <-.
      unfold consistent.
      rewrite (draw_frame _ (fun s => score s)) by reflexivity.
      rewrite (draw_frame _ (fun s => perfectStreak s)) by reflexivity.
      rewrite (draw_frame _ (fun s => isFever s)) by reflexivity.
      rewrite (draw_frame _ (fun s => state s)) by reflexivity.
      rewrite (draw_frame _ (fun s => trace s)) by reflexivity. auto 10.
  - injection Hstep as <-. unfold consistent, resize. eng. auto 10.
Qed.

Lemma consistent_run inputs s s' :
  consistent s -> run random inputs s = Some s' -> consistent s'.
Proof.
  revert s. induction inputs as [|i inputs IH]; intros s Hs Hrun;
    cbn [run] in Hrun.
  - congruence.
  - destruct (step random i s) as [s1|] eqn:Hstep; [|discriminate].
    eapply IH; [|exact Hrun]. eapply consistent_step; eassumption.
Qed.

Lemma handleInput_trace s :
  trace (handleInput random s) = trace s
  \/ trace (handleInput random s) = PlayJump :: trace s.
Proof.
  unfold handleInput.
  destruct (state s); [left; reflexivity | | left; reflexivity].
  destruct (Player.jumps (player s) <? 2)%Z; [|left; reflexivity].
  right. cbv zeta. confetti. reflexivity.
Qed.

Lemma reports_fever_frame ld fell sc st fv :
  reports asFever (frameEvents ld fell sc st fv)
  = match ld with
    | Some (false, true) =>
        if (FEVER_THRESHOLD <=? st + 1)%Z then (true :: nil) else nil
    | Some (false, false) => if fv then (false :: nil) else nil
    | _ => nil
    end.
Proof.
  unfold frameEvents, landingEvents.
  destruct fell, ld as [[[|] [|]]|]; try reflexivity;
    destruct (FEVER_THRESHOLD <=? st + 1)%Z, fv, (0 <? st)%Z; reflexivity.
Qed.

(** What the fever callback is told, input by input. *)
Lemma fever_told i s s' ev :
  consistent s ->
  i <> StartGame -> step random i s = Some s' ->
  trace s' = ev ++ trace s ->
  feverTold random i s s' (reports asFever ev) (reports asFever (trace s)).
Proof.
  intros (_ & _ & _ & _ & Hv & _) Hi Hstep Hev.
  assert (Hidle : forall s1, trace s1 = trace s \/ trace s1 = PlayJump :: trace s ->
            s' = s1 -> isFever s1 = isFever s ->
            feverTold random i s s' (reports asFever ev)
              (reports asFever (trace s))).
  { intros s1 Ht -> Hf. left. split; [|exact Hf].
    destruct Ht as [Ht|Ht]; rewrite Ht in Hev.
    - change (trace s) with (nil ++ trace s) in Hev at 1.
      apply app_inv_tail in Hev. subst ev. reflexivity.
    - change (PlayJump :: trace s) with ((PlayJump :: nil) ++ trace s) in Hev.
      apply app_inv_tail in Hev. subst ev. reflexivity. }
  destruct i as [| |time|w h]; cbn [step] in Hstep.
  - congruence.
  - injection Hstep as Hs. apply (Hidle (handleInput random s)).
    + apply handleInput_trace.
    + symmetry. exact Hs.
    + rewrite (handleInput_frame _ (fun s => isFever s)) by reflexivity.
      reflexivity.
  - destruct (GameState_playing_dec (state s)) as [Hst|Hst].
    + pose proof Hstep as Hpre. rewrite loop_playing in Hpre by assumption.
      destruct (preCollision random (set_lastTime time s)) as [m|] eqn:Hm;
        [clear Hpre|discriminate].
      destruct (frame_effect_at _ _ _ _ Hst Hstep Hm)
        as (fell & Ht & _ & _ & Hps & Hfv).
      cbv zeta in Ht, Hps, Hfv.
      rewrite Ht in Hev. apply app_inv_tail in Hev. subst ev.
      rewrite reports_fever_frame.
      destruct (landing m) as [a|] eqn:Hland; [|left; auto].
      destruct (Platform.landedOn (heap m a)) eqn:Hon; [left; auto|].
      destruct (Qcltb (dist m a) PERFECT_TOLERANCE) eqn:Hperf.
      * destruct (FEVER_THRESHOLD <=? perfectStreak s + 1)%Z eqn:E3;
          [|left; auto].
        right. right. apply Z.leb_le in E3.
        split; [reflexivity|]. split; [exact Hfv|].
        split; [rewrite Hps; exact E3|].
        exists time, m, a. split; [reflexivity|]. split.
        -- unfold firstLanding. auto.
        -- unfold perfect. apply Qcltb_lt. exact Hperf.
      * destruct (isFever s) eqn:Efv;
          [|left; split; [reflexivity|congruence]].
        right. left. split; [reflexivity|]. split; [exact Efv|].
        split; [exact Hfv|]. cbn [changesOnly app]. split; [|exact I].
        intro Hx. specialize (Hv _ Hx). discriminate Hv.
    + rewrite loop_idle in Hstep by assumption. injection Hstep as Hs.
      apply (Hidle (draw (set_lastTime time s))).
      * left. rewrite (draw_frame _ (fun s => trace s)) by reflexivity.
        reflexivity.
      * symmetry. exact Hs.
      * rewrite (draw_frame _ (fun s => isFever s)) by reflexivity. reflexivity.
  - injection Hstep as Hs. apply (Hidle (resize w h s)).
    + left. reflexivity.
    + symmetry. exact Hs.
    + reflexivity.
Qed.

Lemma changes_in_frames i s s' :
  consistent s -> i <> StartGame -> step random i s = Some s' ->
  exists ev,
    trace s' = ev ++ trace s
    /\ changesOnly (reports asScore ev) (reports asScore (trace s))
    /\ changesOnly (reports asCombo ev) (reports asCombo (trace s))
    /\ changesOnly (reports asPhase ev) (reports asPhase (trace s)).
Proof.
  intros (Hb & Hf & Hs & Hc & _ & Hp) Hi Hstep.
  destruct i as [| |time|w' h']; cbn [step] in Hstep.
  - congruence.
  - injection Hstep as <-.
    destruct (handleInput_trace s) as [E|E]; rewrite E.
    + exists nil. cbn. auto 10.
    + exists (PlayJump :: nil). cbn. auto 10.
  - destruct (GameState_playing_dec (state s)) as [Hst|Hst].
    + destruct (frame_effect _ _ _ Hst Hstep)
        as (ld & fell & Ht & Hst' & Hsc & Hps & Hfv).
      exists (frameEvents ld fell (score s) (perfectStreak s) (isFever s)).
      split; [exact Ht|].
      unfold frameEvents, landingEvents, FEVER_THRESHOLD, FEVER_MULTIPLIER in *.
      rewrite Hst in Hp.
      destruct (hd_error (reports asScore (trace s))) as [v0|] eqn:Ev0;
        [specialize (Hs v0 eq_refl)|clear Hs];
        (destruct (hd_error (reports asCombo (trace s))) as [c0|] eqn:Ec0;
         [specialize (Hc c0 eq_refl)|clear Hc]);
        (destruct (hd_error (reports asPhase (trace s))) as [g0|] eqn:Eg0;
         [specialize (Hp g0 eq_refl)|clear Hp]);
        destruct ld as [[[|] [|]]|]; destruct fell;
        destruct (isFever s) eqn:Efv;
        try specialize (Hf eq_refl);
        destruct (3 <=? perfectStreak s + 1)%Z eqn:E3;
        destruct (0 <? perfectStreak s)%Z eqn:E0;
        try apply Z.leb_le in E3; try apply Z.leb_gt in E3;
        try apply Z.ltb_lt in E0; try apply Z.ltb_ge in E0;
        cbn [app reports asScore asCombo asFever asPhase hd_error changesOnly];
        rewrite ?Ev0, ?Ec0, ?Eg0;
        try lia;
        (repeat apply conj; try exact I;
         try (intro Hx; injection Hx; intros; subst; lia);
         try (intro Hx; injection Hx; intros; subst; congruence);
         try discriminate).
    + rewrite loop_idle in Hstep by assumption. injection Hstep as <-.
      exists nil. rewrite (draw_frame _ (fun s => trace s)) by reflexivity.
      cbn. auto 10.
  - injection Hstep as <-. exists nil. cbn. auto 10.
Qed.

(** C3, as the code has it by design: in a frame, a jump or a resize of any
    game, the callbacks of the displayed score, of the streak and of the
    phase are only called with a value that differs from the one they were
    last called with.  The fever callback is called at most once: with
    false only when the flag, on until then, goes off, which is not what it
    was last called with; with true only in a frame with a perfect first
    landing that leaves the flag on and the streak at [FEVER_THRESHOLD] or
    beyond; and it is called with true whenever such a landing turns the
    flag on.  Whether it is called with true again at such a landing while
    the flag is on already is not said.  A start or restart calls the four
    callbacks with 0, 0, false and playing, whatever they were last called
    with. *)
Theorem notifications_on_change_in_frames w h inputs s :
  run random inputs (constructor w h) = Some s ->
  (forall i s',
     i <> StartGame -> step random i s = Some s' ->
     exists ev,
       trace s' = ev ++ trace s
       /\ changesOnly (reports asScore ev) (reports asScore (trace s))
       /\ changesOnly (reports asCombo ev) (reports asCombo (trace s))
       /\ changesOnly (reports asPhase ev) (reports asPhase (trace s))
       /\ feverTold random i s s' (reports asFever ev)
            (reports asFever (trace s))
       /\ (forall time m a,
             i = Frame time -> firstLanding random time s m a s' ->
             perfect m a -> isFever s = false ->
             (FEVER_THRESHOLD <= perfectStreak s')%Z ->
             reports asFever ev = (true :: nil)))
  /\ trace (startGame random s)
     = AudioInit :: GameStateChange playing :: FeverChange false
       :: ComboChange 0 :: ScoreUpdate 0 :: trace s.
Proof.
  intro Hrun. split; [|apply startGame_scoring].
  pose proof (consistent_run _ _ _ (consistent_constructor w h) Hrun) as Hcons.
  intros i s' Hi Hstep.
  destruct (changes_in_frames _ _ _ Hcons Hi Hstep)
    as (ev & Hev & H1 & H2 & H3).
  pose proof (fever_told _ _ _ _ Hcons Hi Hstep Hev) as Hft.
  exists ev. refine (conj Hev (conj H1 (conj H2 (conj H3 (conj Hft _))))).
  intros time m a -> Hfl Hperf Hoff Hthr.
  destruct (firstLanding_scoring _ _ _ _ _ Hfl) as (_ & _ & Hps & Hfv).
  apply Qcltb_lt in Hperf. rewrite Hperf in Hps, Hfv.
  assert (Hon : isFever s' = true).
  { rewrite Hfv. rewrite Hps in Hthr.
    apply Z.leb_le in Hthr. rewrite Hthr. reflexivity. }
  destruct Hft as [(_ & E)|[(_ & _ & E & _)|(E & _)]].
  - congruence.
  - congruence.
  - exact E.
Qed.

(** ** Addresses *)

Lemma wellFormed_constructor w h : wellFormed (constructor w h).
Proof.
  split; cbn; [constructor | intros a []].
Qed.

Lemma wellFormed_reset s : wellFormed (resetGame random s).
Proof.
  unfold wellFormed. rewrite resetGame_platforms, resetGame_allocated.
  cbv zeta. split.
  - repeat constructor; cbn [In]; lia.
  - intros a Ha. cbn [In] in Ha. lia.
Qed.

Lemma wellFormed_spawn y rest s :
  NoDup rest -> (forall a, In a rest -> (a < allocated s)%nat) ->
  wellFormed (spawnPlatform random y (set_platforms rest s)).
Proof.
  intros Hnd Hlt. unfold wellFormed, spawnPlatform. cbv zeta. eng. split.
  - apply NoDup_app; [exact Hnd | repeat constructor; cbn; tauto |].
    intros a Ha [<-|[]]. apply Hlt in Ha. lia.
  - intros a Ha. apply in_app_or in Ha. destruct Ha as [Ha|[<-|[]]].
    + apply Hlt in Ha. lia.
    + lia.
Qed.

Lemma wellFormed_worldScroll s m :
  wellFormed s -> worldScroll random s = Some m -> wellFormed m.
Proof.
  intros (Hnd & Hlt) E.
  destruct (worldScroll_cases _ _ E)
    as [(_ & ->) | (_ & first & rest & Hp
                    & [(_ & ->) | (_ & l & f & _ & ->)])].
  - split; assumption.
  - unfold wellFormed.
    rewrite (shifted_frame _ (fun s => platforms s)) by reflexivity.
    rewrite (shifted_frame _ (fun s => allocated s)) by reflexivity.
    split; assumption.
  - rewrite Hp in Hnd, Hlt. apply wellFormed_spawn.
    + inversion Hnd; assumption.
    + intros a Ha.
      rewrite (shifted_frame _ (fun s => allocated s)) by reflexivity.
      apply Hlt. right. exact Ha.
Qed.

Lemma wellFormed_preCollision s m :
  wellFormed s -> preCollision random s = Some m -> wellFormed m.
Proof.
  intros Hwf E. unfold preCollision in E. cbv zeta in E.
  eapply wellFormed_worldScroll; [|exact E].
  unfold wellFormed, playerUpdate. eng.
  rewrite (movePlatforms_frame _ (fun s => platforms s)) by reflexivity.
  rewrite (movePlatforms_frame _ (fun s => allocated s)) by reflexivity.
  exact Hwf.
Qed.

Lemma wellFormed_step i s s' :
  wellFormed s -> step random i s = Some s' -> wellFormed s'.
Proof.
  intros Hwf Hstep. destruct i as [| |time|w h]; cbn [step] in Hstep.
  - injection Hstep as <-.
    change (wellFormed (resetGame random s)). apply wellFormed_reset.
  - injection Hstep as <-. unfold wellFormed.
    rewrite (handleInput_frame _ (fun s => platforms s)) by reflexivity.
    rewrite (handleInput_frame _ (fun s => allocated s)) by reflexivity.
    exact Hwf.
  - destruct (GameState_playing_dec (state s)) as [Hst|Hst].
    + rewrite loop_playing in Hstep by assumption.
      destruct (preCollision random (set_lastTime time s)) as [m|] eqn:Hpre;
        [|discriminate].
      injection Hstep as <-.
      apply wellFormed_preCollision in Hpre; [|exact Hwf].
      unfold wellFormed.
      rewrite (finish_frame _ (fun s => platforms s)) by reflexivity.
      rewrite (finish_frame _ (fun s => allocated s)) by reflexivity.
      rewrite (collisionDetection_frame _ (fun s => platforms s))
        by reflexivity.
      rewrite (collisionDetection_frame _ (fun s => allocated s))
        by reflexivity.
      exact Hpre.
    + rewrite loop_idle in Hstep by assumption. injection Hstep as <-.
      unfold wellFormed.
      rewrite (draw_frame _ (fun s => platforms s)) by reflexivity.
      rewrite (draw_frame _ (fun s => allocated s)) by reflexivity.
      exact Hwf.
  - injection Hstep as <-. exact Hwf.
Qed.

(** What holds of the new engine and is kept by every operation holds
    after any inputs. *)
Lemma run_invariant (P : Engine -> Prop) (ok : Input -> Prop) :
  (forall i s s', ok i -> P s -> step random i s = Some s' -> P s') ->
  forall inputs s s',
    Forall ok inputs -> P s -> run random inputs s = Some s' -> P s'.
Proof.
  intros Hstep inputs.
  induction inputs as [|i inputs IH]; intros s s' Hok Hs Hrun;
    cbn [run] in Hrun.
  - congruence.
  - inversion Hok as [|? ? Hi Hrest]; subst.
    destruct (step random i s) as [s1|] eqn:E; [|discriminate].
    eapply IH; [exact Hrest | | exact Hrun].
    eapply Hstep; eassumption.
Qed.

Lemma Forall_True (A : Type) (l : list A) : Forall (fun _ => True) l.
Proof. induction l; constructor; auto. Qed.

Lemma wellFormed_run inputs w h s :
  run random inputs (constructor w h) = Some s -> wellFormed s.
Proof.
  intro Hrun.
  apply (run_invariant wellFormed (fun _ => True)) with inputs (constructor w h).
  - intros i s0 s1 _. apply wellFormed_step.
  - apply Forall_True.
  - apply wellFormed_constructor.
  - exact Hrun.
Qed.

(** *** The loops over platforms held once each *)

Lemma fold_modify_at (g : Platform.t -> Platform.t) l s b :
  NoDup l ->
  heap (fold_left (fun s a => modify a g s) l s) b
  = if existsb (Nat.eqb b) l then g (heap s b) else heap s b.
Proof.
  revert s. induction l as [|a l IH]; intros s Hnd;
    cbn [fold_left existsb].
  - reflexivity.
  - inversion Hnd as [|? ? Hnotin Hnd']; subst.
    rewrite IH by assumption. unfold modify. eng. unfold store.
    destruct (Nat.eqb b a) eqn:E; cbn [orb].
    + apply Nat.eqb_eq in E. subst b.
      destruct (existsb (Nat.eqb a) l) eqn:Ex; [|reflexivity].
      apply existsb_exists in Ex. destruct Ex as (c & Hc & Ec).
      apply Nat.eqb_eq in Ec. subst c. contradiction.
    + reflexivity.
Qed.

Lemma existsb_eqb_In b l : In b l -> existsb (Nat.eqb b) l = true.
Proof.
  intro H. apply existsb_exists. exists b. split; [exact H|].
  apply Nat.eqb_refl.
Qed.

Lemma shifted_y s b :
  NoDup (platforms s) -> In b (platforms s) ->
  Platform.y (heap (shifted s) b)
  = Platform.y (heap s b)
    + (viewportHeight s * 0.6 - Player.y (player s)).
Proof.
  intros Hnd Hin. unfold shifted. cbv zeta.
  rewrite fold_modify_at by (eng; exact Hnd).
  eng. rewrite existsb_eqb_In by exact Hin. reflexivity.
Qed.

Lemma movePlatforms_at sm s :
  NoDup (platforms s) ->
  (forall b, In b (platforms s) ->
     heap (movePlatforms sm s) b
     = movedPlatform sm (viewportWidth s) (heap s b))
  /\ player (movePlatforms sm s)
     = match Player.currentPlatform (player s) with
       | Some a =>
           if existsb (Nat.eqb a) (platforms s)
              && Qcneqb (Platform.vx (heap s a)) 0
           then Player.set_x
                  (Player.x (player s) + Platform.vx (heap s a) * sm)
                  (player s)
           else player s
       | None => player s
       end.
Proof.
  unfold movePlatforms. generalize (platforms s) as l. intro l. revert s.
  induction l as [|a l IH]; intros s Hnd; cbn [fold_left].
  - split; [intros b []|]. destruct (Player.currentPlatform (player s));
      reflexivity.
  - inversion Hnd as [|? ? Hnotin Hnd']; subst.
    destruct (IH (movePlatform sm s a) Hnd') as (IHh & IHp).
    assert (Hvw : viewportWidth (movePlatform sm s a) = viewportWidth s)
      by (apply (movePlatform_frame _ (fun s => viewportWidth s));
          reflexivity).
    assert (Hcp : Player.currentPlatform (player (movePlatform sm s a))
                  = Player.currentPlatform (player s)).
    { rewrite movePlatform_player. destruct (_ && _); reflexivity. }
    split.
    + intros b [<-|Hb].
      * transitivity (heap (movePlatform sm s a) a).
        -- clear IHh IHp.
           generalize (movePlatform sm s a) as s1. intro s1.
           revert s1 Hnotin. clear. induction l as [|c l IH];
             intros s1 Hnotin; cbn [fold_left]; [reflexivity|].
           rewrite IH by (intro H; apply Hnotin; right; exact H).
           rewrite movePlatform_heap.
           destruct (Nat.eqb a c) eqn:E; [|reflexivity].
           apply Nat.eqb_eq in E. subst c. exfalso. apply Hnotin.
           left. reflexivity.
        -- rewrite movePlatform_heap, Nat.eqb_refl. reflexivity.
      * rewrite IHh by exact Hb. rewrite Hvw, movePlatform_heap.
        destruct (Nat.eqb b a) eqn:E; [|reflexivity].
        apply Nat.eqb_eq in E. subst b. contradiction.
    + rewrite IHp, Hcp, movePlatform_player. unfold rides.
      destruct (Player.currentPlatform (player s)) as [c|];
        [|rewrite andb_false_r; reflexivity].
      cbn [existsb]. rewrite movePlatform_heap.
      destruct (Nat.eqb c a) eqn:E.
      * apply Nat.eqb_eq in E. subst c.
        assert (Ex : existsb (Nat.eqb a) l = false).
        { destruct (existsb (Nat.eqb a) l) eqn:Ex; [|reflexivity].
          apply existsb_exists in Ex. destruct Ex as (c & Hc & Ec).
          apply Nat.eqb_eq in Ec. subst c. contradiction. }
        rewrite Ex. cbn [andb orb]. rewrite andb_true_r. reflexivity.
      * cbn [orb]. rewrite andb_false_r. reflexivity.
Qed.

(** ** What a frame leaves alone in the actor *)

Lemma playerUpdate_obs (A : Type) (obs : Player.t -> A) :
  (forall v p, obs (Player.set_y v p) = obs p) ->
  (forall v p, obs (Player.set_vy v p) = obs p) ->
  (forall v p, obs (Player.set_currentPlatform v p) = obs p) ->
  forall h pl, obs (Player.update h pl) = obs pl.
Proof.
  intros Hy Hv Hc h pl. unfold Player.update. cbv zeta.
  destruct (Player.currentPlatform pl) as [a|].
  - destruct (_ || _); rewrite ?Hc, Hy, Hv; reflexivity.
  - rewrite Hy, Hv. reflexivity.
Qed.

Lemma shifted_player s :
  player (shifted s)
  = Player.set_y (viewportHeight s * 0.6) (player s).
Proof.
  unfold shifted. cbv zeta.
  rewrite (scroll_frame _ (fun s => player s)) by reflexivity.
  reflexivity.
Qed.

Lemma worldScroll_player_obs (A : Type) (obs : Player.t -> A) :
  (forall v p, obs (Player.set_y v p) = obs p) ->
  forall s m, worldScroll random s = Some m -> obs (player m) = obs (player s).
Proof.
  intros Hy s m E.
  destruct (worldScroll_cases _ _ E)
    as [(_ & ->) | (_ & first & rest & _ & [(_ & ->) | (_ & l & f & _ & ->)])].
  - reflexivity.
  - rewrite shifted_player. apply Hy.
  - rewrite (spawnPlatform_frame _ (fun s => player s)) by reflexivity.
    eng. rewrite shifted_player. apply Hy.
Qed.

Lemma landed_player_obs (A : Type) (obs : Player.t -> A) :
  (forall v p, obs (Player.set_y v p) = obs p) ->
  (forall v p, obs (Player.set_vy v p) = obs p) ->
  (forall v p, obs (Player.set_jumps v p) = obs p) ->
  (forall v p, obs (Player.set_currentPlatform v p) = obs p) ->
  (forall v p, obs (Player.set_color v p) = obs p) ->
  forall a m, obs (player (landed random a m)) = obs (player m).
Proof.
  intros Hy Hv Hj Hc Hk a m. unfold landed. cbv zeta.
  assert (Hland : obs (player (playerLand a m)) = obs (player m)).
  { unfold playerLand, Player.land. eng. rewrite Hy, Hj, Hv, Hc.
    reflexivity. }
  destruct (negb _); [|exact Hland].
  destruct (Qcltb _ _).
  - unfold triggerPerfect. cbv zeta.
    match goal with
    | |- context [if ?c then _ else _] => destruct c
    end; eng; confetti; eng; rewrite Hk; exact Hland.
  - repeat match goal with
    | |- context [if ?c then _ else _] => destruct c
    end; eng; exact Hland.
Qed.

Lemma collisionDetection_player_obs (A : Type) (obs : Player.t -> A) :
  (forall v p, obs (Player.set_y v p) = obs p) ->
  (forall v p, obs (Player.set_vy v p) = obs p) ->
  (forall v p, obs (Player.set_jumps v p) = obs p) ->
  (forall v p, obs (Player.set_currentPlatform v p) = obs p) ->
  (forall v p, obs (Player.set_color v p) = obs p) ->
  forall m, obs (player (collisionDetection random m)) = obs (player m).
Proof.
  intros. rewrite collisionDetection_landing.
  destruct (landing m); [apply landed_player_obs; assumption | reflexivity].
Qed.

Lemma collisionDetection_heap_obs (A : Type) (obs : Platform.t -> A) :
  (forall v p, obs (Platform.set_landedOn v p) = obs p) ->
  forall m b, obs (heap (collisionDetection random m) b) = obs (heap m b).
Proof.
  intros Hl m b. rewrite collisionDetection_landing.
  destruct (landing m) as [a|]; [|reflexivity].
  rewrite landed_heap. destruct (Platform.landedOn (heap m a)); [reflexivity|].
  unfold store. destruct (Nat.eqb b a) eqn:E; [|reflexivity].
  apply Nat.eqb_eq in E. subst b. apply Hl.
Qed.

(** ** Horizontal movement (C9) *)

Lemma frame_platform_x_vx time s s' a :
  wellFormed s -> state s = playing -> loop random time s = Some s' ->
  In a (platforms s) ->
  Platform.x (heap s' a)
  = Platform.x (movedPlatform (1 + inject_Z (score s) * 0.05)
                  (viewportWidth s) (heap s a))
  /\ Platform.vx (heap s' a)
     = Platform.vx (movedPlatform (1 + inject_Z (score s) * 0.05)
                      (viewportWidth s) (heap s a)).
Proof.
  intros (Hnd & Hlt) Hst Hloop Hin.
  rewrite loop_playing in Hloop by assumption.
  destruct (preCollision random (set_lastTime time s)) as [m|] eqn:Hpre;
    [|discriminate].
  injection Hloop as <-.
  unfold preCollision in Hpre. cbv zeta in Hpre. eng.
  set (sm := 1 + inject_Z (score s) * 0.05) in *.
  set (s1 := movePlatforms sm (set_lastTime time s)) in *.
  assert (Hal : (a < allocated (playerUpdate s1))%nat).
  { unfold playerUpdate, s1. eng.
    rewrite (movePlatforms_frame _ (fun s => allocated s)) by reflexivity.
    eng. apply Hlt, Hin. }
  assert (Hmv : heap s1 a = movedPlatform sm (viewportWidth s) (heap s a)).
  { unfold s1.
    destruct (movePlatforms_at sm (set_lastTime time s)) as (Hh & _);
      [exact Hnd|].
    apply Hh. exact Hin. }
  split.
  - rewrite (finish_frame _ (fun s => Platform.x (heap s a))) by reflexivity.
    rewrite (collisionDetection_heap_obs _ (fun p => Platform.x p))
      by reflexivity.
    rewrite (worldScroll_heap_obs _ (fun p => Platform.x p)
               ltac:(reflexivity) _ _ _ Hpre Hal).
    unfold playerUpdate. eng. rewrite Hmv. reflexivity.
  - rewrite (finish_frame _ (fun s => Platform.vx (heap s a))) by reflexivity.
    rewrite (collisionDetection_heap_obs _ (fun p => Platform.vx p))
      by reflexivity.
    rewrite (worldScroll_heap_obs _ (fun p => Platform.vx p)
               ltac:(reflexivity) _ _ _ Hpre Hal).
    unfold playerUpdate. eng. rewrite Hmv. reflexivity.
Qed.

Lemma frame_player_x time s s' :
  wellFormed s -> state s = playing -> loop random time s = Some s' ->
  Player.x (player s')
  = match Player.currentPlatform (player s) with
    | Some a =>
        if existsb (Nat.eqb a) (platforms s)
           && Qcneqb (Platform.vx (heap s a)) 0
        then Player.x (player s)
             + Platform.vx (heap s a) * (1 + inject_Z (score s) * 0.05)
        else Player.x (player s)
    | None => Player.x (player s)
    end.
Proof.
  intros (Hnd & Hlt) Hst Hloop.
  rewrite loop_playing in Hloop by assumption.
  destruct (preCollision random (set_lastTime time s)) as [m|] eqn:Hpre;
    [|discriminate].
  injection Hloop as <-.
  unfold preCollision in Hpre. cbv zeta in Hpre. eng.
  rewrite (finish_frame _ (fun s => Player.x (player s))) by reflexivity.
  rewrite (collisionDetection_player_obs _ (fun p => Player.x p))
    by reflexivity.
  rewrite (worldScroll_player_obs _ (fun p => Player.x p)
             ltac:(reflexivity) _ _ Hpre).
  unfold playerUpdate. eng.
  rewrite (playerUpdate_obs _ (fun p => Player.x p)) by reflexivity.
  destruct (movePlatforms_at (1 + inject_Z (score s) * 0.05)
              (set_lastTime time s)) as (_ & Hp); [exact Hnd|].
  rewrite Hp. eng.
  destruct (Player.currentPlatform (player s)) as [a|]; [|reflexivity].
  destruct (_ && _); reflexivity.
Qed.

(** C9: in a frame of a playing game, with the speed multiplier
    1 + score * 0.05 of its start, every platform of the array whose
    horizontal velocity is not 0 is moved by velocity times multiplier; if
    it is then at or beyond the left edge it is put at 0, else if its right
    end is at or beyond the viewport width it is put at width minus its own
    width, and in both cases its velocity changes sign; a platform whose
    velocity is 0 stays.  The actor standing on a moving platform of the
    array is moved by the same velocity times multiplier, and is not moved
    otherwise. *)
Theorem platforms_move_and_bounce w h inputs s time s' :
  run random inputs (constructor w h) = Some s ->
  state s = playing -> loop random time s = Some s' ->
  (forall a,
     In a (platforms s) ->
     (Platform.vx (heap s a) = 0 ->
      Platform.x (heap s' a) = Platform.x (heap s a)
      /\ Platform.vx (heap s' a) = 0)
     /\ (Platform.vx (heap s a) <> 0 ->
         let x1 := Platform.x (heap s a)
                   + Platform.vx (heap s a) * (1 + inject_Z (score s) * 0.05) in
         (x1 <= 0 ->
          Platform.x (heap s' a) = 0
          /\ Platform.vx (heap s' a) = Platform.vx (heap s a) * -1)
         /\ (0 < x1 -> viewportWidth s <= x1 + Platform.width (heap s a) ->
             Platform.x (heap s' a)
             = viewportWidth s - Platform.width (heap s a)
             /\ Platform.vx (heap s' a) = Platform.vx (heap s a) * -1)
         /\ (0 < x1 -> x1 + Platform.width (heap s a) < viewportWidth s ->
             Platform.x (heap s' a) = x1
             /\ Platform.vx (heap s' a) = Platform.vx (heap s a))))
  /\ (forall a,
        Player.currentPlatform (player s) = Some a ->
        In a (platforms s) -> Platform.vx (heap s a) <> 0 ->
        Player.x (player s')
        = Player.x (player s)
          + Platform.vx (heap s a) * (1 + inject_Z (score s) * 0.05))
  /\ ((forall a,
         Player.currentPlatform (player s) = Some a ->
         In a (platforms s) -> Platform.vx (heap s a) = 0) ->
      Player.x (player s') = Player.x (player s)).
Proof.
  intros Hrun Hst Hloop.
  pose proof (wellFormed_run _ _ _ _ Hrun) as Hwf.
  split; [|split].
  - intros a Hin.
    destruct (frame_platform_x_vx _ _ _ _ Hwf Hst Hloop Hin) as (-> & ->).
    unfold movedPlatform. cbv zeta. split.
    + intro Hz. rewrite (proj2 (Qcneqb_eq _ _) Hz). auto.
    + intro Hnz. rewrite (proj2 (Qcneqb_neq _ _) Hnz).
      split; [|split].
      * intro H1. rewrite (proj2 (Qcleb_le _ _) H1). eng. auto.
      * intros H1 H2. rewrite (proj2 (Qcleb_nle _ _) H1).
        rewrite (proj2 (Qcleb_le _ _) H2). eng. auto.
      * intros H1 H2. rewrite (proj2 (Qcleb_nle _ _) H1).
        rewrite (proj2 (Qcleb_nle _ _) H2). eng. auto.
  - intros a Hcp Hin Hnz.
    rewrite (frame_player_x _ _ _ Hwf Hst Hloop), Hcp.
    rewrite existsb_eqb_In by exact Hin.
    rewrite (proj2 (Qcneqb_neq _ _) Hnz). reflexivity.
  - intro Hall. rewrite (frame_player_x _ _ _ Hwf Hst Hloop).
    destruct (Player.currentPlatform (player s)) as [a|]; [|reflexivity].
    destruct (existsb (Nat.eqb a) (platforms s)) eqn:Ex; [|reflexivity].
    apply existsb_exists in Ex. destruct Ex as (c & Hc & Ec).
    apply Nat.eqb_eq in Ec. subst c.
    rewrite (proj2 (Qcneqb_eq _ _) (Hall a eq_refl Hc)). reflexivity.
Qed.

(** ** The number of platforms (C5) *)

Lemma six_platforms inputs w h s :
  run random inputs (constructor w h) = Some s ->
  state s <> start -> length (platforms s) = 6%nat.
Proof.
  intro Hrun.
  apply (run_invariant
           (fun s => state s <> start -> length (platforms s) = 6%nat)
           (fun _ => True)) with inputs (constructor w h);
    [|apply Forall_True | cbn; congruence | exact Hrun].
  clear. intros i s s' _ IH Hstep.
  destruct i as [| |time|w h]; cbn [step] in Hstep.
  - injection Hstep as <-. intros _. reflexivity.
  - injection Hstep as <-.
    rewrite (handleInput_frame _ (fun s => state s)) by reflexivity.
    rewrite (handleInput_frame _ (fun s => platforms s)) by reflexivity.
    exact IH.
  - destruct (GameState_playing_dec (state s)) as [Hst|Hst].
    + rewrite loop_playing in Hstep by assumption.
      destruct (preCollision random (set_lastTime time s)) as [m|] eqn:Hpre;
        [|discriminate].
      injection Hstep as <-. intros _.
      rewrite (finish_frame _ (fun s => platforms s)) by reflexivity.
      rewrite (collisionDetection_frame _ (fun s => platforms s))
        by reflexivity.
      assert (H6 : length (platforms s) = 6%nat) by (apply IH; congruence).
      unfold preCollision in Hpre. cbv zeta in Hpre.
      match type of Hpre with
      | worldScroll _ ?bs = _ =>
          assert (Hbs : platforms bs = platforms s)
            by (unfold playerUpdate; eng;
                rewrite (movePlatforms_frame _ (fun s => platforms s))
                  by reflexivity; reflexivity)
      end.
      destruct (worldScroll_cases _ _ Hpre)
        as [(_ & ->) | (_ & first & rest & Hp
                        & [(_ & ->) | (_ & l & f & _ & ->)])].
      * congruence.
      * rewrite (shifted_frame _ (fun s => platforms s)) by reflexivity.
        congruence.
      * unfold spawnPlatform. cbv zeta. eng.
        rewrite Hbs in Hp. rewrite Hp in H6. cbn [length] in H6.
        rewrite length_app. cbn [length]. lia.
    + rewrite loop_idle in Hstep by assumption. injection Hstep as <-.
      rewrite (draw_frame _ (fun s => state s)) by reflexivity.
      rewrite (draw_frame _ (fun s => platforms s)) by reflexivity.
      exact IH.
  - injection Hstep as <-. exact IH.
Qed.

Lemma spawnPlatform_new_y y s a :
  a = allocated s -> Platform.y (heap (spawnPlatform random y s) a) = y.
Proof.
  intros ->. unfold spawnPlatform. cbv zeta. eng. rewrite store_same.
  reflexivity.
Qed.

Lemma six_split (l : list nat) :
  length l = 6%nat ->
  exists first front lastP, l = first :: front ++ [lastP].
Proof.
  intro H.
  destruct l as [|a [|b [|c [|d [|e [|f [|g l]]]]]]]; try discriminate H.
  exists a, [b; c; d; e], f. reflexivity.
Qed.

(** C5, as the code has it: once a game is started the array always holds
    6 platforms.  Every frame of a playing game succeeds and keeps the length
    of the array: when the frame scrolls the world (the actor is above 0.6 of
    the viewport height) and the bottom-most platform, moved down, is then
    beyond the viewport height plus 100, that platform is removed and one new
    platform is put at the end, exactly [PLATFORM_SPACING] above the platform
    that was topmost; in every other frame the array is left as it is. *)
Theorem platform_count_kept w h inputs s :
  run random inputs (constructor w h) = Some s ->
  (state s <> start -> length (platforms s) = 6%nat)
  /\ forall time,
       state s = playing ->
       exists s' first front lastP,
         loop random time s = Some s'
         /\ platforms s = first :: front ++ [lastP]
         /\ length (platforms s') = length (platforms s)
         /\ if scrolls (beforeScroll time s)
               && Qcltb (viewportHeight s + 100) (Platform.y (heap s' first))
            then platforms s' = front ++ [lastP; allocated s]
                 /\ Platform.y (heap s' (allocated s))
                    = Platform.y (heap s' lastP) - PLATFORM_SPACING
            else platforms s' = platforms s.
Proof.
  intro Hrun. split; [apply (six_platforms _ _ _ _ Hrun)|].
  intros time Hst.
  assert (H6 : length (platforms s) = 6%nat)
    by (apply (six_platforms _ _ _ _ Hrun); congruence).
  destruct (six_split _ H6) as (first & front & lastP & Hl).
  destruct (wellFormed_run _ _ _ _ Hrun) as (Hnd & Hlt).
  rewrite loop_playing by assumption.
  change (preCollision random (set_lastTime time s))
    with (worldScroll random (beforeScroll time s)).
  set (bs := beforeScroll time s).
  assert (Hbp : platforms bs = platforms s).
  { unfold bs, beforeScroll, playerUpdate. eng.
    rewrite (movePlatforms_frame _ (fun s => platforms s)) by reflexivity.
    reflexivity. }
  assert (Hba : allocated bs = allocated s).
  { unfold bs, beforeScroll, playerUpdate. eng.
    rewrite (movePlatforms_frame _ (fun s => allocated s)) by reflexivity.
    reflexivity. }
  assert (Hbv : viewportHeight bs = viewportHeight s).
  { unfold bs, beforeScroll, playerUpdate. eng.
    rewrite (movePlatforms_frame _ (fun s => viewportHeight s))
      by reflexivity.
    reflexivity. }
  assert (Hy : forall m b,
            Platform.y (heap (finish random (collisionDetection random m)) b)
            = Platform.y (heap m b)).
  { intros m b.
    rewrite (finish_frame _ (fun s => Platform.y (heap s b))) by reflexivity.
    apply (collisionDetection_heap_obs _ (fun p => Platform.y p)).
    reflexivity. }
  assert (Hpl : forall m,
            platforms (finish random (collisionDetection random m))
            = platforms m).
  { intro m.
    rewrite (finish_frame _ (fun s => platforms s)) by reflexivity.
    apply (collisionDetection_frame _ (fun s => platforms s)); reflexivity. }
  rewrite worldScroll_unfold.
  rewrite (shifted_frame _ (fun s => platforms s)) by reflexivity.
  rewrite (shifted_frame _ (fun s => viewportHeight s)) by reflexivity.
  rewrite Hbp, Hbv, Hl.
  destruct (scrolls bs) eqn:Hsc; cbn [andb].
  - destruct (Qcltb (viewportHeight s + 100)
                (Platform.y (heap (shifted bs) first))) eqn:Hbelow.
    + rewrite rev_app_distr. cbn [rev app].
      eexists _, first, front, lastP.
      split; [reflexivity|]. split; [reflexivity|].
      rewrite Hpl, !Hy.
      assert (Hfirst : (first < allocated s)%nat)
        by (apply Hlt; rewrite Hl; left; reflexivity).
      assert (Hlast : (lastP < allocated s)%nat).
      { apply Hlt. rewrite Hl. right. apply in_or_app. right. left.
        reflexivity. }
      rewrite (spawnPlatform_heap_old _ _ first), 
        (spawnPlatform_heap_old _ _ lastP)
        by (eng; rewrite (shifted_frame _ (fun s => allocated s))
              by reflexivity; rewrite Hba; assumption).
      rewrite (spawnPlatform_new_y _ _ (allocated s))
        by (eng; rewrite (shifted_frame _ (fun s => allocated s))
              by reflexivity; symmetry; exact Hba).
      eng. rewrite Hbelow.
      unfold spawnPlatform. cbv zeta. eng.
      rewrite (shifted_frame _ (fun s => allocated s)) by reflexivity.
      rewrite Hba, <- app_assoc. cbn [app].
      split; [|split; reflexivity].
      rewrite !length_app. cbn [length]. rewrite length_app. cbn [length].
      lia.
    + eexists _, first, front, lastP.
      split; [reflexivity|]. split; [reflexivity|].
      rewrite Hpl, Hy, Hbelow.
      rewrite (shifted_frame _ (fun s => platforms s)) by reflexivity.
      rewrite Hbp, Hl. auto.
  - eexists _, first, front, lastP.
    split; [reflexivity|]. split; [reflexivity|].
    rewrite Hpl, Hbp, Hl. auto.
Qed.

(** ** Stationary and moving platforms (C10) *)

Lemma Qcabs_minus_one : Qcabs (-1) = 1.
Proof. apply Qc_is_canon. reflexivity. Qed.

Lemma Qcabs_one : Qcabs 1 = 1.
Proof. apply Qc_is_canon. reflexivity. Qed.

Lemma Qcabs_flip (v : Qc) : Qcabs (v * -1) = Qcabs v.
Proof. rewrite Qcabs_Qcmult, Qcabs_minus_one. apply Qcmult_1_r. Qed.

Lemma kept_moving p q : kept p q -> moving p -> moving q.
Proof. intros (Hv & _ & _) Hm. unfold moving. rewrite Hv. exact Hm. Qed.

Lemma kept_base p q : kept p q -> stationaryBase p -> stationaryBase q.
Proof.
  intros (_ & Hw & Hz) (Hv & Hp). split; [auto | congruence].
Qed.

Lemma movedPlatform_kept sm vw p : kept p (movedPlatform sm vw p).
Proof.
  unfold movedPlatform, kept. cbv zeta.
  destruct (Qcneqb (Platform.vx p) 0) eqn:Hnz; [|auto].
  apply Qcneqb_neq in Hnz.
  repeat match goal with
  | |- context [if ?c then _ else _] => destruct c
  end; eng; rewrite ?Qcabs_flip; repeat apply conj; try reflexivity;
    intro; contradiction.
Qed.

Section Random.

Hypothesis random_range : unitInterval random.

Lemma spawnPlatform_moving y s a :
  a = allocated s -> moving (heap (spawnPlatform random y s) a).
Proof.
  intros ->. unfold moving, spawnPlatform. cbv zeta. eng.
  rewrite store_same. eng.
  destruct (random_range (4 + randomCalls s)%nat) as (H0 & H1).
  rewrite Qcabs_Qcmult.
  assert (Hs : Qcabs (if Qcltb 0.5 (random (3 + randomCalls s)%nat)
                      then 1 else -1) = 1).
  { destruct (Qcltb _ _); [apply Qcabs_one | apply Qcabs_minus_one]. }
  rewrite Hs, Qcmult_1_l.
  rewrite Qcabs_pos by qc_lra.
  split; qc_lra.
Qed.

Lemma resetGame_spawned s :
  Forall (fun b => moving (heap (resetGame random s) b))
    (let a := allocated s in
     [S a; S (S a); S (S (S a)); S (S (S (S a))); S (S (S (S (S a))))]).
Proof.
  unfold resetGame. cbv zeta. cbn [fold_left].
  repeat constructor;
    repeat (rewrite spawnPlatform_heap_old; [|cbn; lia]);
    apply spawnPlatform_moving; reflexivity.
Qed.

Lemma oneStationary_step i s s' :
  wellFormed s -> oneStationary s -> step random i s = Some s' ->
  oneStationary s'.
Proof.
  intros (Hnd & Hlt) Hone Hstep.
  destruct i as [| |time|w h]; cbn [step] in Hstep.
  - injection Hstep as <-.
    change (oneStationary (resetGame random s)).
    unfold oneStationary. rewrite resetGame_platforms. cbv zeta.
    split; [|apply resetGame_spawned].
    left. rewrite resetGame_base. split; reflexivity.
  - injection Hstep as <-. unfold oneStationary.
    rewrite (handleInput_frame _ (fun s => platforms s)) by reflexivity.
    rewrite (handleInput_frame _ (fun s => heap s)) by reflexivity.
    exact Hone.
  - destruct (GameState_playing_dec (state s)) as [Hst|Hst].
    + rewrite loop_playing in Hstep by assumption.
      destruct (preCollision random (set_lastTime time s)) as [m|] eqn:Hpre;
        [|discriminate].
      injection Hstep as <-.
      unfold preCollision in Hpre. cbv zeta in Hpre. eng.
      set (sm := 1 + inject_Z (score s) * 0.05) in *.
      set (bs := playerUpdate (movePlatforms sm (set_lastTime time s))) in *.
      assert (Hbp : platforms bs = platforms s).
      { unfold bs, playerUpdate. eng.
        rewrite (movePlatforms_frame _ (fun s => platforms s)) by reflexivity.
        reflexivity. }
      assert (Hba : allocated bs = allocated s).
      { unfold bs, playerUpdate. eng.
        rewrite (movePlatforms_frame _ (fun s => allocated s)) by reflexivity.
        reflexivity. }
      assert (Hbk : forall b, kept (heap s b) (heap bs b)).
      { intro b. unfold bs, playerUpdate. eng.
        change (heap s b) with (heap (set_lastTime time s) b).
        apply (movePlatforms_heap_rel kept).
        - intro p. unfold kept. auto.
        - intros p q r (H1 & H2 & H3) (H4 & H5 & H6). unfold kept.
          repeat apply conj; [congruence | congruence | auto].
        - apply movedPlatform_kept. }
      assert (Hfin : forall m0 b,
                kept (heap m0 b)
                  (heap (finish random (collisionDetection random m0)) b)).
      { intros m0 b. unfold kept.
        rewrite (finish_frame _ (fun s => Platform.vx (heap s b)))
          by reflexivity.
        rewrite (finish_frame _ (fun s => Platform.width (heap s b)))
          by reflexivity.
        rewrite (collisionDetection_heap_obs _ (fun p => Platform.vx p))
          by reflexivity.
        rewrite (collisionDetection_heap_obs _ (fun p => Platform.width p))
          by reflexivity.
        auto. }
      assert (Hsh : forall b, kept (heap bs b) (heap (shifted bs) b)).
      { intro b. unfold kept.
        rewrite (shifted_heap_obs _ (fun p => Platform.vx p)) by reflexivity.
        rewrite (shifted_heap_obs _ (fun p => Platform.width p))
          by reflexivity.
        auto. }
      assert (Htrans : forall p q r, kept p q -> kept q r -> kept p r).
      { intros p q r (H1 & H2 & H3) (H4 & H5 & H6). unfold kept.
        repeat apply conj; [congruence | congruence | auto]. }
      unfold oneStationary in *.
      rewrite (finish_frame _ (fun s => platforms s)) by reflexivity.
      rewrite (collisionDetection_frame _ (fun s => platforms s))
        by reflexivity.
      destruct (worldScroll_cases _ _ Hpre)
        as [(_ & ->) | (_ & first & rest & Hp
                        & [(_ & ->) | (_ & l & f & Hrest & ->)])].
      * rewrite Hbp. destruct (platforms s) as [|first rest]; [exact I|].
        destruct Hone as (Hfirst & Hrest). split.
        -- destruct Hfirst as [Hb|Hm];
             [left; eapply kept_base; [|exact Hb]
             |right; eapply kept_moving; [|exact Hm]];
             (eapply Htrans; [apply Hbk | apply Hfin]).
        -- eapply Forall_impl; [|exact Hrest]. intros a Ha.
           eapply kept_moving; [|exact Ha].
           eapply Htrans; [apply Hbk | apply Hfin].
      * rewrite (shifted_frame _ (fun s => platforms s)) by reflexivity.
        rewrite Hbp. destruct (platforms s) as [|first0 rest0]; [exact I|].
        destruct Hone as (Hfirst & Hrest0). split.
        -- destruct Hfirst as [Hb|Hm];
             [left; eapply kept_base; [|exact Hb]
             |right; eapply kept_moving; [|exact Hm]];
             (eapply Htrans; [apply Hbk |];
              eapply Htrans; [apply Hsh | apply Hfin]).
        -- eapply Forall_impl; [|exact Hrest0]. intros a Ha.
           eapply kept_moving; [|exact Ha].
           eapply Htrans; [apply Hbk |].
           eapply Htrans; [apply Hsh | apply Hfin].
      * rewrite Hbp in Hp. rewrite Hp in Hone, Hlt.
        destruct Hone as (_ & Hrest0).
        assert (Hall : Forall
                  (fun a => moving
                     (heap (finish random
                              (collisionDetection random
                                 (spawnPlatform random
                                    (Platform.y (heap (shifted bs) l)
                                     - PLATFORM_SPACING)
                                    (set_platforms rest (shifted bs))))) a))
                  (rest ++ [allocated s])).
        { apply Forall_app. split.
          - rewrite Forall_forall in Hrest0 |- *. intros a Ha.
            eapply kept_moving; [apply Hfin|].
            rewrite spawnPlatform_heap_old.
            + eng. eapply kept_moving; [|apply Hrest0, Ha].
              eapply Htrans; [apply Hbk | apply Hsh].
            + eng.
              rewrite (shifted_frame _ (fun s => allocated s)) by reflexivity.
              rewrite Hba. apply Hlt. right. exact Ha.
          - constructor; [|constructor].
            eapply kept_moving; [apply Hfin|].
            apply spawnPlatform_moving. eng.
            rewrite (shifted_frame _ (fun s => allocated s)) by reflexivity.
            symmetry. exact Hba. }
        unfold spawnPlatform at 1. cbv zeta. eng.
        rewrite (shifted_frame _ (fun s => allocated s)) by reflexivity.
        rewrite Hba.
        destruct rest as [|r0 rest1]; cbn [app] in *.
        -- inversion Hall; subst. split; [right; assumption | constructor].
        -- inversion Hall; subst. split; [right; assumption | assumption].
    + rewrite loop_idle in Hstep by assumption. injection Hstep as <-.
      unfold oneStationary.
      rewrite (draw_frame _ (fun s => platforms s)) by reflexivity.
      rewrite (draw_frame _ (fun s => heap s)) by reflexivity.
      exact Hone.
  - injection Hstep as <-. exact Hone.
Qed.

Lemma oneStationary_run inputs w h s :
  run random inputs (constructor w h) = Some s -> oneStationary s.
Proof.
  intro Hrun.
  assert (H : wellFormed s /\ oneStationary s); [|tauto].
  apply (run_invariant (fun s => wellFormed s /\ oneStationary s)
           (fun _ => True)) with inputs (constructor w h).
  - intros i s0 s1 _ (Hwf & Hone) Hstep. split.
    + eapply wellFormed_step; eassumption.
    + eapply oneStationary_step; eassumption.
  - apply Forall_True.
  - split; [apply wellFormed_constructor | exact I].
  - exact Hrun.
Qed.

(** X3: Only the base platform rests, for [Math.random] in [0, 1): in every
    state of a game only the first platform of the array can be stationary,
    and then it is a base platform (velocity 0, width 200); all the others
    move, with a velocity of magnitude from 2 to 5.  Every platform made by
    [spawnPlatform] has a velocity of magnitude from 2 to 5, and a bounce
    keeps the magnitude.  A start or restart puts first a base platform of
    velocity 0 and width 200, centred in the viewport, with the actor
    attached to it, and five spawned platforms after it. *)
Theorem only_the_base_is_stationary w h inputs s :
  run random inputs (constructor w h) = Some s ->
  oneStationary s
  /\ (forall y, moving (heap (spawnPlatform random y s) (allocated s)))
  /\ exists base others,
       platforms (startGame random s) = base :: others
       /\ length others = 5%nat
       /\ Platform.vx (heap (startGame random s) base) = 0
       /\ Platform.width (heap (startGame random s) base) = 200
       /\ Platform.x (heap (startGame random s) base)
          + Platform.width (heap (startGame random s) base) / 2
          = viewportWidth (startGame random s) / 2
       /\ Player.currentPlatform (player (startGame random s)) = Some base
       /\ Forall (fun a => moving (heap (startGame random s) a)) others.
Proof.
  intro Hrun. split; [apply (oneStationary_run _ _ _ _ Hrun)|].
  split; [intro y; apply spawnPlatform_moving; reflexivity|].
  change (platforms (startGame random s)) with (platforms (resetGame random s)).
  change (heap (startGame random s)) with (heap (resetGame random s)).
  change (player (startGame random s)) with (player (resetGame random s)).
  change (viewportWidth (startGame random s)) with (viewportWidth s).
  rewrite resetGame_platforms. cbv zeta.
  eexists _, _. split; [reflexivity|].
  rewrite resetGame_base, resetGame_player. eng.
  repeat apply conj; try reflexivity.
  - qc_lra.
  - apply resetGame_spawned.
Qed.

End Random.

(** ** The actor at rest (C4) *)

Lemma movePlatforms_player_obs (A : Type) (obs : Player.t -> A) :
  (forall v p, obs (Player.set_x v p) = obs p) ->
  forall sm s, obs (player (movePlatforms sm s)) = obs (player s).
Proof.
  intros Hx sm s.
  apply (movePlatforms_player_rel (fun p q => obs q = obs p)).
  - reflexivity.
  - intros p q r H1 H2. congruence.
  - intros v p. apply Hx.
Qed.

Lemma handleInput_player s :
  player (handleInput random s) = player s
  \/ exists force, player (handleInput random s) = Player.jump force (player s).
Proof.
  unfold handleInput.
  destruct (state s); [left; reflexivity | | left; reflexivity].
  destruct (Player.jumps (player s) <? 2)%Z; [|left; reflexivity].
  right. cbv zeta. confetti. unfold playerJump. eng. eexists. reflexivity.
Qed.

Lemma pinned_worldScroll s m :
  pinned s -> worldScroll random s = Some m -> pinned m.
Proof.
  intros (Hwf & Hh & Hvh & Hatt) E.
  pose proof (wellFormed_worldScroll _ _ Hwf E) as Hwf'.
  destruct Hwf as (Hnd & Hlt).
  split; [exact Hwf'|].
  split.
  { rewrite (worldScroll_player_obs _ (fun p => Player.height p)
               ltac:(reflexivity) _ _ E). exact Hh. }
  split.
  { rewrite (worldScroll_frame _ (fun s => viewportHeight s)
               ltac:(reflexivity) ltac:(reflexivity) ltac:(reflexivity)
               ltac:(reflexivity) ltac:(reflexivity) _ _ E). exact Hvh. }
  assert (Hshift : forall a,
            Player.currentPlatform (player s) = Some a ->
            Player.vy (player (shifted s)) = 0
            /\ Player.y (player (shifted s))
               = Platform.y (heap (shifted s) a)
                 - Player.height (player (shifted s)) / 2
            /\ Platform.y (heap (shifted s) a)
               = viewportHeight s * 0.6 + PLAYER_SIZE / 2).
  { intros a Hcp. destruct (Hatt a Hcp) as (Hin & Hvy & Hy).
    rewrite shifted_player. eng. rewrite shifted_y by assumption.
    rewrite Hy, Hh. repeat apply conj; [exact Hvy | qc_lra | qc_lra]. }
  destruct (worldScroll_cases _ _ E)
    as [(_ & ->) | (_ & first & rest & Hp
                    & [(_ & ->) | (Hbelow & l & f & Hrest & ->)])].
  - exact Hatt.
  - intros a Hcp. rewrite shifted_player in Hcp. eng.
    destruct (Hatt a Hcp) as (Hin & _).
    destruct (Hshift a Hcp) as (H1 & H2 & _).
    rewrite (shifted_frame _ (fun s => platforms s)) by reflexivity.
    auto.
  - intros a Hcp.
    rewrite (spawnPlatform_frame _ (fun s => player s)) in * by reflexivity.
    eng. rewrite shifted_player in Hcp. eng.
    destruct (Hatt a Hcp) as (Hin & _).
    destruct (Hshift a Hcp) as (H1 & H2 & H3).
    assert (Hne : a <> first).
    { intros ->. unfold PLAYER_SIZE in H3. qc_lra. }
    rewrite spawnPlatform_heap_old
      by (eng; rewrite (shifted_frame _ (fun s => allocated s))
            by reflexivity; apply Hlt, Hin).
    unfold spawnPlatform. cbv zeta. eng.
    repeat apply conj; [|exact H1|exact H2].
    apply in_or_app. left. rewrite Hp in Hin.
    destruct Hin as [Hin|Hin]; [congruence | exact Hin].
Qed.


Lemma landed_rest a m :
  Player.currentPlatform (player (landed random a m)) = Some a
  /\ Player.vy (player (landed random a m)) = 0
  /\ Player.jumps (player (landed random a m)) = 0%Z
  /\ Player.y (player (landed random a m))
     = Platform.y (heap m a) - Player.height (player m) / 2.
Proof.
  unfold landed. cbv zeta.
  destruct (negb _).
  - destruct (Qcltb _ _).
    + unfold triggerPerfect. cbv zeta.
      match goal with
      | |- context [if ?c then _ else _] => destruct c
      end; eng; confetti; eng; repeat apply conj; reflexivity.
    + repeat match goal with
      | |- context [if ?c then _ else _] => destruct c
      end; eng; repeat apply conj; reflexivity.
  - eng. repeat apply conj; reflexivity.
Qed.

Lemma pinned_step i s s' :
  viewportOk i -> pinned s -> step random i s = Some s' -> pinned s'.
Proof.
  intros Hok (Hwf & Hh & Hvh & Hatt) Hstep.
  pose proof (wellFormed_step _ _ _ Hwf Hstep) as Hwf'.
  split; [exact Hwf'|].
  destruct i as [| |time|w h]; cbn [step] in Hstep.
  - injection Hstep as <-.
    change (Player.height (player (resetGame random s)) = PLAYER_SIZE
            /\ 0 <= viewportHeight s
            /\ forall a,
                 Player.currentPlatform (player (resetGame random s)) = Some a ->
                 In a (platforms (resetGame random s))
                 /\ Player.vy (player (resetGame random s)) = 0
                 /\ Player.y (player (resetGame random s))
                    = Platform.y (heap (resetGame random s) a)
                      - Player.height (player (resetGame random s)) / 2).
    rewrite resetGame_player, resetGame_platforms. eng. cbv zeta.
    repeat apply conj; [reflexivity | exact Hvh |].
    intros a Ha. injection Ha as <-. rewrite resetGame_base. eng.
    repeat apply conj; [left; reflexivity | reflexivity | reflexivity].
  - injection Hstep as <-. unfold attached.
    rewrite (handleInput_frame _ (fun s => viewportHeight s)) by reflexivity.
    rewrite (handleInput_frame _ (fun s => platforms s)) by reflexivity.
    rewrite (handleInput_frame _ (fun s => heap s)) by reflexivity.
    destruct (handleInput_player s) as [->|(force & ->)].
    + auto.
    + unfold Player.jump. eng. repeat apply conj; [exact Hh | exact Hvh |].
      intros a Ha. discriminate Ha.
  - destruct (GameState_playing_dec (state s)) as [Hst|Hst].
    + rewrite loop_playing in Hstep by assumption.
      destruct (preCollision random (set_lastTime time s)) as [m|] eqn:Hpre;
        [|discriminate].
      injection Hstep as <-.
      unfold preCollision in Hpre. cbv zeta in Hpre. eng.
      set (sm := 1 + inject_Z (score s) * 0.05) in *.
      set (s1 := movePlatforms sm (set_lastTime time s)) in *.
      assert (Hp1 : Player.height (player s1) = Player.height (player s)
                    /\ Player.vy (player s1) = Player.vy (player s)
                    /\ Player.y (player s1) = Player.y (player s)
                    /\ Player.currentPlatform (player s1)
                       = Player.currentPlatform (player s)).
      { unfold s1.
        rewrite (movePlatforms_player_obs _ (fun p => Player.height p))
          by reflexivity.
        rewrite (movePlatforms_player_obs _ (fun p => Player.vy p))
          by reflexivity.
        rewrite (movePlatforms_player_obs _ (fun p => Player.y p))
          by reflexivity.
        rewrite (movePlatforms_player_obs
                   _ (fun p => Player.currentPlatform p)) by reflexivity.
        auto. }
      destruct Hp1 as (Hh1 & Hvy1 & Hy1 & Hcp1).
      assert (Hy1h : forall b, Platform.y (heap s1 b) = Platform.y (heap s b)).
      { intro b. unfold s1.
        rewrite (movePlatforms_heap_obs _ (fun p => Platform.y p))
          by reflexivity.
        reflexivity. }
      assert (Hpl1 : platforms s1 = platforms s).
      { unfold s1.
        rewrite (movePlatforms_frame _ (fun s => platforms s)) by reflexivity.
        reflexivity. }
      assert (Hal1 : allocated s1 = allocated s).
      { unfold s1.
        rewrite (movePlatforms_frame _ (fun s => allocated s)) by reflexivity.
        reflexivity. }
      assert (Hvh1 : viewportHeight s1 = viewportHeight s).
      { unfold s1.
        rewrite (movePlatforms_frame _ (fun s => viewportHeight s))
          by reflexivity.
        reflexivity. }
      assert (Hbs : pinned (playerUpdate s1)).
      { unfold pinned, wellFormed, attached, playerUpdate. eng.
        rewrite Hpl1, Hal1, Hvh1.
        rewrite (playerUpdate_obs _ (fun p => Player.height p))
          by reflexivity.
        rewrite Hh1.
        repeat apply conj; [apply Hwf | apply Hwf | exact Hh | exact Hvh |].
        intros a. unfold Player.update. cbv zeta. rewrite Hcp1.
        destruct (Player.currentPlatform (player s)) as [c|] eqn:Hc.
        - destruct (Hatt c Hc) as (Hin & _).
          destruct (_ || _); eng; intro Ha; [discriminate Ha|].
          rewrite Hcp1 in Ha. injection Ha as <-.
          repeat apply conj;
            [exact Hin | reflexivity | rewrite ?Hh1; reflexivity].
        - eng. rewrite Hcp1. intro Ha. discriminate Ha. }
      pose proof (pinned_worldScroll _ _ Hbs Hpre)
        as (_ & Hhm & Hvhm & Hattm).
      rewrite (finish_frame _ (fun s => Player.height (player s)))
        by reflexivity.
      rewrite (finish_frame _ (fun s => viewportHeight s)) by reflexivity.
      rewrite (collisionDetection_player_obs _ (fun p => Player.height p))
        by reflexivity.
      rewrite (collisionDetection_frame _ (fun s => viewportHeight s))
        by reflexivity.
      repeat apply conj; [exact Hhm | exact Hvhm |].
      unfold attached.
      rewrite (finish_frame _ (fun s => player s)) by reflexivity.
      rewrite (finish_frame _ (fun s => platforms s)) by reflexivity.
      rewrite (finish_frame _ (fun s => heap s)) by reflexivity.
      rewrite (collisionDetection_frame _ (fun s => platforms s))
        by reflexivity.
      intros a.
      rewrite (collisionDetection_heap_obs _ (fun p => Platform.y p))
        by reflexivity.
      rewrite collisionDetection_landing.
      destruct (landing m) as [b|] eqn:Hland; [|apply Hattm].
      destruct (landing_spec _ _ Hland) as (Hin & _).
      destruct (landed_rest b m) as (Hc & Hv & _ & Hy).
      rewrite Hc, Hv, Hy.
      rewrite (landed_player_obs _ (fun p => Player.height p)) by reflexivity.
      intro Ha. injection Ha as <-. auto.
    + rewrite loop_idle in Hstep by assumption. injection Hstep as <-.
      unfold attached.
      rewrite (draw_frame _ (fun s => player s)) by reflexivity.
      rewrite (draw_frame _ (fun s => platforms s)) by reflexivity.
      rewrite (draw_frame _ (fun s => heap s)) by reflexivity.
      rewrite (draw_frame _ (fun s => viewportHeight s)) by reflexivity.
      eng. auto.
  - injection Hstep as <-. unfold attached. eng. cbn in Hok. auto.
Qed.

Lemma pinned_constructor w h : 0 <= h -> pinned (constructor w h).
Proof.
  intro Hh. split; [apply wellFormed_constructor|].
  unfold attached. cbn. repeat apply conj; [reflexivity | exact Hh |].
  intros a Ha. discriminate Ha.
Qed.

Lemma pinned_run inputs w h s :
  0 <= h -> Forall viewportOk inputs ->
  run random inputs (constructor w h) = Some s -> pinned s.
Proof.
  intros Hh Hok Hrun.
  apply (run_invariant pinned viewportOk) with inputs (constructor w h).
  - apply pinned_step.
  - exact Hok.
  - apply pinned_constructor, Hh.
  - exact Hrun.
Qed.

(** X4: The actor at rest: the window height never being negative, after
    any input of a game an actor that has a current platform has no vertical
    velocity and its platform is still in the array: the world scroll, which
    removes the lowest platform once it is far enough below the window,
    never removes the platform the actor stands on.  After a start, and
    after a frame of a playing game in which the actor lands or the world is
    not scrolled, the actor stands on the platform's top, its centre half
    its height (20) above it, as [resetGame], [Player.update] and
    [Player.land] put it there. *)
Theorem actor_rests_on_its_platform w h inputs s i s' a :
  0 <= h -> Forall viewportOk inputs -> viewportOk i ->
  run random inputs (constructor w h) = Some s ->
  step random i s = Some s' ->
  Player.currentPlatform (player s') = Some a ->
  In a (platforms s')
  /\ Player.vy (player s') = 0
  /\ Player.height (player s') = PLAYER_SIZE
  /\ (settles i s ->
      Player.y (player s')
      = Platform.y (heap s' a) - Player.height (player s') / 2).
Proof.
  intros Hh Hok Hi Hrun Hstep Hcp.
  pose proof (pinned_run _ _ _ _ Hh Hok Hrun) as Hs.
  destruct (pinned_step _ _ _ Hi Hs Hstep) as (_ & Hsize & _ & Hatt).
  destruct (Hatt a Hcp) as (Hin & Hvy & Hy).
  refine (conj Hin (conj Hvy (conj Hsize _))). intros _. exact Hy.
Qed.

(** ** No exception *)

Lemma six_step i s s' :
  (state s <> start -> length (platforms s) = 6%nat) ->
  step random i s = Some s' ->
  state s' <> start -> length (platforms s') = 6%nat.
Proof.
  intros IH Hstep.
  destruct i as [| |time|w h]; cbn [step] in Hstep.
  - injection Hstep as <-. intros _. reflexivity.
  - injection Hstep as <-.
    rewrite (handleInput_frame _ (fun s => state s)) by reflexivity.
    rewrite (handleInput_frame _ (fun s => platforms s)) by reflexivity.
    exact IH.
  - destruct (GameState_playing_dec (state s)) as [Hst|Hst].
    + rewrite loop_playing in Hstep by assumption.
      destruct (preCollision random (set_lastTime time s)) as [m|] eqn:Hpre;
        [|discriminate].
      injection Hstep as <-. intros _.
      rewrite (finish_frame _ (fun s => platforms s)) by reflexivity.
      rewrite (collisionDetection_frame _ (fun s => platforms s))
        by reflexivity.
      assert (H6 : length (platforms s) = 6%nat) by (apply IH; congruence).
      unfold preCollision in Hpre. cbv zeta in Hpre.
      match type of Hpre with
      | worldScroll _ ?bs = _ =>
          assert (Hbs : platforms bs = platforms s)
            by (unfold playerUpdate; eng;
                rewrite (movePlatforms_frame _ (fun s => platforms s))
                  by reflexivity; reflexivity)
      end.
      destruct (worldScroll_cases _ _ Hpre)
        as [(_ & ->) | (_ & first & rest & Hp
                        & [(_ & ->) | (_ & l & f & _ & ->)])].
      * congruence.
      * rewrite (shifted_frame _ (fun s => platforms s)) by reflexivity.
        congruence.
      * unfold spawnPlatform. cbv zeta. eng.
        rewrite Hbs in Hp. rewrite Hp in H6. cbn [length] in H6.
        rewrite length_app. cbn [length]. lia.
    + rewrite loop_idle in Hstep by assumption. injection Hstep as <-.
      rewrite (draw_frame _ (fun s => state s)) by reflexivity.
      rewrite (draw_frame _ (fun s => platforms s)) by reflexivity.
      exact IH.
  - injection Hstep as <-. exact IH.
Qed.

Lemma frame_succeeds time s :
  (state s <> start -> length (platforms s) = 6%nat) ->
  exists s', loop random time s = Some s'.
Proof.
  intro H6.
  destruct (GameState_playing_dec (state s)) as [Hst|Hst].
  - rewrite loop_playing by assumption.
    assert (Hl : length (platforms s) = 6%nat) by (apply H6; congruence).
    destruct (six_split _ Hl) as (first & front & lastP & Hp).
    change (preCollision random (set_lastTime time s))
      with (worldScroll random (beforeScroll time s)).
    rewrite worldScroll_unfold.
    rewrite (shifted_frame _ (fun s => platforms s)) by reflexivity.
    assert (Hbp : platforms (beforeScroll time s) = platforms s).
    { unfold beforeScroll, playerUpdate. eng.
      rewrite (movePlatforms_frame _ (fun s => platforms s)) by reflexivity.
      reflexivity. }
    rewrite Hbp, Hp.
    destruct (scrolls _); [|eexists; reflexivity].
    destruct (Qcltb _ _); [|eexists; reflexivity].
    rewrite rev_app_distr. cbn [rev app]. eexists. reflexivity.
  - rewrite loop_idle by assumption. eexists. reflexivity.
Qed.

Lemma run_succeeds inputs s :
  (state s <> start -> length (platforms s) = 6%nat) ->
  exists s', run random inputs s = Some s'.
Proof.
  revert s. induction inputs as [|i inputs IH]; intros s H6; cbn [run].
  - eexists. reflexivity.
  - assert (Hstep : exists s1, step random i s = Some s1).
    { destruct i as [| |time|w h]; cbn [step];
        [eexists; reflexivity | eexists; reflexivity
        | apply frame_succeeds, H6 | eexists; reflexivity]. }
    destruct Hstep as (s1 & E). rewrite E.
    apply IH. exact (six_step _ _ _ H6 E).
Qed.

(** X5: The engine never raises: whatever the window, the random draws and the
    sequence of starts, inputs, frames and resizes, every operation returns.
    The only places that could fail, [this.platforms[0].y] and [lastP.y] in
    the cleanup of the world scroll, are reached in the phase Playing only,
    where the array holds 6 platforms. *)
Theorem engine_never_throws w h inputs :
  exists s, run random inputs (constructor w h) = Some s.
Proof.
  apply run_succeeds. cbn. congruence.
Qed.

(** ** The ladder of platforms *)

Lemma spaced_moved (d : Qc) (h h' : Heap) l :
  (forall a, In a l -> Platform.y (h' a) = Platform.y (h a) + d) ->
  spaced h l -> spaced h' l.
Proof.
  induction l as [|a rest IH]; intros Hy Hs; cbn [spaced] in *; [exact I|].
  destruct Hs as (Hab & Hrest). split.
  - destruct rest as [|b rest']; [exact I|].
    rewrite (Hy a), (Hy b), Hab by (cbn [In]; auto). qc_lra.
  - apply IH; [|exact Hrest]. intros c Hc. apply Hy. right. exact Hc.
Qed.

Lemma spaced_same (h h' : Heap) l :
  (forall a, In a l -> Platform.y (h' a) = Platform.y (h a)) ->
  spaced h l -> spaced h' l.
Proof.
  intros Hy. apply (spaced_moved 0). intros a Ha. rewrite (Hy a Ha). qc_lra.
Qed.

Lemma spaced_snoc (h : Heap) front lastP new :
  spaced h (front ++ [lastP]) ->
  Platform.y (h new) = Platform.y (h lastP) - PLATFORM_SPACING ->
  spaced h (front ++ [lastP; new]).
Proof.
  intros Hs Hn.
  induction front as [|a front IH]; cbn [app spaced] in *.
  - auto.
  - destruct Hs as (Hab & Hrest). split; [|apply IH, Hrest].
    destruct front; exact Hab.
Qed.

Lemma spaced_nth (h : Heap) l i a b :
  spaced h l -> nth_error l i = Some a -> nth_error l (S i) = Some b ->
  Platform.y (h b) = Platform.y (h a) - PLATFORM_SPACING.
Proof.
  revert i. induction l as [|c rest IH]; intros i Hs Ha Hb.
  - destruct i; discriminate Ha.
  - cbn [spaced] in Hs. destruct Hs as (Hcb & Hrest).
    destruct i as [|i]; cbn [nth_error] in Ha, Hb.
    + injection Ha as <-. destruct rest as [|b' rest']; [discriminate Hb|].
      injection Hb as <-. exact Hcb.
    + exact (IH i Hrest Ha Hb).
Qed.

Lemma resetGame_spaced s :
  spaced (heap (resetGame random s)) (platforms (resetGame random s)).
Proof.
  rewrite resetGame_platforms. cbv zeta.
  unfold resetGame. cbv zeta. cbn [fold_left spaced].
  repeat apply conj; try exact I;
    repeat first
      [ rewrite spawnPlatform_new_y by reflexivity
      | rewrite spawnPlatform_heap_old by (cbn; lia) ];
    eng; rewrite ?store_same; eng; unfold PLATFORM_SPACING, inject_Z;
    qc_lra.
Qed.

Lemma spaced_step i s s' :
  wellFormed s -> spaced (heap s) (platforms s) ->
  step random i s = Some s' -> spaced (heap s') (platforms s').
Proof.
  intros (Hnd & Hlt) Hs Hstep.
  destruct i as [| |time|w h]; cbn [step] in Hstep.
  - injection Hstep as <-.
    change (spaced (heap (resetGame random s)) (platforms (resetGame random s))).
    apply resetGame_spaced.
  - injection Hstep as <-.
    rewrite (handleInput_frame _ (fun s => heap s)) by reflexivity.
    rewrite (handleInput_frame _ (fun s => platforms s)) by reflexivity.
    exact Hs.
  - destruct (GameState_playing_dec (state s)) as [Hst|Hst].
    + rewrite loop_playing in Hstep by assumption.
      change (preCollision random (set_lastTime time s))
        with (worldScroll random (beforeScroll time s)) in Hstep.
      destruct (worldScroll random (beforeScroll time s)) as [m|] eqn:Hpre;
        [|discriminate].
      injection Hstep as <-.
      rewrite (finish_frame _ (fun s => platforms s)) by reflexivity.
      rewrite (collisionDetection_frame _ (fun s => platforms s))
        by reflexivity.
      apply (spaced_same (heap m)).
      { intros a _.
        rewrite (finish_frame _ (fun s => Platform.y (heap s a)))
          by reflexivity.
        apply (collisionDetection_heap_obs _ (fun p => Platform.y p)).
        reflexivity. }
      set (bs := beforeScroll time s) in *.
      assert (Hbp : platforms bs = platforms s).
      { unfold bs, beforeScroll, playerUpdate. eng.
        rewrite (movePlatforms_frame _ (fun s => platforms s)) by reflexivity.
        reflexivity. }
      assert (Hba : allocated bs = allocated s).
      { unfold bs, beforeScroll, playerUpdate. eng.
        rewrite (movePlatforms_frame _ (fun s => allocated s)) by reflexivity.
        reflexivity. }
      assert (Hbs : spaced (heap bs) (platforms bs)).
      { rewrite Hbp. apply (spaced_same (heap s)); [|exact Hs].
        intros a _. unfold bs, beforeScroll, playerUpdate. eng.
        rewrite (movePlatforms_heap_obs _ (fun p => Platform.y p))
          by reflexivity.
        reflexivity. }
      assert (Hsh : spaced (heap (shifted bs)) (platforms bs)).
      { apply (spaced_moved
                 (viewportHeight bs * 0.6 - Player.y (player bs)) (heap bs));
          [|exact Hbs].
        intros a Ha. apply shifted_y; [rewrite Hbp; exact Hnd | exact Ha]. }
      destruct (worldScroll_cases _ _ Hpre)
        as [(_ & ->) | (_ & first & rest & Hp
                        & [(_ & ->) | (_ & lastP & front & Hrest & ->)])].
      * exact Hbs.
      * rewrite (shifted_frame _ (fun s => platforms s)) by reflexivity.
        exact Hsh.
      * rewrite Hp in Hsh. cbn [spaced] in Hsh.
        destruct Hsh as (_ & Hsh). rewrite Hrest in Hsh.
        assert (Hlast : (lastP < allocated s)%nat).
        { apply Hlt. rewrite <- Hbp, Hp, Hrest. right.
          apply in_or_app. right. left. reflexivity. }
        unfold spawnPlatform at 2. cbv zeta. eng.
        rewrite (shifted_frame _ (fun s => allocated s)) by reflexivity.
        rewrite Hba, Hrest, <- app_assoc. cbn [app].
        apply spaced_snoc.
        -- apply (spaced_same (heap (shifted bs))); [|exact Hsh].
           intros a Ha.
           rewrite spawnPlatform_heap_old; [reflexivity|].
           eng. rewrite (shifted_frame _ (fun s => allocated s))
             by reflexivity.
           rewrite Hba. apply Hlt. rewrite <- Hbp, Hp, Hrest. right.
           exact Ha.
        -- rewrite (spawnPlatform_new_y _ _ (allocated s))
             by (eng; rewrite (shifted_frame _ (fun s => allocated s))
                   by reflexivity; symmetry; exact Hba).
           rewrite spawnPlatform_heap_old; [reflexivity|].
           eng. rewrite (shifted_frame _ (fun s => allocated s))
             by reflexivity.
           rewrite Hba. exact Hlast.
    + rewrite loop_idle in Hstep by assumption. injection Hstep as <-.
      rewrite (draw_frame _ (fun s => heap s)) by reflexivity.
      rewrite (draw_frame _ (fun s => platforms s)) by reflexivity.
      exact Hs.
  - injection Hstep as <-. exact Hs.
Qed.

Lemma spaced_run inputs w h s :
  run random inputs (constructor w h) = Some s ->
  spaced (heap s) (platforms s).
Proof.
  intro Hrun.
  assert (H : wellFormed s /\ spaced (heap s) (platforms s)); [|apply H].
  apply (run_invariant
           (fun s => wellFormed s /\ spaced (heap s) (platforms s))
           (fun _ => True)) with inputs (constructor w h).
  - intros i s0 s1 _ (Hwf & Hs) Hstep. split.
    + exact (wellFormed_step _ _ _ Hwf Hstep).
    + exact (spaced_step _ _ _ Hwf Hs Hstep).
  - apply Forall_True.
  - split; [apply wellFormed_constructor | exact I].
  - exact Hrun.
Qed.

(** X6: The ladder: in every reachable state the array lists the platforms
    from the bottom up, and no two neighbours overlap or touch: each platform
    lies wholly above the one before it, its lower edge ([y] plus
    [PLATFORM_HEIGHT]) above the other's top.  [resetGame] and the spawn of a
    scroll put each new platform [PLATFORM_SPACING] (150) above the last one,
    the world scroll moves all the platforms of the array down by one
    distance, and nothing else changes a height. *)
Theorem platforms_never_overlap w h inputs s i a b :
  run random inputs (constructor w h) = Some s ->
  nth_error (platforms s) i = Some a ->
  nth_error (platforms s) (S i) = Some b ->
  liesAbove (heap s) b a.
Proof.
  intros Hrun Ha Hb.
  pose proof (spaced_nth _ _ _ _ _ (spaced_run _ _ _ _ Hrun) Ha Hb) as E.
  unfold liesAbove. rewrite E. unfold PLATFORM_SPACING, PLATFORM_HEIGHT. qc_lra.
Qed.

(** ** Counters *)

Lemma landed_shake a m :
  shakeTimer (landed random a m) = shakeTimer m
  \/ shakeTimer (landed random a m) = 10%Z.
Proof.
  unfold landed. cbv zeta.
  destruct (negb _); [|left; reflexivity].
  destruct (Qcltb _ _).
  - right. unfold triggerPerfect. cbv zeta.
    match goal with
    | |- context [if ?c then _ else _] => destruct c
    end; eng; confetti; reflexivity.
  - left.
    repeat match goal with
    | |- context [if ?c then _ else _] => destruct c
    end; reflexivity.
Qed.

Lemma finish_shake m :
  shakeTimer (finish random m)
  = (if 0 <? shakeTimer m then shakeTimer m - 1 else shakeTimer m)%Z.
Proof.
  unfold finish.
  rewrite (draw_frame _ (fun s => shakeTimer s)) by reflexivity.
  unfold updateCosmetics. cbv zeta.
  match goal with
  | |- context [(shakeTimer ?e - 1)%Z] => set (x := e)
  end.
  assert (Hx : shakeTimer x = shakeTimer m).
  { unfold x. eng.
    apply (fallOff_frame _ (fun s => shakeTimer s)); reflexivity. }
  rewrite <- Hx. destruct (0 <? shakeTimer x)%Z; reflexivity.
Qed.

Lemma frame_shake time s s' :
  state s = playing -> loop random time s = Some s' ->
  (0 <= shakeTimer s <= 10)%Z -> (0 <= shakeTimer s' <= 10)%Z.
Proof.
  intros Hst Hloop Hb. rewrite loop_playing in Hloop by assumption.
  destruct (preCollision random (set_lastTime time s)) as [m|] eqn:Hpre;
    [|discriminate].
  injection Hloop as <-.
  pose proof (preCollision_frame _ (fun s => shakeTimer s)
                ltac:(reflexivity) ltac:(reflexivity) ltac:(reflexivity)
                ltac:(reflexivity) ltac:(reflexivity) _ _ Hpre) as Hsh.
  eng. rewrite finish_shake, collisionDetection_landing.
  destruct (landing m) as [a|].
  - destruct (landed_shake a m) as [-> | ->].
    + rewrite Hsh. destruct (Z.ltb_spec 0 (shakeTimer s)); lia.
    + cbn. lia.
  - rewrite Hsh. destruct (Z.ltb_spec 0 (shakeTimer s)); lia.
Qed.

Lemma counted_step i s s' :
  counted s -> step random i s = Some s' -> counted s'.
Proof.
  intros (Hf & Hb & Hk) Hstep.
  destruct i as [| |time|w h]; cbn [step] in Hstep.
  - injection Hstep as <-.
    destruct (startGame_scoring s) as (_ & _ & Hsc & Hps & Hfv).
    unfold counted. rewrite Hsc, Hps, Hfv.
    assert (Hsh : shakeTimer (startGame random s) = shakeTimer s).
    { unfold startGame, resetGame. cbv zeta. cbn [fold_left]. eng.
      repeat rewrite (spawnPlatform_frame _ (fun s => shakeTimer s))
        by reflexivity.
      reflexivity. }
    rewrite Hsh. repeat apply conj; try reflexivity; lia.
  - injection Hstep as <-. unfold counted.
    rewrite (handleInput_frame _ (fun s => score s)) by reflexivity.
    rewrite (handleInput_frame _ (fun s => perfectStreak s)) by reflexivity.
    rewrite (handleInput_frame _ (fun s => isFever s)) by reflexivity.
    rewrite (handleInput_frame _ (fun s => shakeTimer s)) by reflexivity.
    auto.
  - destruct (GameState_playing_dec (state s)) as [Hst|Hst].
    + pose proof (frame_shake _ _ _ Hst Hstep Hk) as Hk'.
      destruct (frame_effect _ _ _ Hst Hstep)
        as (ld & fell & _ & _ & Hsc & Hps & Hfv).
      unfold counted. rewrite Hsc, Hps, Hfv, Hf.
      unfold FEVER_THRESHOLD in *.
      split; [|split; [|exact Hk']].
      * destruct ld as [[[|] [|]]|]; try reflexivity.
        -- destruct (Z.leb_spec 3 (perfectStreak s + 1));
             destruct (Z.leb_spec 3 (perfectStreak s)); try reflexivity; lia.
        -- destruct (Z.ltb_spec 0 (perfectStreak s)); [reflexivity|].
           destruct (Z.leb_spec 3 (perfectStreak s)); [lia | reflexivity].
      * destruct ld as [[[|] [|]]|]; try lia.
        destruct (Z.ltb_spec 0 (perfectStreak s)); lia.
    + rewrite loop_idle in Hstep by assumption. injection Hstep as <-.
      unfold counted.
      rewrite (draw_frame _ (fun s => score s)) by reflexivity.
      rewrite (draw_frame _ (fun s => perfectStreak s)) by reflexivity.
      rewrite (draw_frame _ (fun s => isFever s)) by reflexivity.
      rewrite (draw_frame _ (fun s => shakeTimer s)) by reflexivity.
      eng. auto.
  - injection Hstep as <-. unfold counted, resize. eng. auto.
Qed.

Lemma counted_run inputs w h s :
  run random inputs (constructor w h) = Some s -> counted s.
Proof.
  intro Hrun.
  apply (run_invariant counted (fun _ => True)) with inputs (constructor w h).
  - intros i s0 s1 _. apply counted_step.
  - apply Forall_True.
  - unfold counted. cbn. repeat apply conj; try reflexivity; lia.
  - exact Hrun.
Qed.

(** X7: Fever and streak: in every reachable state the fever flag is on
    exactly when the perfect streak has reached [FEVER_THRESHOLD] (3); the
    streak is never negative and never exceeds the raw score; the shake timer
    stays between 0 and 10. The flag is only written next to the streak, in
    [triggerPerfect], in the branch of an imperfect first landing and in
    [resetGame]. *)
Theorem fever_tracks_the_streak w h inputs s :
  run random inputs (constructor w h) = Some s ->
  (isFever s = true <-> (FEVER_THRESHOLD <= perfectStreak s)%Z)
  /\ (0 <= perfectStreak s <= score s)%Z
  /\ (0 <= shakeTimer s <= 10)%Z.
Proof.
  intro Hrun. destruct (counted_run _ _ _ _ Hrun) as (Hf & Hb & Hk).
  split; [|split; assumption].
  rewrite Hf. apply Z.leb_le.
Qed.

(** ** The actor *)

Lemma handleInput_jump s :
  player (handleInput random s) = player s
  \/ ((Player.jumps (player s) < 2)%Z
      /\ exists force,
           player (handleInput random s) = Player.jump force (player s)).
Proof.
  unfold handleInput.
  destruct (state s); [left; reflexivity | | left; reflexivity].
  destruct (Z.ltb_spec (Player.jumps (player s)) 2); [|left; reflexivity].
  right. split; [assumption|].
  cbv zeta. confetti. unfold playerJump. eng. eexists. reflexivity.
Qed.

Lemma nimble_update h pl : nimble pl -> nimble (Player.update h pl).
Proof.
  intros (Hvx & Hw & Hh & Hj & Hc). unfold nimble.
  rewrite (playerUpdate_obs _ (fun p => Player.vx p)) by reflexivity.
  rewrite (playerUpdate_obs _ (fun p => Player.width p)) by reflexivity.
  rewrite (playerUpdate_obs _ (fun p => Player.height p)) by reflexivity.
  rewrite (playerUpdate_obs _ (fun p => Player.jumps p)) by reflexivity.
  refine (conj Hvx (conj Hw (conj Hh (conj Hj _)))).
  intro Hn. apply Hc. intro E. apply Hn.
  unfold Player.update. rewrite E. cbv zeta. eng. exact E.
Qed.

Lemma nimble_step i s s' :
  nimble (player s) -> step random i s = Some s' -> nimble (player s').
Proof.
  intros Hn Hstep.
  destruct i as [| |time|w h]; cbn [step] in Hstep.
  - injection Hstep as <-.
    change (nimble (player (resetGame random s))).
    rewrite resetGame_player. unfold nimble. eng.
    refine (conj eq_refl (conj eq_refl (conj eq_refl (conj _ _))));
      [lia | reflexivity].
  - injection Hstep as <-.
    destruct (handleInput_jump s) as [-> | (Hlt & force & ->)];
      [exact Hn|].
    destruct Hn as (Hvx & Hw & Hh & Hj & Hc). unfold nimble. eng.
    refine (conj Hvx (conj Hw (conj Hh (conj _ _)))); [lia|].
    intro Hnn. contradiction Hnn. reflexivity.
  - destruct (GameState_playing_dec (state s)) as [Hst|Hst].
    + rewrite loop_playing in Hstep by assumption.
      destruct (preCollision random (set_lastTime time s)) as [m|] eqn:Hpre;
        [|discriminate].
      injection Hstep as <-.
      rewrite (finish_frame _ (fun s => player s)) by reflexivity.
      assert (Hm : nimble (player m)).
      { unfold preCollision in Hpre. cbv zeta in Hpre.
        assert (Hu : nimble (player (playerUpdate
                       (movePlatforms (1 + inject_Z (score (set_lastTime time s)) * 0.05)
                          (set_lastTime time s))))).
        { unfold playerUpdate. eng. apply nimble_update.
          destruct Hn as (Hvx & Hw & Hh & Hj & Hc). unfold nimble.
          rewrite (movePlatforms_player_obs _ (fun p => Player.vx p))
            by reflexivity.
          rewrite (movePlatforms_player_obs _ (fun p => Player.width p))
            by reflexivity.
          rewrite (movePlatforms_player_obs _ (fun p => Player.height p))
            by reflexivity.
          rewrite (movePlatforms_player_obs _ (fun p => Player.jumps p))
            by reflexivity.
          rewrite (movePlatforms_player_obs
                     _ (fun p => Player.currentPlatform p)) by reflexivity.
          eng. exact (conj Hvx (conj Hw (conj Hh (conj Hj Hc)))). }
        destruct Hu as (Hvx & Hw & Hh & Hj & Hc). unfold nimble.
        rewrite (worldScroll_player_obs _ (fun p => Player.vx p)
                   ltac:(reflexivity) _ _ Hpre).
        rewrite (worldScroll_player_obs _ (fun p => Player.width p)
                   ltac:(reflexivity) _ _ Hpre).
        rewrite (worldScroll_player_obs _ (fun p => Player.height p)
                   ltac:(reflexivity) _ _ Hpre).
        rewrite (worldScroll_player_obs _ (fun p => Player.jumps p)
                   ltac:(reflexivity) _ _ Hpre).
        rewrite (worldScroll_player_obs _ (fun p => Player.currentPlatform p)
                   ltac:(reflexivity) _ _ Hpre).
        exact (conj Hvx (conj Hw (conj Hh (conj Hj Hc)))). }
      destruct Hm as (Hvx & Hw & Hh & Hj & Hc). unfold nimble.
      rewrite (collisionDetection_player_obs _ (fun p => Player.vx p))
        by reflexivity.
      rewrite (collisionDetection_player_obs _ (fun p => Player.width p))
        by reflexivity.
      rewrite (collisionDetection_player_obs _ (fun p => Player.height p))
        by reflexivity.
      rewrite collisionDetection_landing.
      destruct (landing m) as [b|].
      * destruct (landed_rest b m) as (_ & _ & -> & _).
        refine (conj Hvx (conj Hw (conj Hh (conj _ _)))); [lia|].
        intros _. reflexivity.
      * exact (conj Hvx (conj Hw (conj Hh (conj Hj Hc)))).
    + rewrite loop_idle in Hstep by assumption. injection Hstep as <-.
      rewrite (draw_frame _ (fun s => player s)) by reflexivity.
      exact Hn.
  - injection Hstep as <-. exact Hn.
Qed.

Lemma nimble_run inputs w h s :
  run random inputs (constructor w h) = Some s -> nimble (player s).
Proof.
  intro Hrun.
  apply (run_invariant (fun s => nimble (player s)) (fun _ => True))
    with inputs (constructor w h).
  - intros i s0 s1 _. apply nimble_step.
  - apply Forall_True.
  - unfold nimble. cbn.
    refine (conj eq_refl (conj eq_refl (conj eq_refl (conj _ _))));
      [lia | reflexivity].
  - exact Hrun.
Qed.

(** X8: The jump budget: in every reachable state the jump-count is 0, 1 or 2
    and it is 0 whenever the actor stands on a platform, so that between two
    landings at most two jumps are taken, and an actor that slides off its
    platform's edge still has both. The actor never gets a horizontal velocity
    of its own and keeps its size of [PLAYER_SIZE] by [PLAYER_SIZE]. *)
Theorem at_most_two_jumps_in_the_air w h inputs s :
  run random inputs (constructor w h) = Some s ->
  (0 <= Player.jumps (player s) <= 2)%Z
  /\ (Player.currentPlatform (player s) <> None ->
      Player.jumps (player s) = 0%Z)
  /\ Player.vx (player s) = 0
  /\ Player.width (player s) = PLAYER_SIZE
  /\ Player.height (player s) = PLAYER_SIZE.
Proof.
  intro Hrun. destruct (nimble_run _ _ _ _ Hrun) as (Hvx & Hw & Hh & Hj & Hc).
  exact (conj Hj (conj Hc (conj Hvx (conj Hw Hh)))).
Qed.

(** ** The phases *)

Lemma handleInput_idle s : state s <> playing -> handleInput random s = s.
Proof.
  intro H. unfold handleInput. destruct (state s); congruence.
Qed.

Lemma started_step i s s' :
  state s <> start -> step random i s = Some s' -> state s' <> start.
Proof.
  intros Hs Hstep.
  destruct i as [| |time|w h]; cbn [step] in Hstep.
  - injection Hstep as <-.
    destruct (startGame_scoring s) as (_ & -> & _). discriminate.
  - injection Hstep as <-.
    rewrite (handleInput_frame _ (fun s => state s)) by reflexivity.
    exact Hs.
  - destruct (GameState_playing_dec (state s)) as [Hst|Hst].
    + destruct (frame_effect _ _ _ Hst Hstep) as (ld & fell & _ & -> & _).
      destruct fell; discriminate.
    + rewrite loop_idle in Hstep by assumption. injection Hstep as <-.
      rewrite (draw_frame _ (fun s => state s)) by reflexivity.
      exact Hs.
  - injection Hstep as <-. exact Hs.
Qed.

Lemma started_run inputs s s' :
  state s <> start -> run random inputs s = Some s' -> state s' <> start.
Proof.
  intros Hs Hrun.
  apply (run_invariant (fun s => state s <> start) (fun _ => True))
    with inputs s.
  - intros i s0 s1 _. apply started_step.
  - apply Forall_True.
  - exact Hs.
  - exact Hrun.
Qed.

Lemma untouched_step i s s' :
  i <> StartGame -> untouched s -> step random i s = Some s' -> untouched s'.
Proof.
  intros Hi Hu Hstep.
  assert (Hidle : state s <> playing).
  { destruct Hu as (-> & _). discriminate. }
  destruct i as [| |time|w h]; cbn [step] in Hstep.
  - contradiction Hi. reflexivity.
  - injection Hstep as <-. rewrite handleInput_idle by exact Hidle. exact Hu.
  - rewrite loop_idle in Hstep by exact Hidle. injection Hstep as <-.
    unfold untouched in *.
    rewrite (draw_frame _ (fun s => state s)) by reflexivity.
    rewrite (draw_frame _ (fun s => trace s)) by reflexivity.
    rewrite (draw_frame _ (fun s => platforms s)) by reflexivity.
    rewrite (draw_frame _ (fun s => particles s)) by reflexivity.
    rewrite (draw_frame _ (fun s => floatingTexts s)) by reflexivity.
    rewrite (draw_frame _ (fun s => allocated s)) by reflexivity.
    rewrite (draw_frame _ (fun s => score s)) by reflexivity.
    rewrite (draw_frame _ (fun s => shakeTimer s)) by reflexivity.
    rewrite (draw_frame _ (fun s => player s)) by reflexivity.
    unfold draw. eng.
    destruct Hu as (H1 & H2 & H3 & H4 & H5 & H6 & H7 & H8 & H9 & H10).
    rewrite H9. cbn [Z.ltb Z.compare]. eng.
    exact (conj H1 (conj H2 (conj H3 (conj H4 (conj H5 (conj H6
            (conj H7 (conj H8 (conj eq_refl H10))))))))).
  - injection Hstep as <-. exact Hu.
Qed.

Lemma untouched_run inputs s s' :
  untouched s -> run random inputs s = Some s' ->
  (~ In StartGame inputs -> untouched s')
  /\ (In StartGame inputs -> state s' <> start).
Proof.
  revert s. induction inputs as [|i inputs IH]; intros s Hu Hrun;
    cbn [run] in Hrun.
  - injection Hrun as <-. split; [intros _; exact Hu | intros []].
  - destruct (step random i s) as [s1|] eqn:Hstep; [|discriminate Hrun].
    assert (Hdec : i = StartGame \/ i <> StartGame)
      by (destruct i; auto; right; discriminate).
    destruct Hdec as [-> | Hi].
    + split.
      * intro Hn. contradiction Hn. left. reflexivity.
      * intros _. apply (started_run inputs s1); [|exact Hrun].
        cbn [step] in Hstep. injection Hstep as <-.
        destruct (startGame_scoring s) as (_ & -> & _). discriminate.
    + pose proof (untouched_step _ _ _ Hi Hu Hstep) as Hu1.
      destruct (IH _ Hu1 Hrun) as (Hn & Hy). split.
      * intro Hni. apply Hn. intro Hin. apply Hni. right. exact Hin.
      * intros [E | Hin]; [congruence | exact (Hy Hin)].
Qed.

(** X9: Before the first game: the phase is [start] exactly as long as no
    [startGame] has been called, and until then inputs, frames and resizes
    leave the engine as the constructor made it, but for the window size and
    the time of the last frame: no callback is called, no sound is asked for,
    no random number is drawn, there is no platform and the actor stays at the
    origin. Once a game has been started the phase is never [start] again. *)
Theorem nothing_happens_before_the_start w h inputs s :
  run random inputs (constructor w h) = Some s ->
  (state s = start <-> ~ In StartGame inputs)
  /\ (state s = start ->
      trace s = nil /\ platforms s = nil /\ particles s = nil
      /\ randomCalls s = 0%nat /\ score s = 0%Z
      /\ player s = Player.new 0 0).
Proof.
  intro Hrun.
  assert (H0 : untouched (constructor w h)).
  { unfold untouched. cbn. repeat apply conj; reflexivity. }
  destruct (untouched_run _ _ _ H0 Hrun) as (Hn & Hy).
  assert (Hiff : state s = start <-> ~ In StartGame inputs).
  { split.
    - intros Hs Hin. exact (Hy Hin Hs).
    - intro Hni. apply (Hn Hni). }
  split; [exact Hiff|].
  intro Hs. apply Hiff in Hs.
  destruct (Hn Hs) as (_ & H2 & H3 & H4 & _ & H6 & _ & H8 & _ & H10).
  exact (conj H2 (conj H3 (conj H4 (conj H6 (conj H8 H10))))).
Qed.

(** ** Sounds *)

Lemma soundsAfterInit_app ev old :
  In AudioInit old -> soundsAfterInit old -> soundsAfterInit (ev ++ old).
Proof.
  intros Hin Hold. induction ev as [|e ev IH]; cbn [app soundsAfterInit].
  - exact Hold.
  - split; [|exact IH]. intros _. apply in_or_app. right. exact Hin.
Qed.

Lemma sounds_step i s s' :
  soundsAfterInit (trace s) /\ (state s <> start -> In AudioInit (trace s)) ->
  step random i s = Some s' ->
  soundsAfterInit (trace s') /\ (state s' <> start -> In AudioInit (trace s')).
Proof.
  intros (Hs & Hi) Hstep.
  destruct i as [| |time|w h]; cbn [step] in Hstep.
  - injection Hstep as <-.
    destruct (startGame_scoring s) as (-> & _).
    cbn [soundsAfterInit isSound In].
    split; [|intros _; left; reflexivity].
    repeat apply conj; try discriminate. exact Hs.
  - injection Hstep as <-.
    rewrite (handleInput_frame _ (fun s => state s)) by reflexivity.
    destruct (GameState_playing_dec (state s)) as [Hst|Hst].
    + assert (Ha : In AudioInit (trace s)) by (apply Hi; congruence).
      destruct (handleInput_trace s) as [-> | ->].
      * split; assumption.
      * cbn [soundsAfterInit In]. split; [split; auto|]. intros _.
        right. exact Ha.
    + rewrite handleInput_idle by exact Hst. split; assumption.
  - destruct (GameState_playing_dec (state s)) as [Hst|Hst].
    + assert (Ha : In AudioInit (trace s)) by (apply Hi; congruence).
      destruct (frame_effect _ _ _ Hst Hstep) as (ld & fell & -> & _).
      split.
      * apply soundsAfterInit_app; assumption.
      * intros _. apply in_or_app. right. exact Ha.
    + rewrite loop_idle in Hstep by assumption. injection Hstep as <-.
      rewrite (draw_frame _ (fun s => state s)) by reflexivity.
      rewrite (draw_frame _ (fun s => trace s)) by reflexivity.
      split; assumption.
  - injection Hstep as <-. split; assumption.
Qed.

Lemma sounds_run inputs w h s :
  run random inputs (constructor w h) = Some s ->
  soundsAfterInit (trace s) /\ (state s <> start -> In AudioInit (trace s)).
Proof.
  intro Hrun.
  apply (run_invariant
           (fun s => soundsAfterInit (trace s)
                     /\ (state s <> start -> In AudioInit (trace s)))
           (fun _ => True)) with inputs (constructor w h).
  - intros i s0 s1 _. apply sounds_step.
  - apply Forall_True.
  - cbn. split; [exact I | congruence].
  - exact Hrun.
Qed.

Lemma start_trace inputs w h s :
  run random inputs (constructor w h) = Some s ->
  state s = start -> trace s = nil.
Proof.
  intros Hrun Hs.
  assert (H0 : untouched (constructor w h)).
  { unfold untouched. cbn. repeat apply conj; reflexivity. }
  destruct (untouched_run _ _ _ H0 Hrun) as (Hn & Hy).
  assert (Hni : ~ In StartGame inputs).
  { intro Hin. exact (Hy Hin Hs). }
  destruct (Hn Hni) as (_ & Ht & _). exact Ht.
Qed.

(** ** Platforms, old and new *)

Lemma spawnPlatform_new y s :
  heap (spawnPlatform random y s) (allocated s)
  = spawned random (randomCalls s) (viewportWidth s) y.
Proof.
  unfold spawnPlatform, spawned. cbv zeta. eng. rewrite store_same.
  reflexivity.
Qed.

Lemma resetGame_made s b :
  (allocated s <= b < allocated (resetGame random s))%nat ->
  heap (resetGame random s) b
  = basePlatform (viewportWidth s) (viewportHeight s)
  \/ exists n y,
       heap (resetGame random s) b = spawned random n (viewportWidth s) y.
Proof.
  rewrite resetGame_allocated. intro Hb.
  assert (Hcases : b = allocated s \/ b = S (allocated s)
                   \/ b = S (S (allocated s)) \/ b = S (S (S (allocated s)))
                   \/ b = S (S (S (S (allocated s))))
                   \/ b = S (S (S (S (S (allocated s)))))) by lia.
  destruct Hcases as [-> | Hcases].
  { left. apply resetGame_base. }
  right. unfold resetGame. cbv zeta. cbn [fold_left].
  destruct Hcases as [-> | [-> | [-> | [-> | ->]]]];
    repeat (rewrite spawnPlatform_heap_old; [|cbn; lia]);
    match goal with
    | |- exists n y, heap (spawnPlatform _ ?y0 ?s0) _ = _ =>
        exists (randomCalls s0), y0;
        change (viewportWidth s) with (viewportWidth s0);
        exact (spawnPlatform_new y0 s0)
    end.
Qed.

(** What [x], [vx], [y] and [landedOn] do not decide is decided when the
    platform is made. *)
Lemma step_heap_made (A : Type) (obs : Platform.t -> A) :
  (forall v p, obs (Platform.set_x v p) = obs p) ->
  (forall v p, obs (Platform.set_vx v p) = obs p) ->
  (forall v p, obs (Platform.set_y v p) = obs p) ->
  (forall v p, obs (Platform.set_landedOn v p) = obs p) ->
  forall i s s' b,
    step random i s = Some s' -> (b < allocated s')%nat ->
    ((b < allocated s)%nat /\ obs (heap s' b) = obs (heap s b))
    \/ obs (heap s' b) = obs (basePlatform (viewportWidth s) (viewportHeight s))
    \/ exists n y, obs (heap s' b) = obs (spawned random n (viewportWidth s) y).
Proof.
  intros Hx Hvx Hy Hl i s s' b Hstep Hb.
  destruct i as [| |time|w h]; cbn [step] in Hstep.
  - injection Hstep as <-.
    change (heap (startGame random s)) with (heap (resetGame random s)).
    change (allocated (startGame random s))
      with (allocated (resetGame random s)) in Hb.
    destruct (Nat.lt_ge_cases b (allocated s)) as [Hold|Hnew].
    + left. split; [exact Hold|]. rewrite resetGame_heap_old by exact Hold.
      reflexivity.
    + right. destruct (resetGame_made s b (conj Hnew Hb)) as [-> | (n & y & ->)].
      * left. reflexivity.
      * right. exists n, y. reflexivity.
  - injection Hstep as <-. left.
    rewrite (handleInput_frame _ (fun s => allocated s)) in Hb by reflexivity.
    rewrite (handleInput_frame _ (fun s => heap s)) by reflexivity.
    split; [exact Hb | reflexivity].
  - destruct (GameState_playing_dec (state s)) as [Hst|Hst].
    + rewrite loop_playing in Hstep by assumption.
      change (preCollision random (set_lastTime time s))
        with (worldScroll random (beforeScroll time s)) in Hstep.
      destruct (worldScroll random (beforeScroll time s)) as [m|] eqn:Hpre;
        [|discriminate].
      injection Hstep as <-.
      rewrite (finish_frame _ (fun s => allocated s)) in Hb by reflexivity.
      rewrite (collisionDetection_frame _ (fun s => allocated s)) in Hb
        by reflexivity.
      rewrite (finish_frame _ (fun s => obs (heap s b))) by reflexivity.
      rewrite (collisionDetection_heap_obs _ obs) by exact Hl.
      set (bs := beforeScroll time s) in *.
      assert (Hba : allocated bs = allocated s).
      { unfold bs, beforeScroll, playerUpdate. eng.
        rewrite (movePlatforms_frame _ (fun s => allocated s)) by reflexivity.
        reflexivity. }
      assert (Hbw : viewportWidth bs = viewportWidth s).
      { unfold bs, beforeScroll, playerUpdate. eng.
        rewrite (movePlatforms_frame _ (fun s => viewportWidth s))
          by reflexivity.
        reflexivity. }
      assert (Hbo : obs (heap bs b) = obs (heap s b)).
      { unfold bs, beforeScroll, playerUpdate. eng.
        rewrite (movePlatforms_heap_obs _ obs) by assumption.
        reflexivity. }
      destruct (Nat.lt_ge_cases b (allocated s)) as [Hold|Hnew].
      * left. split; [exact Hold|].
        rewrite (worldScroll_heap_obs _ obs Hy _ _ _ Hpre)
          by (rewrite Hba; exact Hold).
        exact Hbo.
      * right. right.
        destruct (worldScroll_cases _ _ Hpre)
          as [(_ & ->) | (_ & first & rest & Hp
                          & [(_ & ->) | (_ & lastP & front & Hrest & ->)])].
        -- rewrite Hba in Hb. lia.
        -- rewrite (shifted_frame _ (fun s => allocated s)) in Hb
             by reflexivity.
           rewrite Hba in Hb. lia.
        -- assert (Hsa : allocated (shifted bs) = allocated s).
           { rewrite (shifted_frame _ (fun s => allocated s)) by reflexivity.
             exact Hba. }
           assert (E : b = allocated s).
           { unfold spawnPlatform in Hb. cbv zeta in Hb.
             cbn [allocated set_platforms set_allocated set_heap
                  set_randomCalls] in Hb.
             rewrite Hsa in Hb. lia. }
           subst b.
           replace (allocated s)
             with (allocated (set_platforms rest (shifted bs)))
             by exact Hsa.
           rewrite spawnPlatform_new.
           eexists _, _.
           replace (viewportWidth (set_platforms rest (shifted bs)))
             with (viewportWidth s); [reflexivity|].
           eng. rewrite (shifted_frame _ (fun s => viewportWidth s))
             by reflexivity.
           symmetry. exact Hbw.
    + rewrite loop_idle in Hstep by assumption. injection Hstep as <-. left.
      rewrite (draw_frame _ (fun s => allocated s)) in Hb by reflexivity.
      rewrite (draw_frame _ (fun s => heap s)) by reflexivity.
      split; [exact Hb | reflexivity].
  - injection Hstep as <-. left. split; [exact Hb | reflexivity].
Qed.

Section Shapes.

Hypothesis random_range : unitInterval random.

Lemma palette_floor (r : Qc) :
  0 <= r -> r < 1 ->
  In (palette (Qcfloor (r * inject_Z (Z.of_nat (List.length PLATFORM_COLORS)))))
    PLATFORM_COLORS.
Proof.
  intros H0 H1. cbn [PLATFORM_COLORS List.length Z.of_nat Pos.of_succ_nat
                     Pos.succ].
  set (k := Qcfloor (r * inject_Z 4)).
  assert (Hk : (0 <= k < 4)%Z).
  { unfold k, Qcfloor. split.
    - change 0%Z with (Qfloor 0). apply Qfloor_resp_le.
      unfold Qcle in H0. rewrite this_mul, this_Q2Qc.
      change (this 0) with 0%Q in H0. unfold inject_Z.
      nra.
    - rewrite Zlt_Qlt.
      eapply Qle_lt_trans; [apply Qfloor_le|].
      unfold Qclt in H1. rewrite this_mul, this_Q2Qc.
      change (this 1) with 1%Q in H1. unfold inject_Z. nra. }
  unfold palette.
  destruct (Z.ltb_spec k 0); [lia|].
  assert (Hc : k = 0%Z \/ k = 1%Z \/ k = 2%Z \/ k = 3%Z) by lia.
  destruct Hc as [-> | [-> | [-> | ->]]]; cbn; auto.
Qed.

Lemma spawned_shaped n vw y : shaped (spawned random n vw y).
Proof.
  unfold shaped, spawned. cbv zeta. eng.
  destruct (random_range n) as (H0 & H1).
  destruct (random_range (2 + n)%nat) as (H2 & H3).
  unfold PLATFORM_WIDTH_MIN, PLATFORM_WIDTH_MAX.
  split; [reflexivity|].
  split; [apply palette_floor; assumption|].
  split; [qc_lra|]. split; [qc_lra | reflexivity].
Qed.

Lemma basePlatform_shaped vw vh : shaped (basePlatform vw vh).
Proof.
  unfold shaped, basePlatform, PLATFORM_WIDTH_MIN. eng.
  split; [reflexivity|]. split; [cbn; auto|].
  split; [qc_compute|]. split; [qc_compute | reflexivity].
Qed.

Lemma spawned_inView n vw y :
  Platform.width (spawned random n vw y) <= vw ->
  inView vw (spawned random n vw y).
Proof.
  unfold inView, spawned. cbv zeta. eng.
  destruct (random_range (1 + n)%nat) as (H0 & H1).
  set (width := PLATFORM_WIDTH_MIN
                + random n * (PLATFORM_WIDTH_MAX - PLATFORM_WIDTH_MIN)).
  set (r := random (1 + n)%nat) in *.
  intro Hw. unfold Qcle, Qclt in *.
  rewrite ?this_add, ?this_mul, ?this_sub in *.
  change (this 0) with 0%Q in *. change (this 1) with 1%Q in *.
  split; nra.
Qed.

Lemma shaped_step i s s' :
  (forall b, (b < allocated s)%nat -> shaped (heap s b)) ->
  step random i s = Some s' ->
  forall b, (b < allocated s')%nat -> shaped (heap s' b).
Proof.
  intros IH Hstep b Hb.
  pose proof (step_heap_made _
                (fun p => (Platform.height p, Platform.color p,
                           Platform.width p, Platform.passed p))
                ltac:(reflexivity) ltac:(reflexivity) ltac:(reflexivity)
                ltac:(reflexivity) _ _ _ _ Hstep Hb) as Hmade.
  cbv beta in Hmade.
  assert (Hobs : forall p q,
            (Platform.height q, Platform.color q, Platform.width q,
             Platform.passed q)
            = (Platform.height p, Platform.color p, Platform.width p,
               Platform.passed p) -> shaped p -> shaped q).
  { intros p q E. injection E as E1 E2 E3 E4. unfold shaped.
    rewrite E1, E2, E3, E4. auto. }
  destruct Hmade as [(Hold & E) | [E | (n & y & E)]].
  - exact (Hobs _ _ E (IH b Hold)).
  - exact (Hobs _ _ E (basePlatform_shaped _ _)).
  - exact (Hobs _ _ E (spawned_shaped _ _ _)).
Qed.

Lemma shaped_run inputs w h s :
  run random inputs (constructor w h) = Some s ->
  forall b, (b < allocated s)%nat -> shaped (heap s b).
Proof.
  intro Hrun.
  apply (run_invariant
           (fun s => forall b, (b < allocated s)%nat -> shaped (heap s b))
           (fun _ => True)) with inputs (constructor w h).
  - intros i s0 s1 _. apply shaped_step.
  - apply Forall_True.
  - cbn. intros b Hb. lia.
  - exact Hrun.
Qed.

(** X10: The shape of platforms, for [Math.random] in [0, 1): every platform
    of the array of a reachable state, and every platform ever made, is
    [PLATFORM_HEIGHT] (20) high, has one of the four colours of
    [PLATFORM_COLORS] (the index [Math.floor(Math.random() * 4)] is never out
    of range), is between [PLATFORM_WIDTH_MIN] (80) and 200 wide, and has its
    [passed] flag unset, which no code writes. A platform that [spawnPlatform]
    makes is at most [PLATFORM_WIDTH_MAX] (180) wide and, when the viewport is
    at least as wide as the platform, its [x] is from 0 to the viewport width
    minus its width. *)
Theorem platforms_keep_their_shape w h inputs s :
  run random inputs (constructor w h) = Some s ->
  (forall a, In a (platforms s) -> shaped (heap s a))
  /\ (forall b, (b < allocated s)%nat -> shaped (heap s b))
  /\ forall y,
       let p := heap (spawnPlatform random y s) (allocated s) in
       shaped p
       /\ Platform.width p <= PLATFORM_WIDTH_MAX
       /\ (Platform.width p <= viewportWidth s ->
           0 <= Platform.x p
           /\ Platform.x p <= viewportWidth s - Platform.width p).
Proof.
  intro Hrun.
  pose proof (shaped_run _ _ _ _ Hrun) as Hall.
  destruct (wellFormed_run _ _ _ _ Hrun) as (_ & Hlt).
  split; [intros a Ha; apply Hall, Hlt, Ha|].
  split; [exact Hall|].
  intro y. cbv zeta. rewrite spawnPlatform_new.
  split; [apply spawned_shaped|].
  split.
  - unfold spawned. cbv zeta. eng.
    destruct (random_range (randomCalls s)) as (H0 & H1).
    unfold PLATFORM_WIDTH_MIN, PLATFORM_WIDTH_MAX. qc_lra.
  - intro Hw. destruct (spawned_inView _ _ y Hw) as (H0 & H1).
    split; [exact H0 | qc_lra].
Qed.

End Shapes.

(** ** Platforms in the viewport *)

Lemma frame_heap_obs (A : Type) (obs : Platform.t -> A) :
  (forall v p, obs (Platform.set_x v p) = obs p) ->
  (forall v p, obs (Platform.set_vx v p) = obs p) ->
  (forall v p, obs (Platform.set_y v p) = obs p) ->
  (forall v p, obs (Platform.set_landedOn v p) = obs p) ->
  forall time s s' b,
    state s = playing -> loop random time s = Some s' ->
    (b < allocated s)%nat -> obs (heap s' b) = obs (heap s b).
Proof.
  intros Hx Hvx Hy Hl time s s' b Hst Hloop Hb.
  rewrite loop_playing in Hloop by assumption.
  destruct (preCollision random (set_lastTime time s)) as [m|] eqn:Hpre;
    [|discriminate].
  injection Hloop as <-.
  rewrite (finish_frame _ (fun s => obs (heap s b))) by reflexivity.
  rewrite (collisionDetection_heap_obs _ obs) by exact Hl.
  rewrite (preCollision_heap_obs _ obs Hx Hvx Hy _ _ _ Hpre) by exact Hb.
  reflexivity.
Qed.

Lemma frame_viewport time s s' :
  loop random time s = Some s' ->
  viewportWidth s' = viewportWidth s /\ viewportHeight s' = viewportHeight s.
Proof.
  intro Hloop.
  destruct (GameState_playing_dec (state s)) as [Hst|Hst].
  - rewrite loop_playing in Hloop by assumption.
    destruct (preCollision random (set_lastTime time s)) as [m|] eqn:Hpre;
      [|discriminate].
    injection Hloop as <-.
    rewrite (finish_frame _ (fun s => viewportWidth s)) by reflexivity.
    rewrite (finish_frame _ (fun s => viewportHeight s)) by reflexivity.
    rewrite (collisionDetection_frame _ (fun s => viewportWidth s))
      by reflexivity.
    rewrite (collisionDetection_frame _ (fun s => viewportHeight s))
      by reflexivity.
    rewrite (preCollision_frame _ (fun s => viewportWidth s)
               ltac:(reflexivity) ltac:(reflexivity) ltac:(reflexivity)
               ltac:(reflexivity) ltac:(reflexivity) _ _ Hpre).
    rewrite (preCollision_frame _ (fun s => viewportHeight s)
               ltac:(reflexivity) ltac:(reflexivity) ltac:(reflexivity)
               ltac:(reflexivity) ltac:(reflexivity) _ _ Hpre).
    split; reflexivity.
  - rewrite loop_idle in Hloop by assumption. injection Hloop as <-.
    rewrite (draw_frame _ (fun s => viewportWidth s)) by reflexivity.
    rewrite (draw_frame _ (fun s => viewportHeight s)) by reflexivity.
    split; reflexivity.
Qed.

Lemma movedPlatform_inView sm vw p :
  Platform.vx p <> 0 -> Platform.width p <= vw ->
  0 <= Platform.x (movedPlatform sm vw p)
  /\ Platform.x (movedPlatform sm vw p) + Platform.width p <= vw.
Proof.
  intros Hv Hw. unfold movedPlatform. cbv zeta.
  rewrite (proj2 (Qcneqb_neq _ _) Hv).
  destruct (Qcleb (Platform.x p + Platform.vx p * sm) 0) eqn:E1.
  - eng. split; qc_lra.
  - destruct (Qcleb vw (Platform.x p + Platform.vx p * sm + Platform.width p))
      eqn:E2; eng; split; qc_lra.
Qed.

(** X11: Moving platforms stay in view: after a frame of a playing game, every
    platform of the array that moves and is not wider than the viewport lies
    inside the viewport, from 0 to the viewport width, wherever it was before
    (a resize may have left it outside). The frame changes neither its width
    nor the viewport. *)
Theorem moving_platforms_stay_in_view w h inputs s time s' a :
  run random inputs (constructor w h) = Some s ->
  state s = playing -> loop random time s = Some s' ->
  In a (platforms s) -> Platform.vx (heap s a) <> 0 ->
  Platform.width (heap s a) <= viewportWidth s ->
  inView (viewportWidth s') (heap s' a)
  /\ Platform.width (heap s' a) = Platform.width (heap s a)
  /\ viewportWidth s' = viewportWidth s.
Proof.
  intros Hrun Hst Hloop Hin Hv Hw.
  pose proof (wellFormed_run _ _ _ _ Hrun) as Hwf.
  destruct (frame_platform_x_vx _ _ _ _ Hwf Hst Hloop Hin) as (Hx & _).
  assert (Hwd : Platform.width (heap s' a) = Platform.width (heap s a)).
  { apply (frame_heap_obs _ (fun p => Platform.width p)) with time;
      try reflexivity; try assumption.
    apply Hwf, Hin. }
  destruct (frame_viewport _ _ _ Hloop) as (Hvw & _).
  split; [|split; assumption].
  unfold inView. rewrite Hvw, Hwd, Hx.
  apply movedPlatform_inView; assumption.
Qed.

(** ** The world scroll *)

Lemma beforeScroll_frame (A : Type) (f : Engine -> A) :
  (forall v s, f (set_player v s) = f s) ->
  (forall v s, f (set_heap v s) = f s) ->
  (forall v s, f (set_lastTime v s) = f s) ->
  forall time s, f (beforeScroll time s) = f s.
Proof.
  intros Hp Hh Hl time s. unfold beforeScroll, playerUpdate.
  rewrite Hp, (movePlatforms_frame _ f) by assumption. apply Hl.
Qed.

(** X12: The world scroll moves all alike: in a frame of a playing game,
    when the actor has come above 0.6 of the viewport height it is put on
    that line and every platform of the array is moved down, once, by the
    distance the actor was above the line; otherwise neither the actor nor a
    platform changes height.  After it the actor is never above the line. *)
Theorem world_scroll_moves_all_alike w h inputs s time m :
  run random inputs (constructor w h) = Some s ->
  state s = playing ->
  worldScroll random (beforeScroll time s) = Some m ->
  let threshold := viewportHeight s * 0.6 in
  let diff := threshold - Player.y (player (beforeScroll time s)) in
  (if scrolls (beforeScroll time s)
   then 0 < diff
        /\ Player.y (player m) = threshold
        /\ forall b, In b (platforms s) ->
             Platform.y (heap m b)
             = Platform.y (heap (beforeScroll time s) b) + diff
   else Player.y (player m) = Player.y (player (beforeScroll time s))
        /\ forall b, In b (platforms s) ->
             Platform.y (heap m b) = Platform.y (heap (beforeScroll time s) b))
  /\ threshold <= Player.y (player m).
Proof.
  intros Hrun Hst Hpre. cbv zeta.
  destruct (wellFormed_run _ _ _ _ Hrun) as (Hnd & Hlt).
  set (bs := beforeScroll time s) in *.
  assert (Hbp : platforms bs = platforms s)
    by (apply (beforeScroll_frame _ (fun s => platforms s)); reflexivity).
  assert (Hba : allocated bs = allocated s)
    by (apply (beforeScroll_frame _ (fun s => allocated s)); reflexivity).
  assert (Hbv : viewportHeight bs = viewportHeight s)
    by (apply (beforeScroll_frame _ (fun s => viewportHeight s));
        reflexivity).
  assert (Hsy : forall b, In b (platforms s) ->
            Platform.y (heap (shifted bs) b)
            = Platform.y (heap bs b)
              + (viewportHeight s * 0.6 - Player.y (player bs))).
  { intros b Hin. rewrite <- Hbv.
    apply shifted_y; rewrite Hbp; assumption. }
  destruct (worldScroll_cases _ _ Hpre)
    as [(Hsc & ->) | (Hsc & first & rest & Hp
                    & [(_ & ->) | (_ & lastP & front & Hrest & ->)])];
    rewrite Hsc; unfold scrolls in Hsc; rewrite Hbv in Hsc.
  - split; [split; [reflexivity | intros; reflexivity] | qc_lra].
  - rewrite shifted_player, Hbv. eng.
    split; [|qc_lra]. split; [qc_lra|]. split; [reflexivity|exact Hsy].
  - rewrite (spawnPlatform_frame _ (fun s => player s)) by reflexivity.
    eng. rewrite shifted_player, Hbv. eng.
    split; [|qc_lra]. split; [qc_lra|]. split; [reflexivity|].
    intros b Hin.
    rewrite spawnPlatform_heap_old
      by (eng; rewrite (shifted_frame _ (fun s => allocated s))
            by reflexivity; rewrite Hba; apply Hlt, Hin).
    eng. apply Hsy, Hin.
Qed.

(** ** The actor in the air *)

Lemma count_S n : count (S n) = count n + 1.
Proof.
  unfold count. rewrite Nat2Z.inj_succ. unfold Z.succ.
  apply Qc_is_canon. rewrite this_add, !this_Q2Qc, inject_Z_plus.
  reflexivity.
Qed.

Lemma count_0 : count 0 = 0.
Proof. apply Qc_is_canon. reflexivity. Qed.

Lemma update_fall h q :
  Player.currentPlatform q = None ->
  Player.update h q
  = Player.set_y (Player.y q + (Player.vy q + GRAVITY))
      (Player.set_vy (Player.vy q + GRAVITY) q).
Proof.
  intro E. unfold Player.update. rewrite E. reflexivity.
Qed.

Lemma updates_fall h n pl :
  Player.currentPlatform pl = None ->
  Player.currentPlatform (updates h n pl) = None
  /\ Player.vy (updates h n pl) = Player.vy pl + count n * GRAVITY
  /\ Player.y (updates h n pl)
     = Player.y pl + count n * Player.vy pl
       + GRAVITY * (count n * (count n + 1)) / 2
  /\ Player.x (updates h n pl) = Player.x pl
  /\ Player.jumps (updates h n pl) = Player.jumps pl.
Proof.
  intro Hc. induction n as [|n (IHc & IHv & IHy & IHx & IHj)].
  - unfold updates. cbn [Nat.iter nat_rect]. rewrite count_0.
    split; [exact Hc|]. split; [ring|].
    split; [apply Qc_eq_this; repeat qc_push_goal; ring|].
    split; reflexivity.
  - change (updates h (S n) pl) with (Player.update h (updates h n pl)).
    rewrite update_fall by exact IHc. eng.
    rewrite IHv, IHy, count_S.
    split; [exact IHc|]. split; [ring|].
    split; [apply Qc_eq_this; repeat qc_push_goal; ring|].
    split; assumption.
Qed.

Lemma integer_between (z : Z) : (0 <= (z - 29) * (z - 30))%Z.
Proof.
  destruct (Z_le_gt_dec z 29).
  - apply Z.mul_nonpos_nonpos; lia.
  - apply Z.mul_nonneg_nonneg; lia.
Qed.

(** X14: A first jump reaches the next platform and not the one after it:
    thirty calls of [update()] after a jump of [JUMP_FORCE] (-15), under
    [GRAVITY] (0.5), the actor has no vertical velocity left and is more than
    one [PLATFORM_SPACING] (150) above where it jumped from; at no time is it
    as much as two spacings above. *)
Theorem first_jump_clears_the_spacing h pl n :
  Player.vy (updates h 30 (Player.jump JUMP_FORCE pl)) = 0
  /\ Player.y (updates h 30 (Player.jump JUMP_FORCE pl))
     < Player.y pl - PLATFORM_SPACING
  /\ Player.y pl - 2 * PLATFORM_SPACING
     < Player.y (updates h n (Player.jump JUMP_FORCE pl)).
Proof.
  assert (Hc : Player.currentPlatform (Player.jump JUMP_FORCE pl) = None)
    by reflexivity.
  assert (Hv : Player.vy (Player.jump JUMP_FORCE pl) = JUMP_FORCE)
    by reflexivity.
  assert (Hy : Player.y (Player.jump JUMP_FORCE pl) = Player.y pl)
    by reflexivity.
  split; [|split].
  - destruct (updates_fall h 30 _ Hc) as (_ & -> & _).
    rewrite Hv. apply Qc_is_canon. reflexivity.
  - destruct (updates_fall h 30 _ Hc) as (_ & _ & -> & _).
    assert (E30 : count 30 = 30) by (apply Qc_is_canon; reflexivity).
    rewrite Hv, Hy, E30. unfold JUMP_FORCE, GRAVITY, PLATFORM_SPACING. qc_lra.
  - destruct (updates_fall h n _ Hc) as (_ & _ & -> & _).
    rewrite Hv, Hy. unfold JUMP_FORCE, GRAVITY, PLATFORM_SPACING, count.
    pose proof (integer_between (Z.of_nat n)) as Hz.
    rewrite Zle_Qle in Hz.
    rewrite inject_Z_mult in Hz. unfold Z.sub in Hz.
    rewrite !inject_Z_plus in Hz.
    set (q := inject_Z (Z.of_nat n)) in *.
    change (inject_Z (- (29))) with (- (29))%Q in Hz.
    change (inject_Z (- (30))) with (- (30))%Q in Hz.
    change (inject_Z 0) with 0%Q in Hz.
    unfold Qclt. repeat qc_push_goal. fold q. nra.
Qed.

(** ** Particles and texts *)

Lemma createParticles_alive x y count0 color s :
  Forall alive (particles s) ->
  Forall alive (particles (createParticles random x y count0 color s)).
Proof.
  revert s. induction count0 as [|n IH]; intros s Hs; cbn [createParticles].
  - exact Hs.
  - cbv zeta. apply IH. eng. apply Forall_app. split; [exact Hs|].
    constructor; [|constructor].
    unfold alive. cbn [pt_life pt_maxLife pt_type].
    repeat apply conj; try reflexivity; qc_compute.
Qed.

Lemma createParticles_cosmeticsOk x y count0 color s :
  cosmeticsOk s -> cosmeticsOk (createParticles random x y count0 color s).
Proof.
  intros (Hp & Ht). split.
  - apply createParticles_alive, Hp.
  - rewrite (createParticles_frame _ (fun s => floatingTexts s))
      by reflexivity.
    exact Ht.
Qed.

Lemma handleInput_cosmeticsOk s :
  cosmeticsOk s -> cosmeticsOk (handleInput random s).
Proof.
  intro H. unfold handleInput.
  destruct (state s); try exact H.
  destruct (Player.jumps (player s) <? 2)%Z; [|exact H].
  cbv zeta. apply createParticles_cosmeticsOk. exact H.
Qed.

Lemma triggerPerfect_cosmeticsOk a s :
  cosmeticsOk s -> cosmeticsOk (triggerPerfect random a s).
Proof.
  intro H. unfold triggerPerfect. cbv zeta.
  match goal with
  | |- cosmeticsOk (if _ then emit _ (set_isFever _ ?t) else _) =>
      assert (Ht : cosmeticsOk t)
  end.
  { match goal with
    | |- cosmeticsOk (set_floatingTexts _ ?c) =>
        assert (Hc : cosmeticsOk c)
          by (apply createParticles_cosmeticsOk; exact H)
    end.
    destruct Hc as (Hp & Hx). split; [exact Hp|].
    cbn [floatingTexts set_floatingTexts].
    apply Forall_app. split; [exact Hx|].
    constructor; [|constructor].
    unfold legible. cbn [ft_life ft_text ft_scale].
    repeat apply conj; try reflexivity; qc_compute. }
  destruct (_ <=? _)%Z; exact Ht.
Qed.

Lemma landed_cosmeticsOk a m :
  cosmeticsOk m -> cosmeticsOk (landed random a m).
Proof.
  intro H. unfold landed. cbv zeta.
  destruct (negb _); [|exact H].
  destruct (Qcltb _ _).
  - apply triggerPerfect_cosmeticsOk. exact H.
  - repeat match goal with
    | |- context [if ?c then _ else _] => destruct c
    end; exact H.
Qed.

Lemma updateCosmetics_cosmeticsOk m :
  cosmeticsOk m -> cosmeticsOk (updateCosmetics m).
Proof.
  intros (Hp & Ht). unfold updateCosmetics. cbv zeta.
  match goal with
  | |- cosmeticsOk (if _ then set_shakeTimer _ ?t else _) =>
      assert (H : cosmeticsOk t); [|destruct (_ <? _)%Z; exact H]
  end.
  split; cbn [particles floatingTexts set_particles set_floatingTexts].
  - rewrite Forall_forall in Hp |- *. intros p Hin.
    apply filter_In in Hin. destruct Hin as (Hin & Hlife).
    apply in_map_iff in Hin. destruct Hin as (p0 & <- & Hin0).
    destruct (Hp p0 Hin0) as (H0 & H1 & H2 & H3).
    unfold alive, updateParticle in *. cbn [pt_life pt_maxLife pt_type] in *.
    refine (conj _ (conj _ (conj H2 H3))); qc_lra.
  - rewrite Forall_forall in Ht |- *. intros t Hin.
    apply filter_In in Hin. destruct Hin as (Hin & Hlife).
    apply in_map_iff in Hin. destruct Hin as (t0 & <- & Hin0).
    destruct (Ht t0 Hin0) as (H0 & H1 & H2 & H3).
    unfold legible, updateText in *. cbn [ft_life ft_text ft_scale] in *.
    refine (conj _ (conj _ (conj H2 _))); qc_lra.
Qed.

Lemma cosmeticsOk_step i s s' :
  cosmeticsOk s -> step random i s = Some s' -> cosmeticsOk s'.
Proof.
  intros H Hstep.
  destruct i as [| |time|w h]; cbn [step] in Hstep.
  - injection Hstep as <-. unfold cosmeticsOk.
    change (particles (startGame random s))
      with (particles (resetGame random s)).
    change (floatingTexts (startGame random s))
      with (floatingTexts (resetGame random s)).
    unfold resetGame. cbv zeta. cbn [fold_left].
    repeat rewrite (spawnPlatform_frame _ (fun s => particles s))
      by reflexivity.
    repeat rewrite (spawnPlatform_frame _ (fun s => floatingTexts s))
      by reflexivity.
    eng. split; constructor.
  - injection Hstep as <-. apply handleInput_cosmeticsOk, H.
  - destruct (GameState_playing_dec (state s)) as [Hst|Hst].
    + rewrite loop_playing in Hstep by assumption.
      destruct (preCollision random (set_lastTime time s)) as [m|] eqn:Hpre;
        [|discriminate].
      injection Hstep as <-.
      assert (Hm : cosmeticsOk m).
      { unfold cosmeticsOk.
        rewrite (preCollision_frame _ (fun s => particles s)
                   ltac:(reflexivity) ltac:(reflexivity) ltac:(reflexivity)
                   ltac:(reflexivity) ltac:(reflexivity) _ _ Hpre).
        rewrite (preCollision_frame _ (fun s => floatingTexts s)
                   ltac:(reflexivity) ltac:(reflexivity) ltac:(reflexivity)
                   ltac:(reflexivity) ltac:(reflexivity) _ _ Hpre).
        exact H. }
      assert (Hc : cosmeticsOk (collisionDetection random m)).
      { rewrite collisionDetection_landing.
        destruct (landing m); [apply landed_cosmeticsOk|]; exact Hm. }
      unfold finish.
      assert (Hd : forall x, cosmeticsOk x -> cosmeticsOk (draw x)).
      { intros x Hx. unfold cosmeticsOk.
        rewrite (draw_frame _ (fun s => particles s)) by reflexivity.
        rewrite (draw_frame _ (fun s => floatingTexts s)) by reflexivity.
        exact Hx. }
      apply Hd, updateCosmetics_cosmeticsOk.
      unfold fallOff. destruct (Qcltb _ _); [|exact Hc].
      unfold gameOver. cbv zeta. apply createParticles_cosmeticsOk.
      exact Hc.
    + rewrite loop_idle in Hstep by assumption. injection Hstep as <-.
      unfold cosmeticsOk.
      rewrite (draw_frame _ (fun s => particles s)) by reflexivity.
      rewrite (draw_frame _ (fun s => floatingTexts s)) by reflexivity.
      exact H.
  - injection Hstep as <-. exact H.
Qed.

(** X15: Particles and texts: in every reachable state each particle and each
    floating text has a [life] in (0, 1], the opacity [draw] gives it: they
    are made with a life of 1, every tick takes 0.02 off and removes what has
    none left, and nothing else writes the field. Every particle is a confetti
    of maximal life 1, every text reads PERFECT! and has a scale of at least
    1. *)
Theorem particles_fade_within_bounds w h inputs s :
  run random inputs (constructor w h) = Some s ->
  (forall p, In p (particles s) ->
     0 < pt_life p /\ pt_life p <= 1
     /\ pt_maxLife p = 1 /\ pt_type p = confetti)
  /\ (forall t, In t (floatingTexts s) ->
        0 < ft_life t /\ ft_life t <= 1
        /\ ft_text t = "PERFECT!"%string /\ 1 <= ft_scale t).
Proof.
  intro Hrun.
  assert (H : cosmeticsOk s).
  { apply (run_invariant cosmeticsOk (fun _ => True))
      with inputs (constructor w h).
    - intros i s0 s1 _. apply cosmeticsOk_step.
    - apply Forall_True.
    - split; constructor.
    - exact Hrun. }
  destruct H as (Hp & Ht). rewrite Forall_forall in Hp, Ht.
  split; [exact Hp | exact Ht].
Qed.

(** ** Time *)

(** [lastTime] is written by [loop] and read by nothing but the [deltaTime]
    that [update] ignores: every operation commutes with its assignment. *)
Lemma createParticles_time t x y count0 color s :
  createParticles random x y count0 color (set_lastTime t s)
  = set_lastTime t (createParticles random x y count0 color s).
Proof.
  revert s. induction count0 as [|n IH]; intro s; cbn [createParticles].
  - reflexivity.
  - cbv zeta. rewrite <- IH. reflexivity.
Qed.

Lemma set_player_time v t s :
  set_player v (set_lastTime t s) = set_lastTime t (set_player v s).
Proof. reflexivity. Qed.

Lemma set_heap_time v t s :
  set_heap v (set_lastTime t s) = set_lastTime t (set_heap v s).
Proof. reflexivity. Qed.

Lemma set_allocated_time v t s :
  set_allocated v (set_lastTime t s) = set_lastTime t (set_allocated v s).
Proof. reflexivity. Qed.

Lemma set_platforms_time v t s :
  set_platforms v (set_lastTime t s) = set_lastTime t (set_platforms v s).
Proof. reflexivity. Qed.

Lemma set_particles_time v t s :
  set_particles v (set_lastTime t s) = set_lastTime t (set_particles v s).
Proof. reflexivity. Qed.

Lemma set_floatingTexts_time v t s :
  set_floatingTexts v (set_lastTime t s) = set_lastTime t (set_floatingTexts v s).
Proof. reflexivity. Qed.

Lemma set_state_time v t s :
  set_state v (set_lastTime t s) = set_lastTime t (set_state v s).
Proof. reflexivity. Qed.

Lemma set_score_time v t s :
  set_score v (set_lastTime t s) = set_lastTime t (set_score v s).
Proof. reflexivity. Qed.

Lemma set_gameSpeed_time v t s :
  set_gameSpeed v (set_lastTime t s) = set_lastTime t (set_gameSpeed v s).
Proof. reflexivity. Qed.

Lemma set_shakeTimer_time v t s :
  set_shakeTimer v (set_lastTime t s) = set_lastTime t (set_shakeTimer v s).
Proof. reflexivity. Qed.

Lemma set_perfectStreak_time v t s :
  set_perfectStreak v (set_lastTime t s) = set_lastTime t (set_perfectStreak v s).
Proof. reflexivity. Qed.

Lemma set_isFever_time v t s :
  set_isFever v (set_lastTime t s) = set_lastTime t (set_isFever v s).
Proof. reflexivity. Qed.

Lemma set_viewportWidth_time v t s :
  set_viewportWidth v (set_lastTime t s) = set_lastTime t (set_viewportWidth v s).
Proof. reflexivity. Qed.

Lemma set_viewportHeight_time v t s :
  set_viewportHeight v (set_lastTime t s) = set_lastTime t (set_viewportHeight v s).
Proof. reflexivity. Qed.

Lemma set_randomCalls_time v t s :
  set_randomCalls v (set_lastTime t s) = set_lastTime t (set_randomCalls v s).
Proof. reflexivity. Qed.

Lemma set_trace_time v t s :
  set_trace v (set_lastTime t s) = set_lastTime t (set_trace v s).
Proof. reflexivity. Qed.

Lemma emit_time e t s : emit e (set_lastTime t s) = set_lastTime t (emit e s).
Proof. reflexivity. Qed.

Lemma modify_time a f t s :
  modify a f (set_lastTime t s) = set_lastTime t (modify a f s).
Proof. reflexivity. Qed.

Lemma playerLand_time a t s :
  playerLand a (set_lastTime t s) = set_lastTime t (playerLand a s).
Proof. reflexivity. Qed.

Ltac bubble :=
  repeat first
    [ rewrite set_player_time
    | rewrite set_heap_time
    | rewrite set_allocated_time
    | rewrite set_platforms_time
    | rewrite set_particles_time
    | rewrite set_floatingTexts_time
    | rewrite set_state_time
    | rewrite set_score_time
    | rewrite set_gameSpeed_time
    | rewrite set_shakeTimer_time
    | rewrite set_perfectStreak_time
    | rewrite set_isFever_time
    | rewrite set_viewportWidth_time
    | rewrite set_viewportHeight_time
    | rewrite set_randomCalls_time
    | rewrite set_trace_time
    | rewrite emit_time | rewrite modify_time | rewrite playerLand_time
    | rewrite createParticles_time ].

Lemma fold_time (A : Type) (f : Engine -> A -> Engine) t :
  (forall s a, f (set_lastTime t s) a = set_lastTime t (f s a)) ->
  forall l s,
    fold_left f l (set_lastTime t s) = set_lastTime t (fold_left f l s).
Proof.
  intros Hf l. induction l as [|a l IH]; intro s; cbn [fold_left].
  - reflexivity.
  - rewrite Hf. apply IH.
Qed.

Lemma movePlatform_time t sm s a :
  movePlatform sm (set_lastTime t s) a = set_lastTime t (movePlatform sm s a).
Proof.
  unfold movePlatform. cbv zeta. eng.
  destruct (Qcneqb (Platform.vx (heap s a)) 0); [|reflexivity].
  destruct (Player.currentPlatform (player s)) as [b|].
  - destruct (Nat.eqb b a); eng;
      repeat match goal with
      | |- context [if ?c then _ else _] => destruct c
      end; reflexivity.
  - eng.
    repeat match goal with
    | |- context [if ?c then _ else _] => destruct c
    end; reflexivity.
Qed.

Lemma movePlatforms_time t sm s :
  movePlatforms sm (set_lastTime t s) = set_lastTime t (movePlatforms sm s).
Proof.
  unfold movePlatforms. eng. apply fold_time. intros s0 a.
  apply movePlatform_time.
Qed.

Lemma worldScroll_time t s :
  worldScroll random (set_lastTime t s)
  = option_map (set_lastTime t) (worldScroll random s).
Proof.
  unfold worldScroll. cbv zeta. eng.
  destruct (Qcltb (Player.y (player s)) (viewportHeight s * 0.6));
    [|reflexivity].
  match goal with
  | |- context [fold_left ?f ?l (set_player ?p (set_lastTime t s))] =>
      change (fold_left f l (set_player p (set_lastTime t s)))
        with (fold_left f l (set_lastTime t (set_player p s)));
      rewrite (fold_time _ f t) by (intros; reflexivity);
      set (sh := fold_left f l (set_player p s))
  end.
  eng.
  destruct (platforms sh) as [|first rest]; [reflexivity|].
  destruct (Qcltb (viewportHeight sh + 100) (Platform.y (heap sh first)));
    [|reflexivity].
  destruct (rev rest) as [|lastP front]; reflexivity.
Qed.

Lemma triggerPerfect_time t a s :
  triggerPerfect random a (set_lastTime t s)
  = set_lastTime t (triggerPerfect random a s).
Proof.
  unfold triggerPerfect. cbv zeta. eng. confetti. eng. bubble. eng.
  destruct (FEVER_THRESHOLD <=? perfectStreak s + 1)%Z; reflexivity.
Qed.

Lemma landed_time t a s :
  landed random a (set_lastTime t s) = set_lastTime t (landed random a s).
Proof.
  unfold landed. cbv zeta. eng.
  destruct (negb (Platform.landedOn (heap s a))); [|reflexivity].
  bubble. rewrite triggerPerfect_time.
  match goal with
  | |- context [Qcltb (dist (set_lastTime t ?m) a) _] =>
      change (dist (set_lastTime t m) a) with (dist m a)
  end.
  destruct (Qcltb _ _); [reflexivity|].
  eng. destruct (0 <? perfectStreak s)%Z; bubble; eng;
    destruct (isFever s); reflexivity.
Qed.

Lemma collisionDetection_time t s :
  collisionDetection random (set_lastTime t s)
  = set_lastTime t (collisionDetection random s).
Proof.
  unfold collisionDetection. eng.
  destruct (_ && _); [|reflexivity].
  change (hits (set_lastTime t s)) with (hits s).
  destruct (find (hits s) (platforms s)) as [a|]; [|reflexivity].
  apply landed_time.
Qed.

Lemma fallOff_time t s :
  fallOff random (set_lastTime t s) = set_lastTime t (fallOff random s).
Proof.
  unfold fallOff. eng. destruct (Qcltb _ _); [|reflexivity].
  unfold gameOver. cbv zeta. eng. bubble. reflexivity.
Qed.

Lemma updateCosmetics_time t s :
  updateCosmetics (set_lastTime t s) = set_lastTime t (updateCosmetics s).
Proof.
  unfold updateCosmetics. cbv zeta. eng.
  destruct (0 <? shakeTimer s)%Z; reflexivity.
Qed.

Lemma draw_time t s : draw (set_lastTime t s) = set_lastTime t (draw s).
Proof.
  unfold draw. eng. destruct (0 <? shakeTimer s)%Z; reflexivity.
Qed.

Lemma update_time t dt dt' s :
  update random dt (set_lastTime t s)
  = option_map (set_lastTime t) (update random dt' s).
Proof.
  unfold update, preCollision. cbv zeta. eng.
  rewrite movePlatforms_time.
  change (playerUpdate (set_lastTime t ?m)) with (set_lastTime t (playerUpdate m)).
  rewrite worldScroll_time.
  destruct (worldScroll random _) as [m|]; [|reflexivity].
  cbn [option_map].
  rewrite collisionDetection_time, fallOff_time, updateCosmetics_time.
  reflexivity.
Qed.

Lemma loop_time time time' s :
  loop random time' s = option_map (set_lastTime time') (loop random time s).
Proof.
  unfold loop. cbv zeta. eng.
  destruct (state s).
  - cbn [option_map]. rewrite !draw_time. reflexivity.
  - rewrite (update_time time' _ 0), (update_time time _ 0).
    destruct (update random 0 s) as [m|]; [|reflexivity].
    cbn [option_map]. rewrite !draw_time. reflexivity.
  - cbn [option_map]. rewrite !draw_time. reflexivity.
Qed.

Lemma loop_lastTime time u s :
  loop random time (set_lastTime u s) = loop random time s.
Proof. reflexivity. Qed.

Lemma frames_time times :
  forall times' s u,
    length times = length times' ->
    option_map (set_lastTime 0) (run random (map Frame times') (set_lastTime u s))
    = option_map (set_lastTime 0) (run random (map Frame times) s).
Proof.
  induction times as [|t times IH]; intros [|t' times'] s u Hlen;
    try discriminate Hlen; cbn [map run step].
  - reflexivity.
  - rewrite loop_lastTime, (loop_time t t' s).
    destruct (loop random t s) as [s1|]; [|reflexivity].
    cbn [option_map]. apply IH. injection Hlen as Hlen. exact Hlen.
Qed.

(** X16: The simulation is counted in frames, not in the time that [loop]
    is given: [loop] computes [deltaTime] from its argument and hands it to
    [update], which never reads it.  So a frame leaves every field of the
    engine that the embedding has (all but the canvas and the four scale
    fields of the actor, which follow [Date.now()] and only colour the
    drawing) as it would for any other argument, but for the [lastTime] it
    records; and any two runs of as many frames from one state end alike, but
    for [lastTime].  A display that refreshes twice as often plays the game
    twice as fast. *)
Theorem frames_ignore_elapsed_time :
  (forall time time' s,
     loop random time' s
     = option_map (set_lastTime time') (loop random time s))
  /\ (forall time dt dt' s,
        update random dt (set_lastTime time s)
        = option_map (set_lastTime time) (update random dt' s))
  /\ forall times times' s,
       length times = length times' ->
       option_map (set_lastTime 0) (run random (map Frame times') s)
       = option_map (set_lastTime 0) (run random (map Frame times) s).
Proof.
  split; [exact loop_time|]. split; [exact update_time|].
  intros times times' s Hlen.
  change s with (set_lastTime (lastTime s) s) at 1.
  apply frames_time. exact Hlen.
Qed.

(** ** Landing *)



(** ** A burst of particles *)

Section Burst.

Hypothesis random_range : unitInterval random.

Lemma createParticles_burst x y count0 color s :
  exists burst,
    particles (createParticles random x y count0 color s)
    = particles s ++ burst
    /\ length burst = count0
    /\ Forall (thrown x y color) burst
    /\ randomCalls (createParticles random x y count0 color s)
       = (3 * count0 + randomCalls s)%nat.
Proof.
  revert s. induction count0 as [|n IH]; intro s; cbn [createParticles].
  - exists nil. rewrite app_nil_r. repeat split. constructor.
  - cbv zeta.
    match goal with
    | |- context [createParticles random x y n color ?s1] =>
        destruct (IH s1) as (burst & -> & Hlen & Hall & ->)
    end.
    eng.
    match goal with
    | |- context [(particles s ++ ?p :: nil) ++ burst] =>
        exists (p :: burst)
    end.
    split; [rewrite <- app_assoc; reflexivity|].
    split; [cbn [length]; rewrite Hlen; reflexivity|].
    split; [|lia].
    constructor; [|exact Hall].
    destruct (random_range (randomCalls s)) as (H0 & H1).
    destruct (random_range (1 + randomCalls s)%nat) as (H2 & H3).
    destruct (random_range (2 + randomCalls s)%nat) as (H4 & H5).
    unfold thrown.
    cbn [pt_x pt_y pt_color pt_life pt_maxLife pt_type pt_vx pt_vy pt_size].
    repeat split; qc_lra.
Qed.

(** X22: A burst of particles, for [Math.random] in [0, 1):
    [createParticles(x, y, count, color)] appends exactly [count] particles to
    the list and draws exactly three random numbers for each. Every one of
    them starts at ([x], [y]) in that colour with a full life, with a
    horizontal velocity in [-5, 5), a vertical velocity in [-10, 0), so that
    it is thrown upwards, and a size in [2, 8). The particles that were there
    stay, in their order. *)
Theorem a_burst_is_thrown_upwards x y count0 color s :
  exists burst,
    particles (createParticles random x y count0 color s)
    = particles s ++ burst
    /\ length burst = count0
    /\ Forall (thrown x y color) burst
    /\ randomCalls (createParticles random x y count0 color s)
       = (3 * count0 + randomCalls s)%nat.
Proof.
  destruct (createParticles_burst x y count0 color s)
    as (burst & H1 & H2 & H3 & H4).
  exists burst. exact (conj H1 (conj H2 (conj H3 H4))).
Qed.

End Burst.

End Properties.

(** * The audio controller *)

Ltac aud :=
  cbn [AudioController.ctx AudioController.masterGain
       AudioController.initialized AudioController.nodes
       AudioController.draws AudioController.calls
       AudioController.set_ctx AudioController.set_masterGain
       AudioController.set_initialized AudioController.set_nodes
       AudioController.set_draws AudioController.set_calls
       AudioController.call AudioController.make] in *.


(** ** Storing a sample *)

Lemma Qcfloor_le (x : Qc) : inject_Z (Qcfloor x) <= x.
Proof.
  unfold Qcle, Qcfloor. rewrite this_Q2Qc. apply Qfloor_le.
Qed.

Lemma Qclt_floor (x : Qc) : x < inject_Z (Qcfloor x + 1).
Proof.
  unfold Qclt, Qcfloor. rewrite this_Q2Qc. apply Qlt_floor.
Qed.

Lemma inject_Z_le (a b : Z) : (a <= b)%Z <-> (inject_Z a : Qc) <= inject_Z b.
Proof.
  unfold Qcle. rewrite !this_Q2Qc, <- Zle_Qle. reflexivity.
Qed.

Lemma inject_Z_lt (a b : Z) : (a < b)%Z <-> (inject_Z a : Qc) < inject_Z b.
Proof.
  unfold Qclt. rewrite !this_Q2Qc, <- Zlt_Qlt. reflexivity.
Qed.

Lemma inject_Z_plus_1 (a : Z) : (inject_Z (a + 1) : Qc) = inject_Z a + 1.
Proof.
  apply Qc_eq_this. rewrite this_add, !this_Q2Qc, inject_Z_plus. reflexivity.
Qed.

(** Rounding to the nearest integer does not cross an integer. *)
Lemma nearestEven_le (x : Qc) (b : Z) :
  x <= inject_Z b -> (nearestEven x <= b)%Z.
Proof.
  intro H. unfold nearestEven. cbv zeta.
  pose proof (Qcfloor_le x) as Hf.
  assert (Hfb : (Qcfloor x <= b)%Z).
  { apply inject_Z_le. apply Qcle_trans with x; assumption. }
  destruct (Z.eq_dec (Qcfloor x) b) as [E|E].
  - assert (Hx : x - inject_Z (Qcfloor x) = 0).
    { rewrite E in *. apply Qcle_antisym in H; [|exact Hf]. subst x.
      qc_lra. }
    rewrite Hx.
    replace (Qcltb 0 0.5) with true by (symmetry; qc_compute). lia.
  - destruct (Qcltb _ _); [lia|].
    destruct (Qcltb _ _); [lia|]. destruct (Z.even _); lia.
Qed.

Lemma nearestEven_ge (x : Qc) (a : Z) :
  inject_Z a <= x -> (a <= nearestEven x)%Z.
Proof.
  intro H. unfold nearestEven. cbv zeta.
  assert (Haf : (a <= Qcfloor x)%Z).
  { apply Z.lt_succ_r. apply inject_Z_lt.
    apply Qcle_lt_trans with x; [exact H|].
    replace (Z.succ (Qcfloor x)) with (Qcfloor x + 1)%Z by lia.
    apply Qclt_floor. }
  destruct (Qcltb _ _); [lia|].
  destruct (Qcltb _ _); [lia|]. destruct (Z.even _); lia.
Qed.

Lemma exponent_unit (v : Qc) : -1 <= v -> v <= 1 -> (exponent v <= 0)%Z.
Proof.
  intros Hl Hu. unfold exponent. cbv zeta.
  assert (Hn : (Z.abs (Qnum v) <= Zpos (Qden v))%Z).
  { unfold Qcle, Qle in Hl, Hu.
    change (this (-1)) with (-1 # 1)%Q in Hl.
    change (this 1) with (1 # 1)%Q in Hu.
    cbn [Qnum Qden] in Hl, Hu. lia. }
  pose proof (Z.log2_le_mono _ _ Hn).
  destruct (Qcleb _ _); lia.
Qed.

Lemma Qc_scale (z : Qc) (m n : Z) :
  (0 < n)%Z -> z * inject_Z n = 1 ->
  (- n <= m)%Z -> (m <= n)%Z ->
  -1 <= inject_Z m * z /\ inject_Z m * z <= 1.
Proof.
  intros Hn Hz Hm1 Hm2.
  apply inject_Z_le in Hm1, Hm2. apply inject_Z_lt in Hn.
  assert (E : (inject_Z (- n) : Qc) = - inject_Z n).
  { apply Qc_eq_this. rewrite this_opp, !this_Q2Qc, inject_Z_opp. reflexivity. }
  rewrite E in Hm1. clear E.
  change (inject_Z 0 : Qc) with (0 : Qc) in Hn.
  set (y := (inject_Z n : Qc)) in *. set (w := (inject_Z m : Qc)) in *.
  clearbody y w.
  apply Qc_eq_this in Hz. unfold Qclt, Qcle in *.
  repeat qc_push_in Hz. repeat qc_push_in Hm1. repeat qc_push_goal.
  set (a := this y) in *. set (b := this w) in *. set (c := this z) in *.
  clearbody a b c.
  assert (Hc : (0 < c)%Q) by nra.
  split; nra.
Qed.

Lemma Qc_grow (x : Qc) (n : Z) :
  (0 < n)%Z -> -1 <= x -> x <= 1 ->
  inject_Z (- n) <= x * inject_Z n /\ x * inject_Z n <= inject_Z n.
Proof.
  intros Hn Hl Hu. apply inject_Z_lt in Hn.
  assert (E : (inject_Z (- n) : Qc) = - inject_Z n).
  { apply Qc_eq_this. rewrite this_opp, !this_Q2Qc, inject_Z_opp. reflexivity. }
  rewrite E. clear E.
  change (inject_Z 0 : Qc) with (0 : Qc) in Hn.
  set (y := (inject_Z n : Qc)) in *. clearbody y.
  unfold Qclt, Qcle in *.
  repeat qc_push_in Hl. repeat qc_push_goal.
  change (this 0) with 0%Q in Hn. change (this 1) with 1%Q in Hu.
  set (a := this y) in *. set (b := this x) in *. clearbody a b.
  split; nra.
Qed.

(** A sample in [-1, 1] is stored as a number in [-1, 1]. *)
Lemma fround_unit (v : Qc) :
  -1 <= v -> v <= 1 -> -1 <= fround v /\ fround v <= 1.
Proof.
  intros Hl Hu. unfold fround.
  destruct (Qcneqb v 0); [|split; qc_compute].
  cbv zeta.
  pose proof (exponent_unit v Hl Hu) as He.
  set (k := (Z.max (exponent v) (-126) - 23)%Z).
  assert (Hk : (k < 0)%Z) by (unfold k; lia).
  unfold pow2. replace (0 <=? k)%Z with false by (symmetry; apply Z.leb_gt; exact Hk).
  set (n := (2 ^ (- k))%Z).
  assert (Hn : (0 < n)%Z) by (unfold n; apply Z.pow_pos_nonneg; lia).
  assert (Hy : (inject_Z n : Qc) <> 0).
  { intro E. apply inject_Z_lt in Hn. rewrite E in Hn.
    exact (Qclt_not_eq _ _ Hn eq_refl). }
  assert (Hz : 1 / inject_Z n * inject_Z n = 1) by (field; exact Hy).
  assert (Hd : v / (1 / inject_Z n) = v * inject_Z n)
    by (field; split; [exact Hy | discriminate]).
  rewrite Hd.
  destruct (Qc_grow v n Hn Hl Hu) as (H1 & H2).
  apply (Qc_scale _ _ n Hn Hz).
  - apply nearestEven_ge. exact H1.
  - apply nearestEven_le. exact H2.
Qed.

Section Sounds.

Variable supported : bool.
Variable sampleRate : Qc.
Variable noise : nat -> Qc.

Lemma tidy_unready a :
  tidy a -> AudioController.unready a = negb (AudioController.initialized a).
Proof.
  unfold tidy, AudioController.unready.
  destruct (AudioController.initialized a).
  - intros (-> & g & ->). reflexivity.
  - intros (-> & ->). reflexivity.
Qed.

Lemma fill_frame (A : Type) (f : AudioController.t -> A) :
  (forall v a, f (AudioController.set_draws v a) = f a) ->
  (forall b i v a,
     f (AudioController.call (AudioController.SetSample b i v) a) = f a) ->
  forall buffer count0 i a,
    f (AudioController.fill noise buffer count0 i a) = f a.
Proof.
  intros Hd Hc buffer count0.
  induction count0 as [|n IH]; intros i a; cbn [AudioController.fill].
  - reflexivity.
  - cbv zeta. rewrite IH, Hc, Hd. reflexivity.
Qed.

Lemma fill_calls buffer count0 i a :
  exists samples,
    AudioController.calls (AudioController.fill noise buffer count0 i a)
    = samples ++ AudioController.calls a
    /\ Forall (fun c => exists b k n,
                 c = AudioController.SetSample b k
                       (fround (noise n * 2 - 1)))
         samples.
Proof.
  revert i a. induction count0 as [|n IH]; intros i a;
    cbn [AudioController.fill].
  - exists nil. split; [reflexivity | constructor].
  - cbv zeta.
    destruct (IH (S i)
                (AudioController.call
                   (AudioController.SetSample buffer i
                      (fround (noise (AudioController.draws a) * 2 - 1)))
                   (AudioController.set_draws (S (AudioController.draws a)) a)))
      as (samples & -> & Hs).
    aud.
    exists (samples ++ (AudioController.SetSample buffer i
                          (fround (noise (AudioController.draws a) * 2 - 1))
                        :: nil)).
    split; [rewrite <- app_assoc; reflexivity|].
    apply Forall_app. split; [exact Hs|].
    constructor; [|constructor]. eexists _, _, _. reflexivity.
Qed.

Lemma forEach_perfect now g l i a :
  let a' := AudioController.forEach (AudioController.perfectNote now g) l i a in
  AudioController.initialized a' = AudioController.initialized a
  /\ AudioController.ctx a' = AudioController.ctx a
  /\ AudioController.masterGain a' = AudioController.masterGain a
  /\ contexts (AudioController.calls a') = contexts (AudioController.calls a)
  /\ starts (AudioController.calls a')
     = (length l + starts (AudioController.calls a))%nat.
Proof.
  revert i a. induction l as [|freq l IH]; intros i a;
    cbn [AudioController.forEach length].
  - cbv zeta. repeat split; reflexivity.
  - cbv zeta.
    destruct (IH (S i) (AudioController.perfectNote now g freq i a))
      as (-> & -> & -> & -> & ->).
    unfold AudioController.perfectNote, contexts, starts. cbv zeta. aud.
    cbn [filter isNewContext isStart length].
    repeat split; try reflexivity. lia.
Qed.

(** What a method does to a tidy controller. *)
Ltac tidy_goal :=
  unfold tidy; aud;
  match goal with
  | H : AudioController.initialized _ = _ |- _ => rewrite ?H
  | _ => idtac
  end;
  first [ split; [assumption | eexists; eassumption]
        | split; [reflexivity | eexists; reflexivity]
        | split; assumption ].

Ltac count_goal :=
  unfold contexts, starts in *; aud;
  repeat match goal with
  | H : AudioController.initialized _ = _ |- _ => rewrite H
  end;
  cbn [filter isNewContext isStart length sources negb andb orb];
  lia.

Ltac spec_goals :=
  split; [tidy_goal|];
  split; [aud; first [reflexivity | assumption]|];
  split; [count_goal|];
  split; [count_goal|];
  split; intros; first [reflexivity | congruence].

Lemma invoke_spec m a :
  tidy a ->
  let a' := AudioController.invoke supported sampleRate noise m a in
  tidy a'
  /\ AudioController.initialized a'
     = AudioController.initialized a || (lazy m && supported)
  /\ contexts (AudioController.calls a')
     = (contexts (AudioController.calls a)
        + if negb (AudioController.initialized a) && (lazy m && supported)
          then 1 else 0)%nat
  /\ starts (AudioController.calls a')
     = (starts (AudioController.calls a)
        + if AudioController.initialized a' then sources m else 0)%nat
  /\ (AudioController.initialized a = false -> lazy m = false -> a' = a)
  /\ (supported = false -> AudioController.initialized a = false ->
      AudioController.calls a'
      = if lazy m then notSupported :: AudioController.calls a
        else AudioController.calls a).
Proof.
  intro Ht. cbv zeta.
  pose proof (tidy_unready a Ht) as Hu.
  unfold tidy in Ht.
  destruct (AudioController.initialized a) eqn:Hi.
  - (* the controller is initialised *)
    destruct Ht as (Hc & g & Hg). cbn [negb] in Hu.
    destruct m as [|now|now|now|now];
      cbn [AudioController.invoke lazy sources orb andb negb].
    + unfold AudioController.init. rewrite Hi. spec_goals.
    + unfold AudioController.playJump. cbv zeta. rewrite Hu, Hg.
      unfold AudioController.jumpSound. cbv zeta. spec_goals.
    + unfold AudioController.playLand. rewrite Hu, Hg. cbv zeta.
      spec_goals.
    + unfold AudioController.playPerfect. rewrite Hu, Hg.
      destruct (forEach_perfect now g AudioController.notes 0 a)
        as (Hpi & Hpc & Hpg & Hpn & Hps).
      rewrite Hi in Hpi. rewrite Hc in Hpc. rewrite Hg in Hpg.
      cbn [AudioController.notes length] in Hps.
      set (played := AudioController.forEach _ _ _ _) in *.
      clearbody played. spec_goals.
    + unfold AudioController.playShatter. rewrite Hu, Hg. cbv zeta. aud.
      match goal with
      | |- context [AudioController.fill noise ?b ?n ?i ?x] =>
          set (filled := AudioController.fill noise b n i x);
          assert (Hfi : AudioController.initialized filled = true)
            by (unfold filled;
                rewrite (fill_frame _
                           (fun a => AudioController.initialized a))
                  by reflexivity; exact Hi);
          assert (Hfc : AudioController.ctx filled = true)
            by (unfold filled;
                rewrite (fill_frame _ (fun a => AudioController.ctx a))
                  by reflexivity; exact Hc);
          assert (Hfg : AudioController.masterGain filled = Some g)
            by (unfold filled;
                rewrite (fill_frame _
                           (fun a => AudioController.masterGain a))
                  by reflexivity; exact Hg);
          assert (Hfn : contexts (AudioController.calls filled)
                        = contexts (AudioController.calls a))
            by (unfold filled;
                rewrite (fill_frame _
                           (fun a => contexts (AudioController.calls a)))
                  by reflexivity; reflexivity);
          assert (Hfs : starts (AudioController.calls filled)
                        = starts (AudioController.calls a))
            by (unfold filled;
                rewrite (fill_frame _
                           (fun a => starts (AudioController.calls a)))
                  by reflexivity; reflexivity)
      end.
      clearbody filled. spec_goals.
  - (* there is no context yet *)
    destruct Ht as (Hc & Hg). cbn [negb] in Hu.
    destruct m as [|now|now|now|now];
      cbn [AudioController.invoke lazy sources orb andb negb].
    + unfold AudioController.init. rewrite Hi.
      destruct supported; spec_goals.
    + unfold AudioController.playJump. cbv zeta. rewrite Hu.
      unfold AudioController.init. rewrite Hi.
      destruct supported.
      * unfold AudioController.unready. aud. cbn [negb orb].
        unfold AudioController.jumpSound. cbv zeta. spec_goals.
      * unfold AudioController.unready. aud. rewrite Hc. cbn [negb orb].
        spec_goals.
    + unfold AudioController.playLand. rewrite Hu. spec_goals.
    + unfold AudioController.playPerfect. rewrite Hu. spec_goals.
    + unfold AudioController.playShatter. rewrite Hu. spec_goals.
Qed.

(** *** Any sequence of calls *)

Lemma session_app ms1 ms2 a :
  AudioController.session supported sampleRate noise (ms1 ++ ms2) a
  = AudioController.session supported sampleRate noise ms2
      (AudioController.session supported sampleRate noise ms1 a).
Proof. unfold AudioController.session. apply fold_left_app. Qed.

Lemma session_spec ms a :
  tidy a ->
  (AudioController.initialized a = true -> supported = true) ->
  contexts (AudioController.calls a)
  = (if AudioController.initialized a then 1 else 0)%nat ->
  let a' := AudioController.session supported sampleRate noise ms a in
  tidy a'
  /\ (AudioController.initialized a' = true -> supported = true)
  /\ contexts (AudioController.calls a')
     = (if AudioController.initialized a' then 1 else 0)%nat
  /\ AudioController.initialized a'
     = AudioController.initialized a || (existsb lazy ms && supported).
Proof.
  revert a. induction ms as [|m ms IH]; intros a Ht Hs Hn; cbv zeta;
    cbn [AudioController.session fold_left existsb].
  - rewrite orb_false_r. auto.
  - destruct (invoke_spec m a Ht) as (Ht' & Hi' & Hc' & _).
    cbv zeta in IH.
    set (a1 := AudioController.invoke supported sampleRate noise m a) in *.
    assert (Hs1 : AudioController.initialized a1 = true -> supported = true).
    { rewrite Hi'. intro H. apply orb_true_iff in H.
      destruct H as [H|H]; [exact (Hs H)|].
      apply andb_true_iff in H. apply H. }
    assert (Hn1 : contexts (AudioController.calls a1)
                  = (if AudioController.initialized a1 then 1 else 0)%nat).
    { rewrite Hc', Hi', Hn.
      destruct (AudioController.initialized a), (lazy m), supported;
        reflexivity. }
    destruct (IH a1 Ht' Hs1 Hn1) as (H1 & H2 & H3 & H4).
    change (fold_left
              (fun a m => AudioController.invoke supported sampleRate noise m a)
              ms a1)
      with (AudioController.session supported sampleRate noise ms a1).
    refine (conj H1 (conj H2 (conj H3 _))).
    rewrite H4, Hi'.
    destruct (AudioController.initialized a), (lazy m), supported,
      (existsb lazy ms); reflexivity.
Qed.

Lemma session_idle ms a :
  tidy a -> AudioController.initialized a = false ->
  (forall m, In m ms -> lazy m = false) ->
  AudioController.session supported sampleRate noise ms a = a.
Proof.
  revert a. induction ms as [|m ms IH]; intros a Ht Hi Hl;
    cbn [AudioController.session fold_left].
  - reflexivity.
  - destruct (invoke_spec m a Ht) as (_ & _ & _ & _ & Hid & _).
    cbv zeta in Hid. rewrite (Hid Hi (Hl m (or_introl eq_refl))).
    apply IH; [exact Ht | exact Hi |].
    intros m0 Hm0. apply Hl. right. exact Hm0.
Qed.

(** *** The calls the API gets *)

Ltac scheduled_goal Hold :=
  aud;
  repeat (constructor;
          [cbn [wellScheduled]; first [exact I | qc_compute]|]);
  exact Hold.

Ltac stop_goal Hold :=
  aud; intros n Hin; cbn [In] in Hin;
  repeat (destruct Hin as [Hin|Hin];
          [ first [ discriminate Hin
                  | injection Hin as <-; eexists; cbn [In]; eauto 20 ]
          |]);
  destruct (Hold n Hin) as (w & Hw); exists w; cbn [In]; auto 20.

Lemma perfectNote_calls now g freq i a :
  (Forall wellScheduled (AudioController.calls a) ->
   Forall wellScheduled
     (AudioController.calls (AudioController.perfectNote now g freq i a)))
  /\ (oscillatorsStop (AudioController.calls a) ->
      oscillatorsStop
        (AudioController.calls (AudioController.perfectNote now g freq i a))).
Proof.
  unfold AudioController.perfectNote. cbv zeta. split; intro Hold.
  - scheduled_goal Hold.
  - stop_goal Hold.
Qed.

Lemma forEach_calls now g l i a :
  (Forall wellScheduled (AudioController.calls a) ->
   Forall wellScheduled
     (AudioController.calls
        (AudioController.forEach (AudioController.perfectNote now g) l i a)))
  /\ (oscillatorsStop (AudioController.calls a) ->
      oscillatorsStop
        (AudioController.calls
           (AudioController.forEach (AudioController.perfectNote now g)
              l i a))).
Proof.
  revert i a. induction l as [|freq l IH]; intros i a;
    cbn [AudioController.forEach].
  - split; auto.
  - destruct (IH (S i) (AudioController.perfectNote now g freq i a))
      as (H1 & H2).
    destruct (perfectNote_calls now g freq i a) as (H3 & H4).
    split; auto.
Qed.

Lemma fill_scheduled buffer count0 i a :
  unitInterval noise ->
  (Forall wellScheduled (AudioController.calls a) ->
   Forall wellScheduled
     (AudioController.calls (AudioController.fill noise buffer count0 i a)))
  /\ (oscillatorsStop (AudioController.calls a) ->
      oscillatorsStop
        (AudioController.calls
           (AudioController.fill noise buffer count0 i a))).
Proof.
  intro Hr.
  destruct (fill_calls buffer count0 i a) as (samples & -> & Hs).
  split; intro Hold.
  - apply Forall_app. split; [|exact Hold].
    eapply Forall_impl; [|exact Hs].
    intros c (b & k & n & ->). cbn [wellScheduled].
    destruct (Hr n) as (H0 & H1). apply fround_unit; qc_lra.
  - intros n Hin. apply in_app_or in Hin. destruct Hin as [Hin|Hin].
    + rewrite Forall_forall in Hs. destruct (Hs _ Hin) as (b & k & j & E).
      discriminate E.
    + destruct (Hold n Hin) as (w & Hw). exists w.
      apply in_or_app. right. exact Hw.
Qed.

Lemma invoke_calls m a :
  unitInterval noise ->
  (Forall wellScheduled (AudioController.calls a) ->
   Forall wellScheduled
     (AudioController.calls
        (AudioController.invoke supported sampleRate noise m a)))
  /\ (oscillatorsStop (AudioController.calls a) ->
      oscillatorsStop
        (AudioController.calls
           (AudioController.invoke supported sampleRate noise m a))).
Proof.
  intro Hr.
  assert (Hinit :
            (Forall wellScheduled (AudioController.calls a) ->
             Forall wellScheduled
               (AudioController.calls (AudioController.init supported a)))
            /\ (oscillatorsStop (AudioController.calls a) ->
                oscillatorsStop
                  (AudioController.calls (AudioController.init supported a)))).
  { unfold AudioController.init.
    destruct (AudioController.initialized a); [auto|].
    destruct supported; split; intro Hold;
      first [scheduled_goal Hold | stop_goal Hold]. }
  assert (Hjump : forall now g b,
            (Forall wellScheduled (AudioController.calls b) ->
             Forall wellScheduled
               (AudioController.calls (AudioController.jumpSound now g b)))
            /\ (oscillatorsStop (AudioController.calls b) ->
                oscillatorsStop
                  (AudioController.calls
                     (AudioController.jumpSound now g b)))).
  { intros now g b. unfold AudioController.jumpSound. cbv zeta.
    split; intro Hold; first [scheduled_goal Hold | stop_goal Hold]. }
  destruct m as [|now|now|now|now]; cbn [AudioController.invoke].
  - exact Hinit.
  - unfold AudioController.playJump. cbv zeta.
    destruct (AudioController.unready a).
    + destruct (AudioController.unready (AudioController.init supported a));
        [exact Hinit|].
      destruct (AudioController.masterGain (AudioController.init supported a))
        as [g|]; [|exact Hinit].
      destruct (Hjump now g (AudioController.init supported a)) as (H1 & H2).
      destruct Hinit as (H3 & H4). split; auto.
    + destruct (AudioController.masterGain a) as [g|]; [|auto].
      apply Hjump.
  - unfold AudioController.playLand.
    destruct (AudioController.unready a); [auto|].
    destruct (AudioController.masterGain a) as [g|]; [|auto].
    cbv zeta. split; intro Hold; first [scheduled_goal Hold | stop_goal Hold].
  - unfold AudioController.playPerfect.
    destruct (AudioController.unready a); [auto|].
    destruct (AudioController.masterGain a) as [g|]; [|auto].
    apply forEach_calls.
  - unfold AudioController.playShatter.
    destruct (AudioController.unready a); [auto|].
    destruct (AudioController.masterGain a) as [g|]; [|auto].
    cbv zeta.
    match goal with
    | |- context [AudioController.fill noise ?b ?n ?i ?x] =>
        destruct (fill_scheduled b n i x Hr) as (Hf1 & Hf2);
        set (filled := AudioController.fill noise b n i x) in *
    end.
    split; intro Hold.
    + assert (Hf : Forall wellScheduled (AudioController.calls filled)).
      { apply Hf1. scheduled_goal Hold. }
      clearbody filled. scheduled_goal Hf.
    + assert (Hf : oscillatorsStop (AudioController.calls filled)).
      { apply Hf2. stop_goal Hold. }
      clearbody filled. stop_goal Hf.
Qed.

Lemma tidy_new : tidy AudioController.new.
Proof. unfold tidy. cbn. split; reflexivity. Qed.

Lemma unsupported_calls ms a :
  supported = false -> tidy a -> AudioController.initialized a = false ->
  AudioController.calls
    (AudioController.session supported sampleRate noise ms a)
  = repeat notSupported (length (filter lazy ms)) ++ AudioController.calls a
  /\ AudioController.nodes
       (AudioController.session supported sampleRate noise ms a)
     = AudioController.nodes a.
Proof.
  intro Hs. revert a. induction ms as [|m ms IH]; intros a Ht Hi;
    cbn [AudioController.session fold_left filter].
  - split; reflexivity.
  - destruct (invoke_spec m a Ht) as (Ht' & Hi' & _ & _ & Hid & Hc).
    cbv zeta in *.
    set (a1 := AudioController.invoke supported sampleRate noise m a) in *.
    assert (Hi1 : AudioController.initialized a1 = false).
    { rewrite Hi', Hi, Hs. destruct (lazy m); reflexivity. }
    destruct (IH a1 Ht' Hi1) as (H1 & H2).
    change (fold_left
              (fun a m => AudioController.invoke supported sampleRate noise m a)
              ms a1)
      with (AudioController.session supported sampleRate noise ms a1).
    rewrite H1, H2, (Hc Hs Hi).
    assert (Hn : AudioController.nodes a1 = AudioController.nodes a).
    { pose proof (tidy_unready a Ht) as Hu. rewrite Hi in Hu.
      cbn [negb] in Hu.
      unfold a1. destruct m as [|now|now|now|now];
        cbn [AudioController.invoke].
      - unfold AudioController.init. rewrite Hi, Hs. reflexivity.
      - unfold AudioController.playJump, AudioController.init. cbv zeta.
        rewrite Hu, Hi, Hs.
        unfold AudioController.unready in *. aud. rewrite Hu.
        reflexivity.
      - unfold AudioController.playLand. rewrite Hu. reflexivity.
      - unfold AudioController.playPerfect. rewrite Hu. reflexivity.
      - unfold AudioController.playShatter. rewrite Hu. reflexivity. }
    split; [|exact Hn].
    destruct (lazy m); cbn [length repeat app].
    + change (notSupported :: AudioController.calls a)
        with ((notSupported :: nil) ++ AudioController.calls a)%list.
      rewrite app_assoc. f_equal.
      change (notSupported :: repeat notSupported (length (filter lazy ms)))
        with (repeat notSupported (S (length (filter lazy ms)))).
      rewrite <- repeat_cons. reflexivity.
    + reflexivity.
Qed.

(** X18: One audio context: whatever methods of the controller are called, in
    whatever order, at most one [AudioContext] is ever made, and exactly one
    once the controller is initialised. It is initialised exactly when the
    context and the master gain are there ([playJump] and [init] do not test
    the same fields, but they agree), and that is exactly when the page
    supports Web Audio and [init] or [playJump] has been called. *)
Theorem audio_context_is_made_once methods :
  let a := AudioController.session supported sampleRate noise methods
             AudioController.new in
  contexts (AudioController.calls a)
  = (if AudioController.initialized a then 1 else 0)%nat
  /\ AudioController.unready a = negb (AudioController.initialized a)
  /\ (AudioController.initialized a = true
      <-> supported = true /\ exists m, In m methods /\ lazy m = true).
Proof.
  cbv zeta.
  destruct (session_spec methods AudioController.new tidy_new)
    as (Ht & _ & Hn & Hi); [discriminate | reflexivity |].
  split; [exact Hn|]. split; [apply tidy_unready, Ht|].
  rewrite Hi. cbn [AudioController.new AudioController.initialized orb].
  rewrite andb_true_iff, existsb_exists. tauto.
Qed.

(** X19: No context, no sound: [playLand], [playPerfect] and [playShatter]
    leave a controller that was never initialised exactly as it is, however
    often they are called; and on a page without Web Audio all the controller
    ever does is to write one error to the console for each call of [init] or
    [playJump]: no node is made. *)
Theorem sounds_wait_for_the_context methods :
  ((forall m, In m methods -> lazy m = false) ->
   AudioController.session supported sampleRate noise methods
     AudioController.new
   = AudioController.new)
  /\ (supported = false ->
      AudioController.calls
        (AudioController.session supported sampleRate noise methods
           AudioController.new)
      = repeat notSupported (length (filter lazy methods))
      /\ AudioController.nodes
           (AudioController.session supported sampleRate noise methods
              AudioController.new)
         = 0%nat).
Proof.
  split.
  - intro Hl. apply session_idle; [apply tidy_new | reflexivity | exact Hl].
  - intro Hs.
    destruct (unsupported_calls methods AudioController.new Hs tidy_new
                eq_refl) as (H1 & H2).
    rewrite H1, H2. cbn [AudioController.new AudioController.calls
                         AudioController.nodes].
    rewrite app_nil_r. split; reflexivity.
Qed.

(** X20: Calls the API accepts, for [Math.random] in [0, 1): whatever methods
    are called, every exponential ramp the controller schedules goes to a
    positive value (a ramp to 0 is refused by the API), every sample of the
    noise burst, as the [Float32Array] stores it, is from -1 to 1 (a draw
    just below 1 is stored as 1), and every oscillator it makes is told when
    to stop. *)
Theorem calls_are_well_scheduled methods :
  unitInterval noise ->
  Forall wellScheduled
    (AudioController.calls
       (AudioController.session supported sampleRate noise methods
          AudioController.new))
  /\ oscillatorsStop
       (AudioController.calls
          (AudioController.session supported sampleRate noise methods
             AudioController.new)).
Proof.
  intro Hr.
  assert (H : forall ms a,
            Forall wellScheduled (AudioController.calls a)
            /\ oscillatorsStop (AudioController.calls a) ->
            Forall wellScheduled
              (AudioController.calls
                 (AudioController.session supported sampleRate noise ms a))
            /\ oscillatorsStop
                 (AudioController.calls
                    (AudioController.session supported sampleRate noise
                       ms a))).
  { induction ms as [|m ms IH]; intros a (H1 & H2);
      cbn [AudioController.session fold_left].
    - split; assumption.
    - apply IH. destruct (invoke_calls m a Hr) as (H3 & H4). split; auto. }
  apply H. cbn. split; [constructor | intros n []].
Qed.

End Sounds.

(** * The engine and its sounds *)

Lemma sources_soundOf now e m :
  soundOf now e = Some m ->
  match soundOf 0 e with
  | Some m0 => sources m0
  | None => 0%nat
  end = sources m.
Proof.
  destruct e; cbn [soundOf]; intro E; try discriminate E;
    injection E as <-; reflexivity.
Qed.

Lemma soundOf_lazy now e m :
  soundOf now e = Some m ->
  (isSound e = true \/ e = AudioInit)
  /\ (lazy m = false -> isSound e = true).
Proof.
  destruct e; cbn [soundOf]; intro E; try discriminate E;
    injection E as <-; cbn [isSound lazy]; split; auto; discriminate.
Qed.

Lemma heard_spec sampleRate noise clock tr :
  soundsAfterInit tr ->
  let a := heard true sampleRate noise clock tr in
  tidy a
  /\ (In AudioInit tr -> AudioController.initialized a = true)
  /\ (AudioController.initialized a = true -> In AudioInit tr \/ In PlayJump tr)
  /\ contexts (AudioController.calls a)
     = (if AudioController.initialized a then 1 else 0)%nat
  /\ starts (AudioController.calls a) = voices tr.
Proof.
  induction tr as [|e older IH]; intro Hs; cbv zeta; cbn [heard voices].
  - split; [apply tidy_new|]. cbn.
    split; [intros []|]. split; [discriminate|]. split; reflexivity.
  - cbn [soundsAfterInit] in Hs. destruct Hs as (He & Hs).
    destruct (IH Hs) as (Ht & Hin & Hni & Hc & Hv). cbv zeta in *.
    set (a := heard true sampleRate noise clock older) in *.
    destruct (soundOf (clock (length older)) e) as [m|] eqn:Em.
    + destruct (invoke_spec true sampleRate noise m a Ht)
        as (Ht' & Hi' & Hc' & Hs' & _).
      cbv zeta in *.
      set (a' := AudioController.invoke true sampleRate noise m a) in *.
      rewrite andb_true_r in Hi', Hc'.
      destruct (soundOf_lazy _ _ _ Em) as (Hcase & Hlz).
      assert (Hinit : AudioController.initialized a' = true).
      { rewrite Hi'. destruct (lazy m) eqn:El; [apply orb_true_r|].
        rewrite orb_false_r. apply Hin, He, Hlz. reflexivity. }
      rewrite (sources_soundOf _ _ _ Em).
      split; [exact Ht'|]. split; [intros _; exact Hinit|].
      split.
      { intros _. destruct Hcase as [Hsnd | ->];
          [|left; left; reflexivity].
        destruct (Hni (Hin (He Hsnd))) as [H|H];
          [left; right; exact H | right; right; exact H]. }
      split.
      * rewrite Hc', Hc, Hinit.
        destruct (AudioController.initialized a) eqn:Eia.
        -- cbn [negb andb]. lia.
        -- rewrite Hinit in Hi'. cbn [negb andb orb] in *.
           rewrite <- Hi'. reflexivity.
      * rewrite Hs', Hinit, Hv. lia.
    + assert (Hne : e <> AudioInit /\ e <> PlayJump).
      { destruct e; cbn [soundOf] in Em; try discriminate Em;
          split; discriminate. }
      split; [exact Ht|]. split.
      { intros [E|H]; [destruct Hne as (Hne & _); congruence | exact (Hin H)]. }
      split.
      { intro H. destruct (Hni H) as [H1|H1];
          [left; right; exact H1 | right; right; exact H1]. }
      split; [exact Hc|].
      assert (E0 : soundOf 0 e = None)
        by (destruct e; cbn [soundOf] in *;
            first [reflexivity | discriminate Em]).
      rewrite Hv, E0. reflexivity.
Qed.

(** X21: No sound is dropped: on a page with Web Audio, replay the calls that
    any run of the engine makes on the audio controller, from a new
    controller. Every one of the sounds the engine asks for starts its sources
    (one oscillator for a jump or a landing, four for a perfect landing, the
    noise burst for the shatter): none meets the guard that returns when there
    is no context, because the engine plays no sound before [startGame] has
    called [init]. One audio context is made, at the first start of a game,
    and the lazy initialisation of [playJump] is never what makes it. *)
Theorem no_sound_is_dropped random sampleRate noise clock w h inputs s :
  run random inputs (constructor w h) = Some s ->
  soundsAfterInit (trace s)
  /\ starts (AudioController.calls
               (heard true sampleRate noise clock (trace s)))
     = voices (trace s)
  /\ contexts (AudioController.calls
                 (heard true sampleRate noise clock (trace s)))
     = (if AudioController.initialized
             (heard true sampleRate noise clock (trace s))
        then 1 else 0)%nat
  /\ (AudioController.initialized
        (heard true sampleRate noise clock (trace s)) = true
      <-> state s <> start).
Proof.
  intro Hrun.
  destruct (sounds_run random _ _ _ _ Hrun) as (Hs & Hi).
  destruct (heard_spec sampleRate noise clock (trace s) Hs)
    as (_ & Hin & Hni & Hc & Hv).
  split; [exact Hs|]. split; [exact Hv|]. split; [exact Hc|].
  split.
  - intros Hinit Hst.
    destruct (Hni Hinit) as [H|H];
      rewrite (start_trace random _ _ _ _ Hrun Hst) in H; destruct H.
  - intro Hst. exact (Hin (Hi Hst)).
Qed.

(** * The properties on concrete games *)

Lemma the_Some (o : option Engine) : succeeds o = true -> o = Some (the o).
Proof. destruct o; [reflexivity | discriminate]. Defined.

Ltac run_it := apply the_Some; vm_compute; reflexivity.

Ltac lands :=
  unfold firstLanding;
  split; [|split; [|split; [|split]]];
  [ vm_compute; reflexivity | run_it | run_it
  | vm_compute; reflexivity | vm_compute; reflexivity ].

Lemma falling_lands_first : firstLanding coin 0 falling touching 0%nat landedBack.
Proof.
  lands.
Defined.

Lemma falling_lands_perfectly : perfect touching 0%nat.
Proof. unfold perfect. qc_compute. Defined.

(** C1 on the first landing of that game: the streak goes from 0 to 1, the
    actor, cyan until then, takes the magenta of the base platform. *)
Lemma perfect_landing_witness :
  perfectStreak landedBack = (perfectStreak falling + 1)%Z
  /\ reports asCombo (trace landedBack)
     = (perfectStreak falling + 1)%Z :: reports asCombo (trace falling)
  /\ Player.color (player landedBack) = Platform.color (heap touching 0%nat)
  /\ Platform.color (heap landedBack 0%nat) = Platform.color (heap touching 0%nat).
Proof.
  exact (perfect_landing_paints_actor coin 0 falling touching 0%nat landedBack
           falling_lands_first falling_lands_perfectly).
Defined.

(** C1 as worded fails there: the platform stays magenta, the actor was
    cyan. *)
Lemma perfect_landing_keeps_platform_colour :
  ~ perfectLandingPaintsPlatform coin.
Proof.
  intro H.
  destruct (H 0 falling touching 0%nat landedBack
              falling_lands_first falling_lands_perfectly) as (_ & _ & Hc).
  assert (E1 : Platform.color (heap landedBack 0%nat) = NEON_MAGENTA)
    by (vm_compute; reflexivity).
  assert (E2 : Player.color (player touching) = NEON_CYAN)
    by (vm_compute; reflexivity).
  rewrite E1, E2 in Hc. discriminate Hc.
Qed.

(** C7 while playing: the first input of a game is the first jump. *)
Lemma jump_witness :
  Player.vy (player (handleInput coin (startGame coin (constructor 400 800))))
  = JUMP_FORCE
  /\ Player.jumps
       (player (handleInput coin (startGame coin (constructor 400 800))))
     = 1%Z.
Proof.
  apply (proj1 (jump_consumed_while_playing coin
                  (startGame coin (constructor 400 800)))).
  - reflexivity.
  - reflexivity.
Defined.

(** C7 as worded fails once the game is over: the jump-count is 1 and the
    input is not a second jump. *)
Lemma jump_ignored_when_over : ~ jumpConsumedBelowTwo coin.
Proof.
  intro H.
  assert (Hrun : run coin [StartGame; HandleInput; Resize 400 100; Frame 0]
                   (constructor 400 800)
                 = Some fallen) by run_it.
  destruct (H _ _ _ _ Hrun) as (Hj & _).
  assert (Hlt : (Player.jumps (player fallen) < 2)%Z)
    by (vm_compute; reflexivity).
  specialize (Hj Hlt).
  assert (E1 : Player.jumps (player (handleInput coin fallen)) = 1%Z)
    by (vm_compute; reflexivity).
  assert (E2 : Player.jumps (player fallen) = 1%Z)
    by (vm_compute; reflexivity).
  rewrite E1, E2 in Hj. discriminate Hj.
Qed.

(** C8 on the shrunk window: the frame ends the game, once. *)
Lemma fall_witness :
  state fallen = gameover
  /\ reports asPhase (trace fallen) = gameover :: reports asPhase (trace shrunk).
Proof.
  apply (proj1 (fall_ends_the_game coin) 0 shrunk fallen).
  - vm_compute. reflexivity.
  - run_it.
  - qc_compute.
Defined.

(** The three perfect landings of the climb. *)
Lemma climb_leg1 : quietly fifth climb0 over1.
Proof. apply quietRun_quietly. vm_compute. reflexivity. Defined.

Lemma climb_leg2 : quietly fifth climb1 over2.
Proof. apply quietRun_quietly. vm_compute. reflexivity. Defined.

Lemma climb_leg3 : quietly fifth climb2 over3.
Proof. apply quietRun_quietly. vm_compute. reflexivity. Defined.

Lemma climb_leg4 : quietly fifth climb3 over4.
Proof. apply quietRun_quietly. vm_compute. reflexivity. Defined.

Lemma climb_landing1 : firstLanding fifth 0 over1 above1 1%nat climb1.
Proof. lands. Defined.

Lemma climb_landing2 : firstLanding fifth 0 over2 above2 2%nat climb2.
Proof. lands. Defined.

Lemma climb_landing3 : firstLanding fifth 0 over3 above3 3%nat climb3.
Proof. lands. Defined.

Lemma climb_landing4 : firstLanding fifth 0 over4 above4 4%nat climb4.
Proof. lands. Defined.

Lemma climb_three_perfect : threePerfectLandings fifth climb0 over3 climb3.
Proof.
  exists 0, over1, above1, 1%nat, climb1, 0, over2, above2, 2%nat, climb2,
         0, above3, 3%nat.
  split; [|split; [|split; [|split; [|split; [|split; [|split; [|split;
    [|split; [|split]]]]]]]]].
  - vm_compute. reflexivity.
  - vm_compute. reflexivity.
  - exact climb_leg1.
  - exact climb_landing1.
  - unfold perfect. qc_compute.
  - exact climb_leg2.
  - exact climb_landing2.
  - unfold perfect. qc_compute.
  - exact climb_leg3.
  - exact climb_landing3.
  - unfold perfect. qc_compute.
Defined.

(** C2 on the climb: fever comes on with the third landing, whose score
    callback reports 3; the fourth reports 8. *)
Lemma fever_witness :
  isFever over3 = false
  /\ isFever climb3 = true
  /\ score climb3 = (score climb0 + 3)%Z
  /\ reports asScore (trace climb3)
     = score climb3 :: reports asScore (trace over3)
  /\ reports asScore (trace climb4)
     = (score climb4 * FEVER_MULTIPLIER)%Z :: reports asScore (trace over4).
Proof.
  destruct (fever_after_three_perfect_landings fifth climb0 over3 climb3
              climb_three_perfect) as (H1 & H2 & H3 & H4 & H5 & _).
  exact (conj H1 (conj H2 (conj H3 (conj H4
           (H5 0 over4 above4 4%nat climb4 climb_leg4 climb_landing4))))).
Defined.

(** C2 as worded fails on the climb: the score callback of the third
    landing reports 3, not 6. *)
Lemma third_landing_reports_raw_score : ~ feverScoreAtThirdLanding fifth.
Proof.
  intro H. destruct (H _ _ _ climb_three_perfect) as (_ & Hs).
  assert (E1 : reports asScore (trace climb3) = [3; 2; 1; 0]%Z)
    by (vm_compute; reflexivity).
  assert (E2 : score climb3 = 3%Z) by (vm_compute; reflexivity).
  rewrite E1, E2 in Hs. discriminate Hs.
Qed.

(** C3 as worded fails when a lost game is started again: the streak and
    the fever callbacks are called with 0 and false, the values they were
    last called with. *)
Lemma restart_reports_again : ~ notifiesOnChangeOnly coin.
Proof.
  intro H.
  assert (Hrun : run coin (lostGame ++ StartGame :: nil) (constructor 400 800)
                 = Some restarted) by run_it.
  destruct (H _ _ _ _ Hrun) as (_ & _ & Hf & _).
  assert (E : reports asFever (trace restarted) = [false; false]%list)
    by (vm_compute; reflexivity).
  rewrite E in Hf. destruct Hf as (Hf & _). apply Hf. reflexivity.
Qed.

(** On the climb the fourth landing calls the fever callback with true,
    the value it was last called with: [triggerPerfect] calls it without
    the test of the flag that the branch of a landing that is not perfect
    makes. *)
Lemma fever_reported_twice :
  reports asFever (trace (the (run fifth climb (constructor 100 4000))))
  = [true; true; false]%list.
Proof. vm_compute. reflexivity. Qed.

(** C3 on the third landing of the climb, which turns the fever flag
    on. *)
Lemma notifications_witness :
  exists ev,
    trace afterThird = ev ++ trace beforeThird
    /\ changesOnly (reports asScore ev) (reports asScore (trace beforeThird))
    /\ changesOnly (reports asCombo ev) (reports asCombo (trace beforeThird))
    /\ changesOnly (reports asPhase ev) (reports asPhase (trace beforeThird))
    /\ feverTold fifth (Frame 0) beforeThird afterThird (reports asFever ev)
         (reports asFever (trace beforeThird))
    /\ (forall time m a,
          Frame 0 = Frame time ->
          firstLanding fifth time beforeThird m a afterThird ->
          perfect m a -> isFever beforeThird = false ->
          (FEVER_THRESHOLD <= perfectStreak afterThird)%Z ->
          reports asFever ev = [true]%list).
Proof.
  assert (Hrun : run fifth climbToThird (constructor 100 4000)
                 = Some beforeThird) by run_it.
  assert (Hstep : step fifth (Frame 0) beforeThird = Some afterThird)
    by (cbn [step]; run_it).
  assert (Hi : Frame 0 <> StartGame) by discriminate.
  exact (proj1 (notifications_on_change_in_frames fifth 100 4000
                  climbToThird beforeThird Hrun) (Frame 0) afterThird Hi Hstep).
Defined.

(** C6 on the first landing of the jump back onto the base platform. *)
Lemma landedOn_witness :
  (forall b, (b < allocated falling)%nat ->
     Platform.landedOn (heap falling b) = true ->
     Platform.landedOn (heap landedBack b) = true)
  /\ (Frame 0 <> StartGame ->
      (score landedBack = score falling
       /\ forall b, (b < allocated falling)%nat ->
            Platform.landedOn (heap landedBack b)
            = Platform.landedOn (heap falling b))
      \/ (score landedBack = (score falling + 1)%Z
          /\ exists a,
               Platform.landedOn (heap landedBack a) = true
               /\ ((a < allocated falling)%nat ->
                   Platform.landedOn (heap falling a) = false)
               /\ forall b, (b < allocated falling)%nat -> b <> a ->
                    Platform.landedOn (heap landedBack b)
                    = Platform.landedOn (heap falling b))).
Proof.
  apply (landedOn_once_scores_once coin (Frame 0) falling landedBack).
  cbn [step]. run_it.
Defined.

(** * The further properties on the concrete game *)

Lemma coin_unitInterval : unitInterval coin.
Proof. intro n. unfold coin. split; qc_compute. Defined.

Lemma begun_run : run coin [StartGame] (constructor 400 800) = Some begun.
Proof. run_it. Defined.

Lemma begun_next : loop coin 0 begun = Some next.
Proof. run_it. Defined.

Lemma begun_playing : state begun = playing.
Proof. vm_compute. reflexivity. Defined.

Lemma jumped_run :
  run coin [StartGame; HandleInput] (constructor 400 800) = Some jumped.
Proof. run_it. Defined.

(** The actor that comes down on the base platform again stands on its
    top. *)
Lemma actor_rests_witness :
  In 0%nat (platforms landedBack)
  /\ Player.vy (player landedBack) = 0
  /\ Player.height (player landedBack) = PLAYER_SIZE
  /\ Player.y (player landedBack)
     = Platform.y (heap landedBack 0%nat) - Player.height (player landedBack) / 2.
Proof.
  assert (Hh : (0 : Qc) <= 800) by qc_compute.
  assert (Hok : Forall viewportOk (StartGame :: HandleInput :: frames 58))
    by (repeat constructor).
  assert (Hrun : run coin (StartGame :: HandleInput :: frames 58)
                   (constructor 400 800) = Some falling) by run_it.
  assert (Hstep : step coin (Frame 0) falling = Some landedBack)
    by (cbn [step]; run_it).
  assert (Hcp : Player.currentPlatform (player landedBack) = Some 0%nat)
    by (vm_compute; reflexivity).
  assert (Hset : settles (Frame 0) falling).
  { split; [|left]; vm_compute; reflexivity. }
  destruct (actor_rests_on_its_platform coin 400 800
              (StartGame :: HandleInput :: frames 58) falling (Frame 0)
              landedBack 0%nat Hh Hok I Hrun Hstep Hcp)
    as (H1 & H2 & H3 & H4).
  exact (conj H1 (conj H2 (conj H3 (H4 Hset)))).
Defined.

(** The base platform and the first spawned platform above it. *)
Lemma spacing_witness : liesAbove (heap begun) 1%nat 0%nat.
Proof.
  apply (platforms_never_overlap coin 400 800 [StartGame] begun 0 0%nat 1%nat).
  - exact begun_run.
  - vm_compute. reflexivity.
  - vm_compute. reflexivity.
Defined.

Lemma fever_streak_witness :
  (isFever begun = true <-> (FEVER_THRESHOLD <= perfectStreak begun)%Z)
  /\ (0 <= perfectStreak begun <= score begun)%Z
  /\ (0 <= shakeTimer begun <= 10)%Z.
Proof.
  exact (fever_tracks_the_streak coin 400 800 [StartGame] begun begun_run).
Defined.

(** After the first jump the count is 1. *)
Lemma two_jumps_witness :
  (0 <= Player.jumps (player jumped) <= 2)%Z
  /\ (Player.currentPlatform (player jumped) <> None ->
      Player.jumps (player jumped) = 0%Z)
  /\ Player.vx (player jumped) = 0
  /\ Player.width (player jumped) = PLAYER_SIZE
  /\ Player.height (player jumped) = PLAYER_SIZE.
Proof.
  exact (at_most_two_jumps_in_the_air coin 400 800 [StartGame; HandleInput]
           jumped jumped_run).
Defined.

Lemma waiting_witness :
  (state waiting = start
   <-> ~ In StartGame [Frame 0; HandleInput; Resize 300 500])
  /\ (state waiting = start ->
      trace waiting = nil /\ platforms waiting = nil /\ particles waiting = nil
      /\ randomCalls waiting = 0%nat /\ score waiting = 0%Z
      /\ player waiting = Player.new 0 0).
Proof.
  apply (nothing_happens_before_the_start coin 400 800
           [Frame 0; HandleInput; Resize 300 500] waiting).
  run_it.
Defined.

Lemma shape_witness :
  (forall a, In a (platforms begun) -> shaped (heap begun a))
  /\ (forall b, (b < allocated begun)%nat -> shaped (heap begun b))
  /\ forall y,
       let p := heap (spawnPlatform coin y begun) (allocated begun) in
       shaped p
       /\ Platform.width p <= PLATFORM_WIDTH_MAX
       /\ (Platform.width p <= viewportWidth begun ->
           0 <= Platform.x p
           /\ Platform.x p <= viewportWidth begun - Platform.width p).
Proof.
  exact (platforms_keep_their_shape coin coin_unitInterval 400 800
           [StartGame] begun begun_run).
Defined.

(** The first spawned platform, 130 wide, in the first frame. *)
Lemma in_view_witness :
  inView (viewportWidth next) (heap next 1%nat)
  /\ Platform.width (heap next 1%nat) = Platform.width (heap begun 1%nat)
  /\ viewportWidth next = viewportWidth begun.
Proof.
  apply (moving_platforms_stay_in_view coin 400 800 [StartGame] begun 0 next
           1%nat).
  - exact begun_run.
  - exact begun_playing.
  - exact begun_next.
  - vm_compute. auto.
  - assert (E : Qcneqb (Platform.vx (heap begun 1%nat)) 0 = true)
      by (vm_compute; reflexivity).
    apply Qcneqb_neq. exact E.
  - assert (E : Qcleb (Platform.width (heap begun 1%nat)) (viewportWidth begun)
                = true) by (vm_compute; reflexivity).
    apply Qcleb_le. exact E.
Defined.

(** The frame in which the actor passes the line. *)
Lemma scroll_witness :
  (0 < viewportHeight rising * 0.6 - Player.y (player (beforeScroll 0 rising))
   /\ Player.y (player scrolled) = viewportHeight rising * 0.6
   /\ forall b, In b (platforms rising) ->
        Platform.y (heap scrolled b)
        = Platform.y (heap (beforeScroll 0 rising) b)
          + (viewportHeight rising * 0.6
             - Player.y (player (beforeScroll 0 rising))))
  /\ viewportHeight rising * 0.6 <= Player.y (player scrolled).
Proof.
  assert (Hrun : run coin (StartGame :: HandleInput :: frames 17)
                   (constructor 400 800) = Some rising) by run_it.
  assert (Hst : state rising = playing) by (vm_compute; reflexivity).
  assert (Hsc : worldScroll coin (beforeScroll 0 rising) = Some scrolled)
    by run_it.
  assert (E : scrolls (beforeScroll 0 rising) = true)
    by (vm_compute; reflexivity).
  pose proof (world_scroll_moves_all_alike coin 400 800
                (StartGame :: HandleInput :: frames 17) rising 0 scrolled
                Hrun Hst Hsc) as H.
  cbv zeta in H. rewrite E in H. exact H.
Defined.

Lemma particles_witness :
  (forall p, In p (particles jumped) ->
     0 < pt_life p /\ pt_life p <= 1
     /\ pt_maxLife p = 1 /\ pt_type p = confetti)
  /\ (forall t, In t (floatingTexts jumped) ->
        0 < ft_life t /\ ft_life t <= 1
        /\ ft_text t = "PERFECT!"%string /\ 1 <= ft_scale t).
Proof.
  exact (particles_fade_within_bounds coin 400 800 [StartGame; HandleInput]
           jumped jumped_run).
Defined.

(** Landings, perfect landings and a shatter on a new controller. *)
Lemma silence_witness :
  AudioController.session true 8 coin
    [AudioController.Land 0; AudioController.Perfect 0;
     AudioController.Shatter 0] AudioController.new
  = AudioController.new.
Proof.
  apply (proj1 (sounds_wait_for_the_context true 8 coin
                  [AudioController.Land 0; AudioController.Perfect 0;
                   AudioController.Shatter 0])).
  intros m [<-|[<-|[<-|[]]]]; reflexivity.
Defined.

(** A draw just below 1 gives a sample that is stored as 1. *)
Lemma stored_sample_reaches_one : fround ((1 - pow2 (-53)) * 2 - 1) = 1.
Proof. apply Qc_is_canon. vm_compute. reflexivity. Qed.

(** A start, a jump and a shatter. *)
Lemma schedule_witness :
  Forall wellScheduled
    (AudioController.calls
       (AudioController.session true 8 coin
          [AudioController.Init; AudioController.Jump 0;
           AudioController.Shatter 1] AudioController.new))
  /\ oscillatorsStop
       (AudioController.calls
          (AudioController.session true 8 coin
             [AudioController.Init; AudioController.Jump 0;
              AudioController.Shatter 1] AudioController.new)).
Proof.
  exact (calls_are_well_scheduled true 8 coin
           [AudioController.Init; AudioController.Jump 0;
            AudioController.Shatter 1] coin_unitInterval).
Defined.

(** The sounds of a start and a jump. *)
Lemma sound_witness :
  soundsAfterInit (trace jumped)
  /\ starts (AudioController.calls
               (heard true 8 coin (fun _ => 0) (trace jumped)))
     = voices (trace jumped)
  /\ contexts (AudioController.calls
                 (heard true 8 coin (fun _ => 0) (trace jumped)))
     = (if AudioController.initialized
             (heard true 8 coin (fun _ => 0) (trace jumped))
        then 1%nat else 0%nat)
  /\ (AudioController.initialized
        (heard true 8 coin (fun _ => 0) (trace jumped)) = true
      <-> state jumped <> start).
Proof.
  exact (no_sound_is_dropped coin 8 coin (fun _ => 0) 400 800
           [StartGame; HandleInput] jumped jumped_run).
Defined.

(** The first spawned platform moves left by 3.5 in the first frame. *)
Lemma move_witness :
  Platform.x (heap next 1%nat)
  = Platform.x (heap begun 1%nat)
    + Platform.vx (heap begun 1%nat) * (1 + inject_Z (score begun) * 0.05)
  /\ Platform.vx (heap next 1%nat) = Platform.vx (heap begun 1%nat).
Proof.
  assert (Hin : In 1%nat (platforms begun)) by (vm_compute; auto).
  assert (Hv : Platform.vx (heap begun 1%nat) <> 0).
  { assert (E : Qcneqb (Platform.vx (heap begun 1%nat)) 0 = true)
      by (vm_compute; reflexivity).
    apply Qcneqb_neq. exact E. }
  assert (H0 : 0 < Platform.x (heap begun 1%nat)
                   + Platform.vx (heap begun 1%nat)
                     * (1 + inject_Z (score begun) * 0.05)).
  { assert (E : Qcltb 0 (Platform.x (heap begun 1%nat)
                         + Platform.vx (heap begun 1%nat)
                           * (1 + inject_Z (score begun) * 0.05)) = true)
      by (vm_compute; reflexivity).
    apply Qcltb_lt. exact E. }
  assert (H1 : Platform.x (heap begun 1%nat)
               + Platform.vx (heap begun 1%nat)
                 * (1 + inject_Z (score begun) * 0.05)
               + Platform.width (heap begun 1%nat) < viewportWidth begun).
  { assert (E : Qcltb (Platform.x (heap begun 1%nat)
                       + Platform.vx (heap begun 1%nat)
                         * (1 + inject_Z (score begun) * 0.05)
                       + Platform.width (heap begun 1%nat))
                  (viewportWidth begun) = true)
      by (vm_compute; reflexivity).
    apply Qcltb_lt. exact E. }
  exact (proj2 (proj2 (proj2 (proj1 (platforms_move_and_bounce coin 400 800
                                       [StartGame] begun 0 next begun_run
                                       begun_playing begun_next)
                                1%nat Hin) Hv)) H0 H1).
Defined.

Lemma count_witness :
  length (platforms begun) = 6%nat
  /\ exists s' first front lastP,
       loop coin 0 begun = Some s'
       /\ platforms begun = first :: front ++ [lastP]
       /\ length (platforms s') = length (platforms begun)
       /\ if scrolls (beforeScroll 0 begun)
             && Qcltb (viewportHeight begun + 100) (Platform.y (heap s' first))
          then platforms s' = front ++ [lastP; allocated begun]
               /\ Platform.y (heap s' (allocated begun))
                  = Platform.y (heap s' lastP) - PLATFORM_SPACING
          else platforms s' = platforms begun.
Proof.
  destruct (platform_count_kept coin 400 800 [StartGame] begun begun_run)
    as (H6 & Hframe).
  split.
  - apply H6. rewrite begun_playing. discriminate.
  - exact (Hframe 0 begun_playing).
Defined.

Lemma stationary_witness :
  oneStationary begun
  /\ (forall y, moving (heap (spawnPlatform coin y begun) (allocated begun)))
  /\ exists base others,
       platforms (startGame coin begun) = base :: others
       /\ length others = 5%nat
       /\ Platform.vx (heap (startGame coin begun) base) = 0
       /\ Platform.width (heap (startGame coin begun) base) = 200
       /\ Platform.x (heap (startGame coin begun) base)
          + Platform.width (heap (startGame coin begun) base) / 2
          = viewportWidth (startGame coin begun) / 2
       /\ Player.currentPlatform (player (startGame coin begun)) = Some base
       /\ Forall (fun a => moving (heap (startGame coin begun) a)) others.
Proof.
  exact (only_the_base_is_stationary coin coin_unitInterval 400 800
           [StartGame] begun begun_run).
Defined.


(** Two frames of the game just started, 16 ms apart or a second apart. *)
Lemma frames_witness :
  option_map (set_lastTime 0) (run coin [Frame 5; Frame 1005] begun)
  = option_map (set_lastTime 0) (run coin [Frame 0; Frame 16] begun).
Proof.
  apply (proj2 (proj2 (frames_ignore_elapsed_time coin))
           ((0 : Qc) :: (16 : Qc) :: nil) ((5 : Qc) :: (1005 : Qc) :: nil)
           begun).
  reflexivity.
Defined.

(** The five particles of a jump. *)
Lemma burst_witness :
  exists burst,
    particles (createParticles coin 200 680 5 WHITE begun)
    = particles begun ++ burst
    /\ length burst = 5%nat
    /\ Forall (thrown 200 680 WHITE) burst
    /\ randomCalls (createParticles coin 200 680 5 WHITE begun)
       = (3 * 5 + randomCalls begun)%nat.
Proof.
  exact (a_burst_is_thrown_upwards coin coin_unitInterval 200 680 5 WHITE
           begun).
Defined.
